(** * License manager: the storage layer and its analytics, verified

    A shallow embedding of [server/routes.ts] (the HTTP handlers and the
    [DatabaseStorage] class) and of [shared/schema.ts] (the tables and the
    insert schemas), with the properties the specification states about
    them.

    The relational store, the JavaScript runtime and the validation
    library are not part of the repository; the parts of them the code
    relies on are modelled in the first half of the file, each with a note
    on what is taken from the platform's documented behaviour. *)

From Stdlib Require Import ZArith List String Ascii Bool Lia.
From Stdlib Require Import SpecFloat DecimalString.
From Stdlib Require Import Permutation Sorted.
Import ListNotations.

Local Open Scope string_scope.
Local Open Scope Z_scope.

Set Implicit Arguments.
Local Set Warnings "-register-all".

(** ** Outcomes of fallible calls *)

(** What a call can throw.  [ZodError] is the validation failure the
    handlers turn into a 400; everything else becomes a 500. *)
Inductive error : Type :=
| ZodError
| StoreError     (* the store rejected the statement (constraint, cast) *)
| TypeError      (* JavaScript [TypeError] *)
| RangeError.    (* JavaScript [RangeError] *)

Inductive result (A : Type) : Type :=
| Ok (a : A)
| Err (e : error).

Arguments Ok {A} a.
Arguments Err {A} e.

Definition bind {A B : Type} (r : result A) (k : A -> result B) : result B :=
  match r with
  | Ok a => k a
  | Err e => Err e
  end.

Notation "x <- r ;; k" := (bind r (fun x => k))
  (at level 61, r at next level, right associativity).

Definition is_ok {A : Type} (r : result A) : bool :=
  match r with Ok _ => true | Err _ => false end.

(** ** Small helpers on strings and options *)

Definition opt_eqb {A : Type} (eqb : A -> A -> bool) (x y : option A) : bool :=
  match x, y with
  | Some a, Some b => eqb a b
  | None, None => true
  | _, _ => false
  end.

(** JavaScript truthiness of an optional string: [undefined] and the empty
    string are falsy. *)
Definition truthy_string (s : option string) : bool :=
  match s with
  | None => false
  | Some s => negb (String.eqb s "")
  end.

(** ** The tables of [shared/schema.ts] *)

(** A row is held as the store keeps it.  Timestamps are in the store's
    resolution, microseconds since the epoch; a caller reads them as
    [Date]s, cut to the millisecond.  [date] columns hold a calendar day,
    numbered from 1970-01-01 (the driver reads and writes them as
    ['YYYY-MM-DD'] text, which denotes the same day). *)

Module Team.
Record t : Type := mk {
  id : string;
  name : string;
  description : option string;
  createdAt : option Z
}.
End Team.

Module Vendor.
Record t : Type := mk {
  id : string;
  name : string;
  website : option string;
  contactEmail : option string;
  createdAt : option Z
}.
End Vendor.

Module License.
Record t : Type := mk {
  id : string;
  softwareName : string;
  vendorId : string;
  teamId : string;
  licenseType : string;
  totalSeats : Z;
  usedSeats : option Z;
  cost : string;               (* decimal(10,2), read back as text *)
  billingFrequency : string;
  purchaseDate : Z;
  expiryDate : option Z;
  contactPerson : string;
  description : option string;
  status : option string;
  createdAt : option Z;
  updatedAt : option Z
}.
End License.

(** The store: one list of rows per table, in scan order.  A new row,
    and the new version of an updated row, is written after the rows the
    table has. *)
Record Store : Type := mkStore {
  teams : list Team.t;
  vendors : list Vendor.t;
  licenses : list License.t
}.

Definition emptyStore : Store := mkStore [] [] [].

(** ** [ORDER BY]: a stable insertion sort

    The store leaves the order of rows with equal keys open; the model
    keeps them in scan order. *)

Section OrderBy.
Variable A : Type.
Variable before : A -> A -> bool.   (* [before x y]: x may precede y *)

Fixpoint insert_row (x : A) (l : list A) : list A :=
  match l with
  | [] => [x]
  | y :: l' => if before x y then x :: y :: l' else y :: insert_row x l'
  end.

Fixpoint orderBy (l : list A) : list A :=
  match l with
  | [] => []
  | x :: l' => insert_row x (orderBy l')
  end.

Fixpoint sortedb (l : list A) : bool :=
  match l with
  | [] => true
  | x :: l' =>
      match l' with
      | [] => true
      | y :: _ => before x y && sortedb l'
      end
  end.
End OrderBy.

(** [desc(licenses.createdAt)]: newest first by the stored timestamp; a
    NULL timestamp sorts before every value, as the store does for a
    descending key. *)
Definition desc_createdAt (a b : License.t) : bool :=
  match License.createdAt a, License.createdAt b with
  | None, _ => true
  | Some _, None => false
  | Some x, Some y => y <=? x
  end.

(** ** [LIKE] patterns

    [%] matches any run of characters, [_] any single character, and a
    backslash makes the next character literal. *)

Inductive like_token : Type :=
| AnyRun
| AnyChar
| Lit (c : ascii).

Fixpoint like_tokens (p : string) : list like_token :=
  match p with
  | EmptyString => []
  | String c r =>
      if Ascii.eqb c "\"%char then
        match r with
        | EmptyString => [Lit c]
        | String d r' => Lit d :: like_tokens r'
        end
      else if Ascii.eqb c "%"%char then AnyRun :: like_tokens r
      else if Ascii.eqb c "_"%char then AnyChar :: like_tokens r
      else Lit c :: like_tokens r
  end.

Fixpoint like_match (ts : list like_token) (s : string) {struct ts} : bool :=
  match ts with
  | [] => match s with EmptyString => true | _ => false end
  | Lit c :: ts' =>
      match s with
      | String d s' => Ascii.eqb c d && like_match ts' s'
      | EmptyString => false
      end
  | AnyChar :: ts' =>
      match s with
      | String _ s' => like_match ts' s'
      | EmptyString => false
      end
  | AnyRun :: ts' =>
      (fix run (s : string) : bool :=
         like_match ts' s ||
         match s with
         | String _ s' => run s'
         | EmptyString => false
         end) s
  end.

(** [like(column, pattern)] *)
Definition like (value pattern : string) : bool :=
  like_match (like_tokens pattern) value.


(** ** The JavaScript runtime: scanning numbers in strings

    A character stands for one code unit below 256. *)

Definition code (c : ascii) : Z := Z.of_N (N_of_ascii c).

(** [StrWhiteSpaceChar], as far as it fits in one code unit below 256. *)
Definition isWhiteSpace (c : ascii) : bool :=
  let n := code c in
  ((9 <=? n) && (n <=? 13)) || (n =? 32) || (n =? 160).

Fixpoint trimStart (s : string) : string :=
  match s with
  | String c r => if isWhiteSpace c then trimStart r else s
  | EmptyString => s
  end.

Definition digitValue (c : ascii) : option Z :=
  let n := code c in
  if (48 <=? n) && (n <=? 57) then Some (n - 48)
  else if (97 <=? n) && (n <=? 122) then Some (n - 87)
  else if (65 <=? n) && (n <=? 90) then Some (n - 55)
  else None.

(** The longest run of digits of the radix at the head of [s]: its value
    continued from [acc], how many digits were read (added to [count]) and
    the rest of the string. *)
Fixpoint scanDigits (radix : Z) (s : string) (acc count : Z) : Z * Z * string :=
  match s with
  | String c r =>
      match digitValue c with
      | Some d =>
          if d <? radix then scanDigits radix r (acc * radix + d) (count + 1)
          else (acc, count, s)
      | None => (acc, count, s)
      end
  | EmptyString => (acc, count, s)
  end.

(** An optional sign at the head of [s]: whether it is a minus, and the
    rest. *)
Definition scanSign (s : string) : bool * string :=
  match s with
  | String c r =>
      if Ascii.eqb c "-"%char then (true, r)
      else if Ascii.eqb c "+"%char then (false, r)
      else (false, s)
  | EmptyString => (false, s)
  end.

(** [parseInt(string)] with no radix argument.  [None] is NaN.  The result
    is the exact integer: JavaScript rounds it to the nearest double above
    2^53 and keeps the sign of a zero, neither of which the callers can
    observe (a zero of either sign is falsy; a count of days or seats that
    large is rejected downstream either way). *)
Definition parseInt (input : string) : option Z :=
  let '(negative, str) := scanSign (trimStart input) in
  let '(R, str) :=
    match str with
    | String c (String x r) =>
        if Ascii.eqb c "0"%char && (Ascii.eqb x "x"%char || Ascii.eqb x "X"%char)
        then (16, r) else (10, str)
    | _ => (10, str)
    end in
  let '(mathInt, count, _) := scanDigits R str 0 0 in
  if count =? 0 then None
  else Some (if negative then - mathInt else mathInt).

(** [parseInt(x) || fallback]: NaN and zero are falsy. *)
Definition orDefault (n : option Z) (fallback : Z) : Z :=
  match n with
  | Some z => if z =? 0 then fallback else z
  | None => fallback
  end.

(** ** The JavaScript runtime: Number values

    A Number is an IEEE 754 binary64 value, taken from the specification
    of floating-point arithmetic in the standard library. *)

Definition number : Type := spec_float.

Definition prec : Z := 53.
Definition emax : Z := 1024.

Definition nan : number := S754_nan.

(** The Number for an integer (exact below 2^53, rounded to nearest even
    above). *)
Definition ofZ (z : Z) : number := binary_normalize prec emax z 0 false.

Definition jsAdd (x y : number) : number := SFadd prec emax x y.
Definition jsDiv (x y : number) : number := SFdiv prec emax x y.
Definition jsMul (x y : number) : number := SFmul prec emax x y.

(** The Number value for the decimal [± m × 10^e10] with [0 <= m]:
    correctly rounded, which is what engines compute for literals of any
    length. *)
Definition ofDecimal (negative : bool) (m e10 : Z) : number :=
  match m with
  | Zpos p =>
      if 0 <=? e10
      then binary_normalize prec emax (cond_Zopp negative (m * 10 ^ e10)) 0 false
      else jsDiv (S754_finite negative p 0)
                 (S754_finite false (Z.to_pos (10 ^ (- e10))) 0)
  | _ => S754_zero negative
  end.

(** [ExponentPart]: [e] or [E], an optional sign and at least one digit;
    anything else is no exponent and leaves the literal as it is. *)
Definition scanExponent (s : string) : Z :=
  match s with
  | String c r =>
      if Ascii.eqb c "e"%char || Ascii.eqb c "E"%char then
        let '(negative, r') := scanSign r in
        let '(v, count, _) := scanDigits 10 r' 0 0 in
        if count =? 0 then 0 else if negative then - v else v
      else 0
  | EmptyString => 0
  end.

(** [parseFloat(string)]: the longest prefix, after leading white space,
    that is a [StrDecimalLiteral]; NaN when there is none. *)
Definition parseFloat (input : string) : number :=
  let '(negative, str) := scanSign (trimStart input) in
  if String.prefix "Infinity" str then S754_infinity negative
  else
    let '(ip, ni, r1) := scanDigits 10 str 0 0 in
    let '(m, nf, r2) :=
      match r1 with
      | String c r => if Ascii.eqb c "."%char then scanDigits 10 r ip 0 else (ip, 0, r1)
      | EmptyString => (ip, 0, r1)
      end in
    if ni + nf =? 0 then nan
    else ofDecimal negative m (scanExponent r2 - nf).

(** [Math.round(x)]: the integer nearest to [x], a tie going up; the sign
    of [x] is kept when the result is zero. *)
Definition Math_round (x : number) : number :=
  match x with
  | S754_finite s m e =>
      if 0 <=? e then x
      else
        let r := (2 * cond_Zopp s (Zpos m) + 2 ^ (- e)) / 2 ^ (- e + 1) in
        if r =? 0 then S754_zero s else ofZ r
  | _ => x
  end.

(** ** The JavaScript runtime: [Number.prototype.toString]

    The digits are the shortest decimal that reads back as the same
    Number. *)

Definition digitsOf (n : Z) : string :=
  DecimalString.NilZero.string_of_uint (N.to_uint (Z.to_N n)).

Fixpoint zeros (n : nat) : string :=
  match n with
  | O => ""
  | S n' => String "0"%char (zeros n')
  end.

Fixpoint dropChars (n : nat) (s : string) : string :=
  match n, s with
  | S n', String _ r => dropChars n' r
  | _, _ => s
  end.

(** A positive finite Number as a fraction. *)
Definition fraction (m : positive) (e : Z) : Z * Z :=
  if 0 <=? e then (Zpos m * 2 ^ e, 1) else (Zpos m, 2 ^ (- e)).

(** The least [j] from [j0] on with [den <= num * 10^(j - j0)]. *)
Fixpoint scaleUp (fuel : nat) (num den j : Z) : Z :=
  match fuel with
  | O => j
  | S fuel' => if den <=? num then j else scaleUp fuel' (num * 10) den (j + 1)
  end.

(** The [n] with [10^(n-1) <= num/den < 10^n]. *)
Definition decimalExponent (num den : Z) : Z :=
  if den <=? num then Z.of_nat (String.length (digitsOf (num / den)))
  else 1 - scaleUp 400 num den 0.

(** A candidate [(s, n)] for [k] digits denotes [s × 10^(n-k)]. *)
Definition candidateFraction (k : Z) (c : Z * Z) : Z * Z :=
  let '(s, n) := c in
  if 0 <=? n - k then (s * 10 ^ (n - k), 1) else (s, 10 ^ (k - n)).

(** Twice the distance is not needed: distances are compared by cross
    multiplication. *)
Definition closer (num den k : Z) (a b : Z * Z) : bool :=
  let '(an, ad) := candidateFraction k a in
  let '(bn, bd) := candidateFraction k b in
  let da := Z.abs (an * den - num * ad) * bd in
  let db := Z.abs (bn * den - num * bd) * ad in
  (da <? db) || ((da =? db) && Z.even (fst a)).

Definition readsBack (x : number) (k : Z) (c : Z * Z) : bool :=
  let '(s, n) := c in
  (10 ^ (k - 1) <=? s) && (s <? 10 ^ k) &&
  match SFcompare (ofDecimal false s (n - k)) x with
  | Some Eq => true
  | _ => false
  end.

Definition pickClosest (num den k : Z) (cs : list (Z * Z)) : option (Z * Z) :=
  fold_left
    (fun best c =>
       match best with
       | None => Some c
       | Some b => if closer num den k c b then Some c else Some b
       end)
    cs None.

(** The triple [(s, n, k)] of [Number::toString]: [k] as small as
    possible, [s] of [k] digits, [s × 10^(n-k)] reading back as [x] and,
    among those, nearest to [x]. *)
Fixpoint shortest (fuel : nat) (x : number) (num den n0 k : Z) : Z * Z * Z :=
  match fuel with
  | O => (0, 0, 0)
  | S fuel' =>
      let lo :=
        if 0 <=? k - n0 then (num * 10 ^ (k - n0)) / den
        else num / (den * 10 ^ (n0 - k)) in
      let cs := filter (readsBack x k)
                  ([(lo, n0); (lo + 1, n0)] ++ (if k =? 1 then [(1, n0 + 1)] else [])) in
      match pickClosest num den k cs with
      | Some (s, n) => (s, n, k)
      | None => shortest fuel' x num den n0 (k + 1)
      end
  end.

Definition formatDigits (s n k : Z) : string :=
  let D := digitsOf s in
  if (k <=? n) && (n <=? 21) then D ++ zeros (Z.to_nat (n - k))
  else if (0 <? n) && (n <=? 21) then
    String.substring 0 (Z.to_nat n) D ++ "." ++ dropChars (Z.to_nat n) D
  else if (-6 <? n) && (n <=? 0) then "0." ++ zeros (Z.to_nat (- n)) ++ D
  else
    let e := n - 1 in
    let mantissa :=
      if k =? 1 then D
      else String.substring 0 1 D ++ "." ++ dropChars 1 D in
    mantissa ++ "e" ++ (if e <? 0 then "-" else "+") ++ digitsOf (Z.abs e).

Definition Number_toString (x : number) : string :=
  match x with
  | S754_nan => "NaN"
  | S754_zero _ => "0"
  | S754_infinity s => if s then "-Infinity" else "Infinity"
  | S754_finite sg m e =>
      let '(num, den) := fraction m e in
      let '(s, n, k) :=
        shortest 17 (S754_finite false m e) num den (decimalExponent num den) 1 in
      (if sg then "-" else "") ++ formatDigits s n k
  end.

(** ** The JavaScript runtime: strings *)

(** [String.prototype.toLowerCase] on code units below 256: the letters
    A-Z and the Latin-1 capitals move down by 32, everything else stays. *)
Definition lowerChar (c : ascii) : ascii :=
  let n := code c in
  if ((65 <=? n) && (n <=? 90)) ||
     ((192 <=? n) && (n <=? 214)) ||
     ((216 <=? n) && (n <=? 222))
  then ascii_of_N (Z.to_N (n + 32))
  else c.

Fixpoint toLowerCase (s : string) : string :=
  match s with
  | String c r => String (lowerChar c) (toLowerCase r)
  | EmptyString => EmptyString
  end.

(** ** The JavaScript runtime: objects used as maps

    An object literal [{}] keeps its own properties in creation order and
    inherits the properties of [Object.prototype]. *)

Definition Object_prototype_keys : list string :=
  [ "constructor"; "hasOwnProperty"; "isPrototypeOf"; "propertyIsEnumerable";
    "toLocaleString"; "toString"; "valueOf"; "__proto__";
    "__defineGetter__"; "__defineSetter__"; "__lookupGetter__"; "__lookupSetter__" ].

(** The value of [k] as an array index: [k] is ["0"] or a run of digits
    with no leading zero, below 2^32 - 1. *)
Definition arrayIndex (k : string) : option Z :=
  match k with
  | EmptyString => None
  | String c r =>
      let '(v, count, rest) := scanDigits 10 k 0 0 in
      if String.eqb rest "" &&
         (negb (Ascii.eqb c "0"%char) || String.eqb r "") &&
         (v <? 2 ^ 32 - 1)
      then Some v else None
  end.

Section JsObject.
Variable V : Type.

Definition js_object : Type := list (string * V).

Definition own (o : js_object) (k : string) : option V :=
  match find (fun kv => String.eqb (fst kv) k) o with
  | Some kv => Some (snd kv)
  | None => None
  end.

(** What [o[k]] evaluates to. *)
Inductive property : Type :=
| OwnValue (v : V)
| Inherited        (* a member of Object.prototype: truthy, not a V *)
| Undefined.

Definition get (o : js_object) (k : string) : property :=
  match own o k with
  | Some v => OwnValue v
  | None =>
      if existsb (String.eqb k) Object_prototype_keys then Inherited
      else Undefined
  end.

(** [o[k] = v] for a key that is own or not inherited. *)
Fixpoint set (o : js_object) (k : string) (v : V) : js_object :=
  match o with
  | [] => [(k, v)]
  | kv :: o' =>
      if String.eqb (fst kv) k then (k, v) :: o'
      else kv :: set o' k v
  end.

Definition isIndexKey (kv : string * V) : bool :=
  match arrayIndex (fst kv) with Some _ => true | None => false end.

Definition indexBefore (a b : string * V) : bool :=
  match arrayIndex (fst a), arrayIndex (fst b) with
  | Some i, Some j => i <=? j
  | _, _ => true
  end.

(** [Object.entries(o)]: array-index keys in ascending numeric order,
    then the other keys in creation order. *)
Definition Object_entries (o : js_object) : list (string * V) :=
  orderBy indexBefore (filter isIndexKey o) ++
  filter (fun kv => negb (isIndexKey kv)) o.
End JsObject.

Arguments OwnValue {V} v.
Arguments Inherited {V}.
Arguments Undefined {V}.

(** ** The JavaScript runtime: dates

    A [Date] holds a time value in milliseconds; one further than
    8.64e15 from the epoch is invalid. *)

Definition msPerDay : Z := 86400000.
Definition maxTime : Z := 8640000000000000.

Definition TimeClip (t : Z) : option Z :=
  if Z.abs t <=? maxTime then Some t else None.

Section TimeZone.
(** [LocalTZA(t, isUTC)]: the offset of the server's zone from UTC, in
    milliseconds, at the UTC instant [t] ([isUTC = true]) or at the local
    time [t] ([isUTC = false]).  It is a setting of the machine. *)
Variable LocalTZA : Z -> bool -> Z.

Definition LocalTime (t : Z) : Z := t + LocalTZA t true.

Definition UTC (t : Z) : Z := t - LocalTZA t false.

(** [d.setDate(d.getDate() + days)] for a whole number of days: the day
    of the local calendar moves by [days] and the local clock time is
    kept ([MakeDate(MakeDay(year, month, date + days), TimeWithinDay)] is
    the local time plus [days] whole days); the new instant is the one
    the zone gives that local time.  [None] is an invalid [Date]. *)
Definition addDays (t days : Z) : option Z :=
  TimeClip (UTC (LocalTime t + days * msPerDay)).
End TimeZone.

(** The day [d.toISOString().split('T')[0]] names: the UTC calendar day of
    the instant. *)
Definition utcDay (t : Z) : Z := t / msPerDay.

(** The number of the calendar day [y-m-d] (proleptic Gregorian). *)
Definition isoDay (y m d : Z) : Z :=
  let y' := if m <=? 2 then y - 1 else y in
  let era := y' / 400 in
  let yoe := y' - era * 400 in
  let doy := (153 * (if 2 <? m then m - 3 else m + 9) + 2) / 5 + d - 1 in
  let doe := yoe * 365 + yoe / 4 - yoe / 100 + doy in
  era * 146097 + doe - 719468.

(** ** The query string of a request

    The parser yields a string, an array or a nested object for a
    parameter; [parseInt] first turns its argument into a string. *)

Inductive qs_value : Type :=
| QString (s : string)
| QArray (l : list qs_value)
| QObject (l : list (string * qs_value)).

Fixpoint ToString (q : qs_value) : string :=
  match q with
  | QString s => s
  | QArray l =>
      (fix join (l : list qs_value) : string :=
         match l with
         | [] => ""
         | [x] => ToString x
         | x :: r => ToString x ++ "," ++ join r
         end) l
  | QObject _ => "[object Object]"
  end.

(** [ToString] of a parameter that may be absent ([undefined]). *)
Definition paramString (q : option qs_value) : string :=
  match q with
  | Some v => ToString v
  | None => "undefined"
  end.

(** ** The store's column types

    What the store does with the text a client sends for a
    [decimal(10,2)] or an [integer] column. *)

(** A [decimal(10,2)] value: not-a-number, or a count of hundredths below
    10^10 in absolute value. *)
Inductive numeric : Type :=
| NumNaN
| Num (cents : Z).

(** White space as the store's readers skip it. *)
Definition isspace (c : ascii) : bool :=
  let n := code c in ((9 <=? n) && (n <=? 13)) || (n =? 32).

Fixpoint skipSpaces (s : string) : string :=
  match s with
  | String c r => if isspace c then skipSpaces r else s
  | EmptyString => s
  end.

Definition digitOf (radix : Z) (c : ascii) : option Z :=
  match digitValue c with
  | Some d => if d <? radix then Some d else None
  | None => None
  end.

Definition underscoreFirst (s : string) : bool :=
  match s with
  | String c _ => Ascii.eqb c "_"%char
  | EmptyString => false
  end.

(** The digits of a numeric literal from the head of [s] on: its value
    continued from [acc], how many digits were read (added to [count])
    and the rest.  An underscore may separate digits; one that no digit
    follows is a syntax error ([None]). *)
Fixpoint numericDigits (radix : Z) (s : string) (acc count : Z)
    : option (Z * Z * string) :=
  match s with
  | String c r =>
      if Ascii.eqb c "_"%char then
        match r with
        | String d r' =>
            match digitOf radix d with
            | Some v => numericDigits radix r' (acc * radix + v) (count + 1)
            | None => None
            end
        | EmptyString => None
        end
      else
        match digitOf radix c with
        | Some v => numericDigits radix r (acc * radix + v) (count + 1)
        | None => Some (acc, count, s)
        end
  | EmptyString => Some (acc, count, s)
  end.

(** The exponent of a numeric literal and what follows it; [None] when an
    [e] is not followed by digits or the exponent is beyond 2^30. *)
Definition numericExponent (s : string) : option (Z * string) :=
  match s with
  | String c r =>
      if Ascii.eqb c "e"%char || Ascii.eqb c "E"%char then
        let '(negative, r') := scanSign r in
        if underscoreFirst r' then None
        else
          match numericDigits 10 r' 0 0 with
          | Some (v, count, rest) =>
              if (count =? 0) || (1073741823 <? v) then None
              else Some (if negative then - v else v, rest)
          | None => None
          end
      else Some (0, s)
  | EmptyString => Some (0, s)
  end.

(** [m × 10^e10] in hundredths, a half rounded away from zero ([0 <= m]). *)
Definition roundToCents (m e10 : Z) : Z :=
  if 0 <=? e10 + 2 then m * 10 ^ (e10 + 2)
  else (2 * m + 10 ^ (- (e10 + 2))) / (2 * 10 ^ (- (e10 + 2))).

(** The prefix of an integer literal in another radix, [0x], [0o] or
    [0b], and what follows it. *)
Definition radixPrefix (s : string) : option (Z * string) :=
  match s with
  | String c (String x r) =>
      if Ascii.eqb c "0"%char then
        if Ascii.eqb x "x"%char || Ascii.eqb x "X"%char then Some (16, r)
        else if Ascii.eqb x "o"%char || Ascii.eqb x "O"%char then Some (8, r)
        else if Ascii.eqb x "b"%char || Ascii.eqb x "B"%char then Some (2, r)
        else None
      else None
  | _ => None
  end.

(** The fraction of a decimal literal, after integer digits of value
    [ip]: the value with the fraction's digits appended, their number
    and the rest. *)
Definition numericFraction (ip : Z) (r1 : string) : option (Z * Z * string) :=
  match r1 with
  | String c r =>
      if Ascii.eqb c "."%char then
        if underscoreFirst r then None else numericDigits 10 r ip 0
      else Some (ip, 0, r1)
  | EmptyString => Some (ip, 0, r1)
  end.

(** The absolute value of an unsigned numeric literal, in hundredths:
    an integer in radix 16, 8 or 2 after its prefix, or a decimal
    literal with an optional exponent, rounded to two fractional digits;
    only white space may follow.  [None] is a syntax error. *)
Definition numericMagnitude (s : string) : option Z :=
  match radixPrefix s with
  | Some (radix, digits) =>
      match numericDigits radix digits 0 0 with
      | Some (v, count, rest) =>
          if (count =? 0) || negb (String.eqb (skipSpaces rest) "") then None
          else Some (v * 100)
      | None => None
      end
  | None =>
      if underscoreFirst s then None
      else
        match numericDigits 10 s 0 0 with
        | Some (ip, ni, r1) =>
            match numericFraction ip r1 with
            | Some (m, nf, r2) =>
                if ni + nf =? 0 then None
                else
                  match numericExponent r2 with
                  | Some (e, rest) =>
                      if negb (String.eqb (skipSpaces rest) "") then None
                      else Some (roundToCents m (e - nf))
                  | None => None
                  end
            | None => None
            end
        | None => None
        end
  end.

(** [NaN] in any case, followed by white space only. *)
Definition isNaNText (s : string) : bool :=
  match s with
  | String a (String b (String c rest)) =>
      (Ascii.eqb a "n"%char || Ascii.eqb a "N"%char) &&
      (Ascii.eqb b "a"%char || Ascii.eqb b "A"%char) &&
      (Ascii.eqb c "n"%char || Ascii.eqb c "N"%char) &&
      String.eqb (skipSpaces rest) ""
  | _ => false
  end.

(** Reading text into a [decimal(10,2)] column, as PostgreSQL 16 and
    later do: [NaN], or an optional sign and a numeric literal; the value
    is rounded to two fractional digits and must stay below 10^8.  (An
    infinity is read but does not fit the column; it is rejected like any
    other text here.) *)
Definition numeric_in (text : string) : result numeric :=
  let s := skipSpaces text in
  if isNaNText s then Ok NumNaN
  else
    let '(negative, s1) := scanSign s in
    match numericMagnitude s1 with
    | Some cents =>
        if 10 ^ 10 <=? cents then Err StoreError
        else Ok (Num (if negative then - cents else cents))
    | None => Err StoreError
    end.

Definition twoDigits (n : Z) : string :=
  (if n <? 10 then "0" else "") ++ digitsOf n.

(** The text the store returns for a [decimal(10,2)] value. *)
Definition numeric_out (n : numeric) : string :=
  match n with
  | NumNaN => "NaN"
  | Num cents =>
      (if cents <? 0 then "-" else "") ++
      digitsOf (Z.abs cents / 100) ++ "." ++ twoDigits (Z.abs cents mod 100)
  end.

Definition int4_range (z : Z) : bool := (- 2 ^ 31 <=? z) && (z <? 2 ^ 31).

(** A Number bound to an [integer] column: NaN and values outside 32 bits
    are rejected. *)
Definition int4_in (n : option Z) : result Z :=
  match n with
  | Some z => if int4_range z then Ok z else Err StoreError
  | None => Err StoreError
  end.

(** A calendar day sent as the text [toISOString] writes for it.  The
    text has a four-digit year for the years 0000 to 9999 and a sign and
    six digits otherwise; the store reads a date from the first form, for
    the years from 0001 on, and rejects the rest. *)
Definition isoDate_param (day : Z) : result Z :=
  if (isoDay 1 1 1 <=? day) && (day <=? isoDay 9999 12 31) then Ok day
  else Err StoreError.

(** ** Request bodies and the insert schema *)

Inductive json : Type :=
| JNull
| JBool (b : bool)
| JNumber (x : number)
| JString (s : string)
| JArray (l : list json)
| JObject (l : list (string * json)).

(** [body.key]; [None] is [undefined]. *)
Definition member (key : string) (body : json) : option json :=
  match body with
  | JObject fields =>
      match find (fun kv => String.eqb (fst kv) key) fields with
      | Some kv => Some (snd kv)
      | None => None
      end
  | _ => None
  end.

(** [z.string()] *)
Definition zString (v : option json) : result string :=
  match v with
  | Some (JString s) => Ok s
  | _ => Err ZodError
  end.

(** [z.string()] for a nullable column without a default: the key may be
    missing ([None]) or null ([Some None]). *)
Definition zOptionalString (v : option json) : result (option (option string)) :=
  match v with
  | None => Ok None
  | Some JNull => Ok (Some None)
  | Some (JString s) => Ok (Some (Some s))
  | _ => Err ZodError
  end.

(** [InsertLicense], the output type of [insertLicenseSchema]. *)
Module InsertLicense.
Record t : Type := mk {
  softwareName : string;
  vendorId : string;
  teamId : string;
  licenseType : string;
  totalSeats : option Z;       (* a Number: [parseInt] of the text *)
  cost : number;               (* a Number: [parseFloat] of the text *)
  billingFrequency : string;
  purchaseDate : string;
  expiryDate : option (option string);
  contactPerson : string;
  description : option (option string)
}.

(** [{ ...license, vendorId: id }] *)
Definition withVendorId (license : t) (id : string) : t :=
  mk (softwareName license) id (teamId license) (licenseType license)
     (totalSeats license) (cost license) (billingFrequency license)
     (purchaseDate license) (expiryDate license) (contactPerson license)
     (description license).
End InsertLicense.

(** [insertLicenseSchema.parse(body)]: the insert shape of the licenses
    table without [id], [createdAt], [updatedAt], [status] and
    [usedSeats], with [cost] and [totalSeats] read from strings.  Keys the
    schema does not name are dropped. *)
Definition insertLicenseSchema (body : json) : result InsertLicense.t :=
  match body with
  | JObject _ =>
      softwareName <- zString (member "softwareName" body) ;;
      vendorId <- zString (member "vendorId" body) ;;
      teamId <- zString (member "teamId" body) ;;
      licenseType <- zString (member "licenseType" body) ;;
      totalSeats <- zString (member "totalSeats" body) ;;
      cost <- zString (member "cost" body) ;;
      billingFrequency <- zString (member "billingFrequency" body) ;;
      purchaseDate <- zString (member "purchaseDate" body) ;;
      expiryDate <- zOptionalString (member "expiryDate" body) ;;
      contactPerson <- zString (member "contactPerson" body) ;;
      description <- zOptionalString (member "description" body) ;;
      Ok (InsertLicense.mk softwareName vendorId teamId licenseType
            (parseInt totalSeats) (parseFloat cost) billingFrequency
            purchaseDate expiryDate contactPerson description)
  | _ => Err ZodError
  end.

(** [InsertVendor], the output type of [insertVendorSchema]. *)
Module InsertVendor.
Record t : Type := mk {
  name : string;
  website : option string;
  contactEmail : option string
}.
End InsertVendor.
(** ** [DatabaseStorage]: reading licenses *)

(** [getAllLicenses]: every row, newest first. *)
Definition getAllLicenses (db : Store) : list License.t :=
  orderBy desc_createdAt (licenses db).

(** [getLicense]: the first row with that id, or [undefined]. *)
Definition getLicense (id : string) (db : Store) : option License.t :=
  find (fun l => String.eqb (License.id l) id) (licenses db).

(** The [filters] argument of [searchLicenses]; [None] is a field left
    out. *)
Module Filters.
Record t : Type := mk {
  search : option string;
  teamId : option string;
  vendorId : option string;
  status : option string
}.
End Filters.

Definition noFilters : Filters.t := Filters.mk None None None None.

(** The [conditions] array of [searchLicenses]: one row predicate per
    truthy filter, in the order they are pushed. *)
Definition conditions (filters : Filters.t) : list (License.t -> bool) :=
  (if truthy_string (Filters.search filters)
   then [fun l => like (License.softwareName l)
                       ("%" ++ match Filters.search filters with Some s => s | None => "" end ++ "%")]
   else []) ++
  (if truthy_string (Filters.teamId filters)
   then [fun l => opt_eqb String.eqb (Some (License.teamId l)) (Filters.teamId filters)]
   else []) ++
  (if truthy_string (Filters.vendorId filters)
   then [fun l => opt_eqb String.eqb (Some (License.vendorId l)) (Filters.vendorId filters)]
   else []) ++
  (if truthy_string (Filters.status filters)
   then [fun l => opt_eqb String.eqb (License.status l) (Filters.status filters)]
   else []).

(** [and(...conditions)] *)
Definition and_all (A : Type) (cs : list (A -> bool)) (x : A) : bool :=
  forallb (fun c => c x) cs.

(** [searchLicenses]: [WHERE] the conjunction of the conditions (no [WHERE]
    at all when there is none), newest first. *)
Definition searchLicenses (filters : Filters.t) (db : Store) : list License.t :=
  let cs := conditions filters in
  let rows :=
    match cs with
    | [] => licenses db
    | _ => filter (and_all cs) (licenses db)
    end in
  orderBy desc_createdAt rows.

(** [getLicensesByTeam] *)
Definition getLicensesByTeam (teamId : string) (db : Store) : list License.t :=
  filter (fun l => String.eqb (License.teamId l) teamId) (licenses db).

(** Equality of rows. *)
Definition option_eq_dec (A : Type) (dec : forall x y : A, {x = y} + {x <> y})
    (x y : option A) : {x = y} + {x <> y}.
Proof. decide equality. Defined.

Definition License_eq_dec (a b : License.t) : {a = b} + {a <> b}.
Proof.
  decide equality;
    first [ apply string_dec | apply Z.eq_dec
          | apply option_eq_dec; first [ apply string_dec | apply Z.eq_dec ] ].
Defined.

Definition License_eqb (a b : License.t) : bool :=
  if License_eq_dec a b then true else false.

(** ** The store's constraints

    Primary keys, the unique names, the two references of a license and
    the range of its integer columns.  A statement whose outcome would
    break one of them is rejected and changes nothing. *)

Fixpoint uniqueb (l : list string) : bool :=
  match l with
  | [] => true
  | x :: r => negb (existsb (String.eqb x) r) && uniqueb r
  end.

Definition license_ok (db : Store) (l : License.t) : bool :=
  existsb (String.eqb (License.vendorId l)) (map Vendor.id (vendors db)) &&
  existsb (String.eqb (License.teamId l)) (map Team.id (teams db)) &&
  int4_range (License.totalSeats l) &&
  match License.usedSeats l with Some u => int4_range u | None => true end.

Definition consistent (db : Store) : bool :=
  uniqueb (map Team.id (teams db)) &&
  uniqueb (map Team.name (teams db)) &&
  uniqueb (map Vendor.id (vendors db)) &&
  uniqueb (map Vendor.name (vendors db)) &&
  uniqueb (map License.id (licenses db)) &&
  forallb (license_ok db) (licenses db).

(** The outcome of a statement that would leave the store as [db]. *)
Definition commit (A : Type) (a : A) (db : Store) : result (A * Store) :=
  if consistent db then Ok (a, db) else Err StoreError.

(** ** [DatabaseStorage]: vendors

    A generated id and the store's clock are inputs of the calls that
    insert. *)

(** [createVendor] *)
Definition createVendor (uuid : string) (now : Z) (vendor : InsertVendor.t)
    (db : Store) : result (Vendor.t * Store) :=
  let newVendor :=
    Vendor.mk uuid (InsertVendor.name vendor) (InsertVendor.website vendor)
              (InsertVendor.contactEmail vendor) (Some now) in
  commit newVendor (mkStore (teams db) (vendors db ++ [newVendor])%list (licenses db)).

(** The [SELECT] of [getOrCreateVendor]. *)
Definition vendorsNamed (name : string) (db : Store) : list Vendor.t :=
  filter (fun v => String.eqb (Vendor.name v) name) (vendors db).

(** [getOrCreateVendor] *)
Definition getOrCreateVendor (uuid : string) (now : Z) (name : string)
    (db : Store) : result (Vendor.t * Store) :=
  match vendorsNamed name db with
  | existingVendor :: _ => Ok (existingVendor, db)
  | [] => createVendor uuid now (InsertVendor.mk name None None) db
  end.

(** The same call, one statement at a time: it awaits the [SELECT], then
    the [INSERT], and other requests may run in between. *)
Inductive vendor_call : Type :=
| Selecting (name : string)
| Inserting (name : string)
| Returned (r : result Vendor.t).

Definition step_call (uuid : string) (now : Z) (c : vendor_call) (db : Store)
    : vendor_call * Store :=
  match c with
  | Selecting name =>
      match vendorsNamed name db with
      | existingVendor :: _ => (Returned (Ok existingVendor), db)
      | [] => (Inserting name, db)
      end
  | Inserting name =>
      match createVendor uuid now (InsertVendor.mk name None None) db with
      | Ok (v, db') => (Returned (Ok v), db')
      | Err e => (Returned (Err e), db)
      end
  | Returned _ => (c, db)
  end.

(** Two calls in flight; the schedule says whose statement runs next
    ([true]: the first call's). *)
Record two_calls : Type := mkCalls {
  first : vendor_call;
  second : vendor_call;
  store : Store
}.

Fixpoint interleave (uuid1 uuid2 : string) (now : Z) (schedule : list bool)
    (st : two_calls) : two_calls :=
  match schedule with
  | [] => st
  | true :: rest =>
      let '(c, db) := step_call uuid1 now (first st) (store st) in
      interleave uuid1 uuid2 now rest (mkCalls c (second st) db)
  | false :: rest =>
      let '(c, db) := step_call uuid2 now (second st) (store st) in
      interleave uuid1 uuid2 now rest (mkCalls (first st) c db)
  end.

(** ** [DatabaseStorage]: writing licenses *)

Section CreateLicense.
(** How the store reads the text of a date; [None] when it rejects it. *)
Variable date_in : string -> option Z.

Definition date_cast (text : string) : result Z :=
  match date_in text with
  | Some d => Ok d
  | None => Err StoreError
  end.

Definition optional_date_cast (text : option (option string))
    : result (option Z) :=
  match text with
  | Some (Some s) => d <- date_cast s ;; Ok (Some d)
  | _ => Ok None
  end.

(** [createLicense]: the values of the insert are the parsed payload
    with [cost] turned back into text; the columns it does not name
    take their defaults. *)
Definition createLicense (uuid : string) (now : Z) (license : InsertLicense.t)
    (db : Store) : result (License.t * Store) :=
  cost <- numeric_in (Number_toString (InsertLicense.cost license)) ;;
  totalSeats <- int4_in (InsertLicense.totalSeats license) ;;
  purchaseDate <- date_cast (InsertLicense.purchaseDate license) ;;
  expiryDate <- optional_date_cast (InsertLicense.expiryDate license) ;;
  let newLicense :=
    License.mk uuid
      (InsertLicense.softwareName license)
      (InsertLicense.vendorId license)
      (InsertLicense.teamId license)
      (InsertLicense.licenseType license)
      totalSeats
      (Some 0)
      (numeric_out cost)
      (InsertLicense.billingFrequency license)
      purchaseDate
      expiryDate
      (InsertLicense.contactPerson license)
      (match InsertLicense.description license with
       | Some d => d
       | None => None
       end)
      (Some "active")
      (Some now)
      (Some now) in
  commit newLicense (mkStore (teams db) (vendors db) (licenses db ++ [newLicense])%list).
End CreateLicense.

(** [Partial<License>]: a field is [None] when the caller left it out; the
    timestamps are [Date]s, in milliseconds. *)
Module Patch.
Record t : Type := mk {
  id : option string;
  softwareName : option string;
  vendorId : option string;
  teamId : option string;
  licenseType : option string;
  totalSeats : option Z;
  usedSeats : option (option Z);
  cost : option string;
  billingFrequency : option string;
  purchaseDate : option Z;
  expiryDate : option (option Z);
  contactPerson : option string;
  description : option (option string);
  status : option (option string);
  createdAt : option (option Z);
  updatedAt : option (option Z)
}.

Definition empty : t :=
  mk None None None None None None None None None None None None None None
     None None.
End Patch.

Definition supplied (A : Type) (field : option A) (old : A) : A :=
  match field with
  | Some v => v
  | None => old
  end.

(** The timestamp the store keeps for a [Date]: the driver sends the
    instant to the millisecond. *)
Definition toTimestamp (ms : Z) : Z := 1000 * ms.

Definition dateField (field : option (option Z)) : option (option Z) :=
  match field with
  | Some (Some ms) => Some (Some (toTimestamp ms))
  | Some None => Some None
  | None => None
  end.

(** [SET { ...license, updatedAt: new Date() }] on one row; [cost] is the
    text the store keeps for the supplied cost, if any, and [now] the
    time [new Date()] reads. *)
Definition assign (license : Patch.t) (cost : option string) (now : Z)
    (row : License.t) : License.t :=
  License.mk
    (supplied (Patch.id license) (License.id row))
    (supplied (Patch.softwareName license) (License.softwareName row))
    (supplied (Patch.vendorId license) (License.vendorId row))
    (supplied (Patch.teamId license) (License.teamId row))
    (supplied (Patch.licenseType license) (License.licenseType row))
    (supplied (Patch.totalSeats license) (License.totalSeats row))
    (supplied (Patch.usedSeats license) (License.usedSeats row))
    (supplied cost (License.cost row))
    (supplied (Patch.billingFrequency license) (License.billingFrequency row))
    (supplied (Patch.purchaseDate license) (License.purchaseDate row))
    (supplied (Patch.expiryDate license) (License.expiryDate row))
    (supplied (Patch.contactPerson license) (License.contactPerson row))
    (supplied (Patch.description license) (License.description row))
    (supplied (Patch.status license) (License.status row))
    (supplied (dateField (Patch.createdAt license)) (License.createdAt row))
    (Some (toTimestamp now)).

(** The supplied cost as the store keeps it; the statement fails when the
    store cannot read it. *)
Definition storedCost (license : Patch.t) : result (option string) :=
  match Patch.cost license with
  | Some text => n <- numeric_in text ;; Ok (Some (numeric_out n))
  | None => Ok None
  end.

(** A supplied value for an [integer] column has to fit 32 bits. *)
Definition int4_param (n : option Z) : result unit :=
  match n with
  | Some z => if int4_range z then Ok tt else Err StoreError
  | None => Ok tt
  end.

(** The values of the statement as the store reads them when it receives
    it, before it looks for rows: the cost as text, the seat counts as
    32-bit integers.  The result is the cost. *)
Definition bindPatch (license : Patch.t) : result (option string) :=
  cost <- storedCost license ;;
  _ <- int4_param (Patch.totalSeats license) ;;
  _ <- int4_param (match Patch.usedSeats license with
                   | Some (Some u) => Some u
                   | _ => None
                   end) ;;
  Ok cost.

(** [updateLicense]: the statement updates the rows with that id and
    returns them; the method returns the first one, which is [undefined]
    when there is none. *)
Definition updateLicense (now : Z) (id : string) (license : Patch.t)
    (db : Store) : result (option License.t * Store) :=
  cost <- bindPatch license ;;
  let hit := fun row => String.eqb (License.id row) id in
  let returning := map (assign license cost now) (filter hit (licenses db)) in
  let rows :=
    (filter (fun row => negb (hit row)) (licenses db) ++ returning)%list in
  match returning with
  | [] => Ok (None, db)
  | updatedLicense :: _ =>
      commit (Some updatedLicense) (mkStore (teams db) (vendors db) rows)
  end.

(** [deleteLicense] *)
Definition deleteLicense (id : string) (db : Store) : Store :=
  mkStore (teams db) (vendors db)
          (filter (fun row => negb (String.eqb (License.id row) id)) (licenses db)).

(** ** [DatabaseStorage]: analytics *)

(** A comparison of a nullable date column with a day: NULL satisfies
    none. *)
Definition date_le (d : option Z) (day : Z) : bool :=
  match d with Some x => x <=? day | None => false end.

Definition date_ge (d : option Z) (day : Z) : bool :=
  match d with Some x => day <=? x | None => false end.

(** [getExpiringLicenses].  [now] and [now'] are the two readings of the
    clock, [new Date()] for [futureDate] and [new Date()] in the query;
    [toISOString] throws on an invalid date, and the store reads the two
    day texts as dates when it receives the statement. *)
Definition getExpiringLicenses (LocalTZA : Z -> bool -> Z) (now now' : Z)
    (days : Z) (db : Store) : result (list License.t) :=
  match addDays LocalTZA now days with
  | None => Err RangeError
  | Some futureDate =>
      upper <- isoDate_param (utcDay futureDate) ;;
      lower <- isoDate_param (utcDay now') ;;
      Ok (filter
            (fun l =>
               date_le (License.expiryDate l) upper &&
               date_ge (License.expiryDate l) lower &&
               opt_eqb String.eqb (License.status l) (Some "active"))
            (licenses db))
  end.

Module Duplicate.
Record t : Type := mk {
  softwareName : string;
  licenses : list License.t
}.
End Duplicate.

(** The reducer of [getDuplicateLicenses]: [acc[softwareName]] is created
    as an empty array when it is falsy, then the license is pushed.  An
    inherited member of the accumulator is truthy and has no [push]. *)
Definition groupStep (acc : js_object (list License.t)) (license : License.t)
    : result (js_object (list License.t)) :=
  let softwareName := toLowerCase (License.softwareName license) in
  match get acc softwareName with
  | Undefined => Ok (set acc softwareName [license])
  | OwnValue group => Ok (set acc softwareName (group ++ [license])%list)
  | Inherited => Err TypeError
  end.

Definition groupedBySoftware (allLicenses : list License.t)
    : result (js_object (list License.t)) :=
  fold_left (fun acc license => acc' <- acc ;; groupStep acc' license)
            allLicenses (Ok []).

(** [getDuplicateLicenses] *)
Definition getDuplicateLicenses (db : Store) : result (list Duplicate.t) :=
  grouped <- groupedBySoftware (getAllLicenses db) ;;
  Ok (map (fun kv => Duplicate.mk (fst kv) (snd kv))
          (filter (fun kv => (1 <? Z.of_nat (List.length (snd kv))))
                  (Object_entries grouped))).

Record Metrics : Type := mkMetrics {
  totalLicenses : Z;
  monthlyCost : number;
  expiringSoon : Z;
  utilizationRate : number
}.

(** The reducer of [monthlyCost]. *)
Definition addMonthly (total : number) (license : License.t) : number :=
  let cost := parseFloat (License.cost license) in
  let frequency := License.billingFrequency license in
  if String.eqb frequency "monthly" then jsAdd total cost
  else if String.eqb frequency "quarterly" then jsAdd total (jsDiv cost (ofZ 3))
  else if String.eqb frequency "annually" then jsAdd total (jsDiv cost (ofZ 12))
  else total.

(** [license.usedSeats || 0] *)
Definition usedOrZero (license : License.t) : Z :=
  match License.usedSeats license with
  | Some u => u
  | None => 0
  end.

(** [getLicenseMetrics].  The two statements are awaited one after the
    other with no transaction around them: [db] is the store as
    [getAllLicenses] reads it and [db'] the store as
    [getExpiringLicenses] reads it afterwards.  The seat counts are 32-bit
    integers and their sums are kept exact, as Number addition is below
    2^53. *)
Definition getLicenseMetrics (LocalTZA : Z -> bool -> Z) (now now' : Z)
    (db db' : Store) : result Metrics :=
  let allLicenses := getAllLicenses db in
  expiring <- getExpiringLicenses LocalTZA now now' 30 db' ;;
  let totalLicenses := Z.of_nat (List.length allLicenses) in
  let expiringSoon := Z.of_nat (List.length expiring) in
  let monthlyCost := fold_left addMonthly allLicenses (ofZ 0) in
  let totalSeats :=
    fold_left (fun total license => total + License.totalSeats license)
              allLicenses 0 in
  let usedSeats :=
    fold_left (fun total license => total + usedOrZero license)
              allLicenses 0 in
  let utilizationRate :=
    if 0 <? totalSeats
    then Math_round (jsMul (jsDiv (ofZ usedSeats) (ofZ totalSeats)) (ofZ 100))
    else ofZ 0 in
  Ok (mkMetrics totalLicenses (Math_round monthlyCost) expiringSoon utilizationRate).

(** ** The HTTP handlers of [registerRoutes] *)

Inductive Response (A : Type) : Type :=
| Json (status : Z) (body : A)
| Message (status : Z) (message : string).

Arguments Json {A} status body.
Arguments Message {A} status message.

(** The [days] that [GET /api/analytics/expiring] passes on:
    [parseInt(req.query.days) || 30]. *)
Definition expiringDays (days : option qs_value) : Z :=
  orDefault (parseInt (paramString days)) 30.

(** [GET /api/analytics/expiring] *)
Definition get_expiring (LocalTZA : Z -> bool -> Z) (now now' : Z)
    (days : option qs_value) (db : Store) : Response (list License.t) :=
  match getExpiringLicenses LocalTZA now now' (expiringDays days) db with
  | Ok found => Json 200 found
  | Err _ => Message 500 "Failed to fetch expiring licenses"
  end.

(** [PUT /api/licenses/:id], for a body that has the shape of a
    [Partial<License>]; [res.json(undefined)] answers 200 with no body. *)
Definition put_license (now : Z) (id : string) (body : Patch.t) (db : Store)
    : Response (option License.t) * Store :=
  match updateLicense now id body db with
  | Ok (license, db') => (Json 200 license, db')
  | Err _ => (Message 500 "Failed to update license", db)
  end.

Section PostLicense.
Variable date_in : string -> option Z.
(** The text the driver binds for a value that is neither a string nor
    null. *)
Variable prepareValue : json -> string.

(** [getOrCreateVendor(req.body.vendorName)]: a missing or null name
    matches no row and cannot be inserted. *)
Definition vendorFor (uuid : string) (now : Z) (body : json) (db : Store)
    : result (Vendor.t * Store) :=
  match member "vendorName" body with
  | None | Some JNull => Err StoreError
  | Some (JString name) => getOrCreateVendor uuid now name db
  | Some v => getOrCreateVendor uuid now (prepareValue v) db
  end.

(** [POST /api/licenses].  [uuidV] and [uuidL] are the ids the store
    generates for a new vendor and for the license. *)
Definition post_license (uuidV uuidL : string) (now : Z) (body : json)
    (db : Store) : Response License.t * Store :=
  match insertLicenseSchema body with
  | Err ZodError => (Message 400 "Invalid license data", db)
  | Err _ => (Message 500 "Failed to create license", db)
  | Ok licenseData =>
      match vendorFor uuidV now body db with
      | Err _ => (Message 500 "Failed to create license", db)
      | Ok (vendor, db1) =>
          match createLicense date_in uuidL now
                  (InsertLicense.withVendorId licenseData (Vendor.id vendor))
                  db1 with
          | Ok (license, db2) => (Json 201 license, db2)
          | Err _ => (Message 500 "Failed to create license", db1)
          end
      end
  end.
End PostLicense.

(** ** What the specification says, in its own words

    Used only to compare with the code. *)

(** The rows two results have in common, in the order of the first. *)
Definition intersect (xs ys : list License.t) : list License.t :=
  filter (fun x => existsb (License_eqb x) ys) xs.

(** The filters with all but one field left out. *)
Definition onlySearch (f : Filters.t) : Filters.t := Filters.mk (Filters.search f) None None None.
Definition onlyTeam (f : Filters.t) : Filters.t := Filters.mk None (Filters.teamId f) None None.
Definition onlyVendor (f : Filters.t) : Filters.t := Filters.mk None None (Filters.vendorId f) None.
Definition onlyStatus (f : Filters.t) : Filters.t := Filters.mk None None None (Filters.status f).

(** A filter is present: the field holds a string that is not empty. *)
Definition present (field : option string) (value : string) : Prop :=
  field = Some value /\ value <> "".

(** [a] was created no earlier than [b]; a row without a creation time
    counts as newest. *)
Definition notOlder (a b : License.t) : Prop :=
  match License.createdAt a, License.createdAt b with
  | None, _ => True
  | Some _, None => False
  | Some x, Some y => y <= x
  end.

(** A list in which every license is followed only by licenses that are
    not newer. *)
Definition newestFirst (ls : list License.t) : Prop :=
  StronglySorted notOlder ls.

(** A search string without the characters a pattern gives a meaning
    to. *)
Fixpoint plainSearch (s : string) : bool :=
  match s with
  | EmptyString => true
  | String c r =>
      negb (Ascii.eqb c "\"%char) && negb (Ascii.eqb c "%"%char) &&
      negb (Ascii.eqb c "_"%char) && plainSearch r
  end.

(** [s] occurs in [name]. *)
Definition isSubstring (s name : string) : Prop :=
  exists before after, name = before ++ s ++ after.

(** A license is expiring within [days] of [today]: it is active and its
    expiry date lies in the window from [today] to [today + days], both
    ends included. *)
Definition expiresWithin (today days : Z) (l : License.t) : bool :=
  opt_eqb String.eqb (License.status l) (Some "active") &&
  match License.expiryDate l with
  | Some d => (today <=? d) && (d <=? today + days)
  | None => false
  end.

(** A license is active and its expiry date lies between the days
    [lower] and [upper], both included. *)
Definition expiresBetween (lower upper : Z) (l : License.t) : bool :=
  opt_eqb String.eqb (License.status l) (Some "active") &&
  match License.expiryDate l with
  | Some d => (lower <=? d) && (d <=? upper)
  | None => false
  end.

(** The key a license is grouped under. *)
Definition groupKey (l : License.t) : string :=
  toLowerCase (License.softwareName l).

(** The distinct keys of a list, in the order they are first seen. *)
Fixpoint firstSeen (keys : list string) : list string :=
  match keys with
  | [] => []
  | k :: rest => k :: filter (fun k' => negb (String.eqb k' k)) (firstSeen rest)
  end.

(** The licenses of a group, in the order of the list. *)
Definition membersOf (key : string) (ls : list License.t) : list License.t :=
  filter (fun l => String.eqb (groupKey l) key) ls.

Definition duplicateGroups (keys : list string) (ls : list License.t)
    : list Duplicate.t :=
  map (fun k => Duplicate.mk k (membersOf k ls))
      (filter (fun k => 2 <=? Z.of_nat (List.length (membersOf k ls))) keys).

(** The groups as the specification describes them: keys in first-seen
    order. *)
Definition claimedDuplicates (db : Store) : list Duplicate.t :=
  duplicateGroups (firstSeen (map groupKey (getAllLicenses db)))
                  (getAllLicenses db).

(** The order in which an object lists keys created in the order [keys]:
    array indices first, ascending, then the rest as created. *)
Definition keyBefore (a b : string) : bool :=
  match arrayIndex a, arrayIndex b with
  | Some i, Some j => i <=? j
  | _, _ => true
  end.

Definition isIndex (k : string) : bool :=
  match arrayIndex k with Some _ => true | None => false end.

Definition entriesOrder (keys : list string) : list string :=
  (orderBy keyBefore (filter isIndex keys) ++
   filter (fun k => negb (isIndex k)) keys)%list.

(** The monthly-equivalent cost of a license: the cost itself when it is
    billed monthly, a third of it when quarterly, a twelfth when
    annually, and zero for any other frequency. *)
Definition monthlyEquivalent (l : License.t) : number :=
  let cost := parseFloat (License.cost l) in
  let frequency := License.billingFrequency l in
  if String.eqb frequency "monthly" then cost
  else if String.eqb frequency "quarterly" then jsDiv cost (ofZ 3)
  else if String.eqb frequency "annually" then jsDiv cost (ofZ 12)
  else ofZ 0.

(** The sum of a list of Numbers, added from the left starting at zero. *)
Definition sumNumbers (xs : list number) : number :=
  fold_left jsAdd xs (ofZ 0).

(** The sum of an integer field over a list of licenses. *)
Definition sumOf (f : License.t -> Z) (ls : list License.t) : Z :=
  fold_right (fun l acc => f l + acc) 0 ls.

(** The integer nearest to the fraction [num / den], a half going up:
    the floor of [num / den + 1/2]. *)
Definition nearestInteger (num den : Z) : Z := (2 * num + den) / (2 * den).

(** [y] is the Number [x] rounded to the nearest integer, a half going
    up: [x] itself when it has no fraction (or is not finite), and
    otherwise the integer [n] with [n - 1/2 <= x < n + 1/2], where a
    result of zero keeps the sign of [x]. *)
Definition nearestHalfUp (x y : number) : Prop :=
  match x with
  | S754_finite s m e =>
      if 0 <=? e then y = x
      else exists n : Z,
             (2 * n - 1) * 2 ^ (- e) <= 2 * cond_Zopp s (Zpos m)
             /\ 2 * cond_Zopp s (Zpos m) < (2 * n + 1) * 2 ^ (- e)
             /\ y = (if n =? 0 then S754_zero s else ofZ n)
  | _ => y = x
  end.

(** The numeric parse of a cost string to two decimal places: the decimal
    number at its head, in hundredths, a half rounded away from zero;
    [None] when the string does not start with a number. *)
Definition decimalCents (text : string) : option Z :=
  let '(negative, str) := scanSign (trimStart text) in
  let '(ip, ni, r1) := scanDigits 10 str 0 0 in
  let '(m, nf, r2) :=
    match r1 with
    | String c r => if Ascii.eqb c "."%char then scanDigits 10 r ip 0 else (ip, 0, r1)
    | EmptyString => (ip, 0, r1)
    end in
  if ni + nf =? 0 then None
  else
    let cents := roundToCents m (scanExponent r2 - nf) in
    Some (if negative then - cents else cents).

(** The monthly equivalent of a license's cost as an exact number, in
    twelve-hundredths of a unit: the cost in hundredths times 12 when it
    is billed monthly, times 4 when quarterly, once when annually, and
    zero for any other frequency. *)
Definition exactMonthly (l : License.t) : Z :=
  let cents := match decimalCents (License.cost l) with
               | Some c => c
               | None => 0
               end in
  let frequency := License.billingFrequency l in
  if String.eqb frequency "monthly" then 12 * cents
  else if String.eqb frequency "quarterly" then 4 * cents
  else if String.eqb frequency "annually" then cents
  else 0.

(** The monthly cost as the specification words it: the exact sum of the
    monthly equivalents, rounded to the nearest integer at the end. *)
Definition claimedMonthlyCost (ls : list License.t) : Z :=
  nearestInteger (sumOf exactMonthly ls) 1200.

(** The utilization rate as the specification words it: the used seats
    over the total seats, times 100, rounded to the nearest integer, and
    0 when there are no seats. *)
Definition claimedUtilization (ls : list License.t) : Z :=
  let total := sumOf License.totalSeats ls in
  if total =? 0 then 0
  else nearestInteger (100 * sumOf usedOrZero ls) total.

(** The cost a creation stores, through the Number the schema makes of
    it. *)
Definition costThroughNumber (text : string) : result numeric :=
  numeric_in (Number_toString (parseFloat text)).

(** Whether every amount of hundredths from [from] up, [count] of them,
    comes back unchanged when written with two decimals and stored. *)
Fixpoint centsRoundTrip (count : nat) (from : Z) : bool :=
  match count with
  | O => true
  | S count' =>
      match costThroughNumber (numeric_out (Num from)) with
      | Ok (Num c) => (c =? from) && centsRoundTrip count' (from + 1)
      | _ => false
      end
  end.

(** ** Invariants used in the proofs *)

(** The fields [insertLicenseSchema] reads, given how to look a key up. *)
Definition parseFields (field : string -> option json) : result InsertLicense.t :=
  softwareName <- zString (field "softwareName") ;;
  vendorId <- zString (field "vendorId") ;;
  teamId <- zString (field "teamId") ;;
  licenseType <- zString (field "licenseType") ;;
  totalSeats <- zString (field "totalSeats") ;;
  cost <- zString (field "cost") ;;
  billingFrequency <- zString (field "billingFrequency") ;;
  purchaseDate <- zString (field "purchaseDate") ;;
  expiryDate <- zOptionalString (field "expiryDate") ;;
  contactPerson <- zString (field "contactPerson") ;;
  description <- zOptionalString (field "description") ;;
  Ok (InsertLicense.mk softwareName vendorId teamId licenseType
        (parseInt totalSeats) (parseFloat cost) billingFrequency
        purchaseDate expiryDate contactPerson description).

(** The exponent of a finite Number is not below the least exponent of the
    format. *)
Definition exponentInRange (x : number) : Prop :=
  match x with
  | S754_finite _ _ e => emin prec emax <= e
  | _ => True
  end.

Definition negativeZero : number := S754_zero true.

(** A field of the updated row holds the supplied value if one was
    supplied and the old value otherwise. *)
Definition fieldApplied (A : Type) (field : option A) (old new : A) : Prop :=
  match field with
  | Some v => new = v
  | None => new = old
  end.

(** An update applied only the supplied fields and stamped the row. *)
Definition onlySuppliedApplied (license : Patch.t) (cost : option string)
    (now : Z) (old new : License.t) : Prop :=
  fieldApplied (Patch.id license) (License.id old) (License.id new) /\
  fieldApplied (Patch.softwareName license) (License.softwareName old)
               (License.softwareName new) /\
  fieldApplied (Patch.vendorId license) (License.vendorId old) (License.vendorId new) /\
  fieldApplied (Patch.teamId license) (License.teamId old) (License.teamId new) /\
  fieldApplied (Patch.licenseType license) (License.licenseType old)
               (License.licenseType new) /\
  fieldApplied (Patch.totalSeats license) (License.totalSeats old)
               (License.totalSeats new) /\
  fieldApplied (Patch.usedSeats license) (License.usedSeats old)
               (License.usedSeats new) /\
  fieldApplied cost (License.cost old) (License.cost new) /\
  fieldApplied (Patch.billingFrequency license) (License.billingFrequency old)
               (License.billingFrequency new) /\
  fieldApplied (Patch.purchaseDate license) (License.purchaseDate old)
               (License.purchaseDate new) /\
  fieldApplied (Patch.expiryDate license) (License.expiryDate old)
               (License.expiryDate new) /\
  fieldApplied (Patch.contactPerson license) (License.contactPerson old)
               (License.contactPerson new) /\
  fieldApplied (Patch.description license) (License.description old)
               (License.description new) /\
  fieldApplied (Patch.status license) (License.status old) (License.status new) /\
  fieldApplied (dateField (Patch.createdAt license)) (License.createdAt old)
               (License.createdAt new) /\
  License.updatedAt new = Some (toTimestamp now).

(** A patch the store's constraints accept on a row with that id: the id
    stays, a new vendor or team exists, the seat counts fit an integer
    column. *)
Definition patchAccepted (db : Store) (id : string) (license : Patch.t) : bool :=
  match Patch.id license with Some i => String.eqb i id | None => true end &&
  match Patch.vendorId license with
  | Some v => existsb (String.eqb v) (map Vendor.id (vendors db))
  | None => true
  end &&
  match Patch.teamId license with
  | Some t => existsb (String.eqb t) (map Team.id (teams db))
  | None => true
  end &&
  match Patch.totalSeats license with Some n => int4_range n | None => true end &&
  match Patch.usedSeats license with Some (Some n) => int4_range n | _ => true end.

(** ** Sample data for the worked examples *)

Definition sampleLicense (id name : string) (createdAt : Z) : License.t :=
  License.mk id name "v1" "t1" "subscription" 10 (Some 0) "0.00" "monthly"
             (isoDay 2023 1 1) None "Ada" None (Some "active")
             (Some createdAt) (Some createdAt).

Definition withExpiry (status : string) (expiry : Z) (l : License.t) : License.t :=
  License.mk (License.id l) (License.softwareName l) (License.vendorId l)
             (License.teamId l) (License.licenseType l) (License.totalSeats l)
             (License.usedSeats l) (License.cost l) (License.billingFrequency l)
             (License.purchaseDate l) (Some expiry) (License.contactPerson l)
             (License.description l) (Some status) (License.createdAt l)
             (License.updatedAt l).

Definition withBilling (cost frequency : string) (used total : Z) (l : License.t)
    : License.t :=
  License.mk (License.id l) (License.softwareName l) (License.vendorId l)
             (License.teamId l) (License.licenseType l) total (Some used) cost
             frequency (License.purchaseDate l) (License.expiryDate l)
             (License.contactPerson l) (License.description l)
             (License.status l) (License.createdAt l) (License.updatedAt l).

Definition sampleStore (rows : list License.t) : Store :=
  mkStore [Team.mk "t1" "Platform" None (Some 0)]
          [Vendor.mk "v1" "Acme" None None (Some 0)]
          rows.

(** The length of a month of the Gregorian calendar. *)
Definition daysInMonth (y m : Z) : Z :=
  if m =? 2 then
    if ((y mod 4 =? 0) && negb (y mod 100 =? 0)) || (y mod 400 =? 0) then 29
    else 28
  else if (m =? 4) || (m =? 6) || (m =? 9) || (m =? 11) then 30
  else 31.

(** A store that reads dates written [YYYY-MM-DD], and a driver that
    writes numbers and booleans as JavaScript prints them. *)
Definition isoDate_in (text : string) : option Z :=
  let '(y, ny, r1) := scanDigits 10 text 0 0 in
  match r1 with
  | String c1 r1' =>
      let '(m, nm, r2) := scanDigits 10 r1' 0 0 in
      match r2 with
      | String c2 r2' =>
          let '(d, nd, r3) := scanDigits 10 r2' 0 0 in
          if (ny =? 4) && (nm =? 2) && (nd =? 2) &&
             Ascii.eqb c1 "-"%char && Ascii.eqb c2 "-"%char &&
             String.eqb r3 "" &&
             (1 <=? y) && (1 <=? m) && (m <=? 12) &&
             (1 <=? d) && (d <=? daysInMonth y m)
          then Some (isoDay y m d) else None
      | EmptyString => None
      end
  | EmptyString => None
  end.

Definition plainValue (v : json) : string :=
  match v with
  | JNumber x => Number_toString x
  | JBool b => if b then "true" else "false"
  | _ => ""
  end.

(** A creation payload for a license of the sample team, with the given
    cost and further keys. *)
Definition licenseBody (cost : string) (extra : list (string * json)) : json :=
  JObject ([ ("softwareName", JString "Zoom");
             ("vendorId", JString "");
             ("vendorName", JString "Acme");
             ("teamId", JString "t1");
             ("licenseType", JString "subscription");
             ("totalSeats", JString "10");
             ("cost", JString cost);
             ("billingFrequency", JString "monthly");
             ("purchaseDate", JString "2024-01-01");
             ("contactPerson", JString "Ada") ] ++ extra)%list.

(** Noon UTC on a day. *)
Definition noon (day : Z) : Z := day * msPerDay + 43200000.

(** Three licenses, two of them for the same product. *)
Definition searchExample : Store :=
  sampleStore [ sampleLicense "a" "Zoom" 3; sampleLicense "b" "zoom" 2;
                sampleLicense "c" "Slack" 1 ].

(** Two active licenses and a cancelled one, with expiry dates. *)
Definition expiringExample : list License.t :=
  [ withExpiry "active" (isoDay 2024 1 15) (sampleLicense "a" "Zoom" 1);
    withExpiry "active" (isoDay 2024 3 1) (sampleLicense "b" "Slack" 2);
    withExpiry "cancelled" (isoDay 2024 1 10) (sampleLicense "c" "Figma" 3) ].

(** An update that supplies a name and a cost. *)
Definition renamePatch : Patch.t :=
  Patch.mk None (Some "Zoom Pro") None None None None None (Some "12.5") None
           None None None None None None None.

(** Licenses named "Zoom", "zoom" and "Slack". *)
Definition zoomExample : Store :=
  sampleStore [ sampleLicense "a" "Zoom" 3; sampleLicense "b" "zoom" 2;
                sampleLicense "c" "Slack" 1 ].

(** Licenses named "Zoom", "zoom", "7" and "7". *)
Definition numberedExample : Store :=
  sampleStore [ sampleLicense "a" "Zoom" 4; sampleLicense "b" "zoom" 3;
                sampleLicense "c" "7" 2; sampleLicense "d" "7" 1 ].

(** A monthly and a quarterly license. *)
Definition metricsExample : Store :=
  sampleStore
    [ withBilling "120.00" "monthly" 10 10 (sampleLicense "a" "Zoom" 2);
      withBilling "300.00" "quarterly" 5 10 (sampleLicense "b" "Slack" 1) ].

(** A zone with a fixed offset from UTC, in milliseconds. *)
Definition fixedZone (offset : Z) : Z -> bool -> Z := fun _ _ => offset.

Definition msPerHour : Z := 3600000.

(** A zone five hours behind UTC that puts its clocks an hour forward on
    2024-03-10, at 07:00 UTC (from 02:00 to 03:00 local time). *)
Definition easternZone (t : Z) (isUTC : bool) : Z :=
  let change := isoDay 2024 3 10 * msPerDay in
  if isUTC
  then (if t <? change + 7 * msPerHour then - 5 * msPerHour else - 4 * msPerHour)
  else (if t <? change + 3 * msPerHour then - 5 * msPerHour else - 4 * msPerHour).

(** Half past midnight UTC on 2024-02-20: the evening of 2024-02-19 in
    [easternZone]. *)
Definition lateEvening : Z := isoDay 2024 2 20 * msPerDay + 1800000.

(** Three active licenses, expiring 2024-02-19, 2024-03-01 and
    2024-03-21. *)
Definition zoneExample : list License.t :=
  [ withExpiry "active" (isoDay 2024 2 19) (sampleLicense "a" "Zoom" 1);
    withExpiry "active" (isoDay 2024 3 1) (sampleLicense "b" "Slack" 2);
    withExpiry "active" (isoDay 2024 3 21) (sampleLicense "c" "Figma" 3) ].

(** Monthly licenses costing 0.35, 1.14 and 2.01, the first created last
    and the other two at the given times. *)
Definition costsExample (second third : Z) : Store :=
  sampleStore
    [ withBilling "0.35" "monthly" 0 10 (sampleLicense "a" "Zoom" 3);
      withBilling "1.14" "monthly" 0 10 (sampleLicense "b" "Slack" second);
      withBilling "2.01" "monthly" 0 10 (sampleLicense "c" "Figma" third) ].

(** One license with the given used and total seats. *)
Definition seatsExample (used total : Z) : Store :=
  sampleStore [ withBilling "0.00" "monthly" used total (sampleLicense "a" "Zoom" 1) ].

(** ** The rest of [DatabaseStorage]: teams, vendors and users *)

(** [InsertTeam], the output type of [insertTeamSchema]; a description
    that is left out or null is stored as NULL. *)
Module InsertTeam.
Record t : Type := mk {
  name : string;
  description : option string
}.
End InsertTeam.

(** [InsertUser], the output type of [insertUserSchema]. *)
Module InsertUser.
Record t : Type := mk {
  username : string;
  password : string
}.
End InsertUser.

(** A nullable text column of an insert: left out and null both store
    NULL. *)
Definition nullable (v : option (option string)) : option string :=
  match v with
  | Some (Some s) => Some s
  | _ => None
  end.

(** [insertTeamSchema.parse(body)]: the insert shape of the teams table
    without [id] and [createdAt]. *)
Definition insertTeamSchema (body : json) : result InsertTeam.t :=
  match body with
  | JObject _ =>
      name <- zString (member "name" body) ;;
      description <- zOptionalString (member "description" body) ;;
      Ok (InsertTeam.mk name (nullable description))
  | _ => Err ZodError
  end.

(** [insertVendorSchema.parse(body)] *)
Definition insertVendorSchema (body : json) : result InsertVendor.t :=
  match body with
  | JObject _ =>
      name <- zString (member "name" body) ;;
      website <- zOptionalString (member "website" body) ;;
      contactEmail <- zOptionalString (member "contactEmail" body) ;;
      Ok (InsertVendor.mk name (nullable website) (nullable contactEmail))
  | _ => Err ZodError
  end.

(** [getTeam] *)
Definition getTeam (id : string) (db : Store) : option Team.t :=
  find (fun t => String.eqb (Team.id t) id) (teams db).

(** [createTeam] *)
Definition createTeam (uuid : string) (now : Z) (team : InsertTeam.t)
    (db : Store) : result (Team.t * Store) :=
  let newTeam :=
    Team.mk uuid (InsertTeam.name team) (InsertTeam.description team)
            (Some now) in
  commit newTeam (mkStore (teams db ++ [newTeam])%list (vendors db) (licenses db)).

(** [getVendor] *)
Definition getVendor (id : string) (db : Store) : option Vendor.t :=
  find (fun v => String.eqb (Vendor.id v) id) (vendors db).

(** The user methods read and write the teams table: a user is a team
    row whose name is the user name and whose description is the
    password. *)

(** [getUser] *)
Definition getUser (id : string) (db : Store) : option Team.t :=
  find (fun t => String.eqb (Team.id t) id) (teams db).

(** [getUserByUsername] *)
Definition getUserByUsername (username : string) (db : Store) : option Team.t :=
  find (fun t => String.eqb (Team.name t) username) (teams db).

(** [createUser] *)
Definition createUser (uuid : string) (now : Z) (insertUser : InsertUser.t)
    (db : Store) : result (Team.t * Store) :=
  let user :=
    Team.mk uuid (InsertUser.username insertUser)
            (Some (InsertUser.password insertUser)) (Some now) in
  commit user (mkStore (teams db ++ [user])%list (vendors db) (licenses db)).

Section Collation.
(** The store's order on text, which [ORDER BY name] follows:
    [collate a b] when [a] sorts no later than [b]. *)
Variable collate : string -> string -> bool.

(** [getAllTeams] *)
Definition getAllTeams (db : Store) : list Team.t :=
  orderBy (fun a b => collate (Team.name a) (Team.name b)) (teams db).

(** [getAllVendors] *)
Definition getAllVendors (db : Store) : list Vendor.t :=
  orderBy (fun a b => collate (Vendor.name a) (Vendor.name b)) (vendors db).
End Collation.

(** ** The rest of the HTTP handlers *)

(** [POST /api/teams] *)
Definition post_team (uuid : string) (now : Z) (body : json) (db : Store)
    : Response Team.t * Store :=
  match insertTeamSchema body with
  | Err ZodError => (Message 400 "Invalid team data", db)
  | Err _ => (Message 500 "Failed to create team", db)
  | Ok teamData =>
      match createTeam uuid now teamData db with
      | Ok (team, db') => (Json 201 team, db')
      | Err _ => (Message 500 "Failed to create team", db)
      end
  end.

(** [POST /api/vendors] *)
Definition post_vendor (uuid : string) (now : Z) (body : json) (db : Store)
    : Response Vendor.t * Store :=
  match insertVendorSchema body with
  | Err ZodError => (Message 400 "Invalid vendor data", db)
  | Err _ => (Message 500 "Failed to create vendor", db)
  | Ok vendorData =>
      match createVendor uuid now vendorData db with
      | Ok (vendor, db') => (Json 201 vendor, db')
      | Err _ => (Message 500 "Failed to create vendor", db)
      end
  end.

(** [GET /api/licenses], for query parameters that are strings when
    present: a search when any of them is truthy, the whole list
    otherwise. *)
Definition get_licenses (search teamId vendorId status : option string)
    (db : Store) : Response (list License.t) :=
  if truthy_string search || truthy_string teamId ||
     truthy_string vendorId || truthy_string status
  then Json 200 (searchLicenses (Filters.mk search teamId vendorId status) db)
  else Json 200 (getAllLicenses db).

(** [GET /api/licenses/:id] *)
Definition get_license (id : string) (db : Store) : Response License.t :=
  match getLicense id db with
  | None => Message 404 "License not found"
  | Some license => Json 200 license
  end.

(** [DELETE /api/licenses/:id]: the status of the answer, which has no
    body, and the store afterwards. *)
Definition delete_license (id : string) (db : Store) : Z * Store :=
  (204, deleteLicense id db).

(** [GET /api/analytics/metrics] *)
Definition get_metrics (LocalTZA : Z -> bool -> Z) (now now' : Z)
    (db db' : Store) : Response Metrics :=
  match getLicenseMetrics LocalTZA now now' db db' with
  | Ok metrics => Json 200 metrics
  | Err _ => Message 500 "Failed to fetch metrics"
  end.

(** [GET /api/analytics/duplicates] *)
Definition get_duplicates (db : Store) : Response (list Duplicate.t) :=
  match getDuplicateLicenses db with
  | Ok duplicates => Json 200 duplicates
  | Err _ => Message 500 "Failed to fetch duplicates"
  end.

(** [GET /api/teams/:teamId/licenses] *)
Definition get_team_licenses (teamId : string) (db : Store)
    : Response (list License.t) :=
  Json 200 (getLicensesByTeam teamId db).

(** ** Further notions used in the properties *)

(** The billing frequencies [monthlyCost] counts. *)
Definition billable (l : License.t) : bool :=
  String.eqb (License.billingFrequency l) "monthly" ||
  String.eqb (License.billingFrequency l) "quarterly" ||
  String.eqb (License.billingFrequency l) "annually".

(** The status code of an answer. *)
Definition statusOf (A : Type) (r : Response A) : Z :=
  match r with
  | Json status _ => status
  | Message status _ => status
  end.

(** Text compared code unit by code unit, a collation for the worked
    examples. *)
Definition byteOrder (a b : string) : bool := String.leb a b.

(** A parsed payload for a license of the sample team and vendor. *)
Definition sampleInsert : InsertLicense.t :=
  InsertLicense.mk "Zoom" "v1" "t1" "subscription" (Some 10) (ofZ 20) "monthly"
                   "2024-01-01" None "Ada" None.

(** The keys of a creation payload that [insertLicenseSchema] requires to
    be strings: the columns that are not null and have no default, less
    the omitted ones. *)
Definition requiredLicenseKeys : list string :=
  [ "softwareName"; "vendorId"; "teamId"; "licenseType"; "totalSeats"; "cost";
    "billingFrequency"; "purchaseDate"; "contactPerson" ].

(** A license whose lower-cased name is the name of a member of
    [Object.prototype]. *)
Definition inheritedName (l : License.t) : bool :=
  existsb (String.eqb (toLowerCase (License.softwareName l))) Object_prototype_keys.

(** * Properties *)

Unset Implicit Arguments.

(** ** Sorting facts *)

Section OrderByFacts.
Variable A : Type.
Variable before : A -> A -> bool.
Hypothesis before_total : forall x y, before x y = true \/ before y x = true.
Hypothesis before_trans :
  forall x y z, before x y = true -> before y z = true -> before x z = true.

Lemma sortedb_tail (x : A) (l : list A) :
  sortedb before (x :: l) = true -> sortedb before l = true.
Proof.
  simpl. destruct l as [|y l']; [reflexivity|].
  intros H. apply andb_prop in H. tauto.
Qed.

Lemma sortedb_all_after (x : A) (l : list A) :
  sortedb before (x :: l) = true -> Forall (fun z => before x z = true) l.
Proof.
  revert x. induction l as [|y l' IH]; intros x H; [constructor|].
  simpl in H. apply andb_prop in H. destruct H as [Hxy Hs].
  constructor; [exact Hxy|].
  specialize (IH y Hs).
  eapply Forall_impl; [|exact IH].
  intros z Hyz. eapply before_trans; eassumption.
Qed.

Lemma insert_row_first (x : A) (l : list A) :
  Forall (fun z => before x z = true) l -> insert_row before x l = x :: l.
Proof.
  destruct l as [|y l']; [reflexivity|].
  intros H. inversion H; subst. simpl. now rewrite H2.
Qed.

Lemma sortedb_insert_row (x : A) (l : list A) :
  sortedb before l = true -> sortedb before (insert_row before x l) = true.
Proof.
  induction l as [|y l' IH]; intros Hs; [reflexivity|].
  simpl. destruct (before x y) eqn:Hxy.
  - change (before x y && sortedb before (y :: l') = true).
    now rewrite Hxy, Hs.
  - assert (Hyx : before y x = true)
      by (destruct (before_total x y); congruence).
    specialize (IH (sortedb_tail _ _ Hs)).
    destruct l' as [|z l'']; simpl.
    + now rewrite Hyx.
    + simpl in IH. destruct (before x z) eqn:Hxz.
      * simpl in Hs. apply andb_prop in Hs.
        rewrite Hyx. simpl. exact IH.
      * simpl in Hs. apply andb_prop in Hs. destruct Hs as [Hyz Hs].
        rewrite Hyz. simpl. exact IH.
Qed.

Lemma sortedb_orderBy (l : list A) : sortedb before (orderBy before l) = true.
Proof.
  induction l as [|x l' IH]; [reflexivity|].
  simpl. now apply sortedb_insert_row.
Qed.

Lemma filter_insert_row (p : A -> bool) (x : A) (l : list A) :
  sortedb before l = true ->
  filter p (insert_row before x l) =
    if p x then insert_row before x (filter p l) else filter p l.
Proof.
  induction l as [|y l' IH]; intros Hs.
  - simpl. destruct (p x); reflexivity.
  - simpl. destruct (before x y) eqn:Hxy.
    + simpl. destruct (p x) eqn:Hpx; destruct (p y) eqn:Hpy; simpl;
        rewrite ?Hxy; try reflexivity.
      symmetry. apply insert_row_first.
      apply incl_Forall with (l1 := l'); [apply incl_filter|].
      eapply Forall_impl; [|exact (sortedb_all_after _ _ Hs)].
      intros z Hyz. eapply before_trans; eassumption.
    + simpl. rewrite (IH (sortedb_tail _ _ Hs)).
      destruct (p x) eqn:Hpx; destruct (p y) eqn:Hpy; simpl;
        rewrite ?Hxy; reflexivity.
Qed.

Lemma filter_orderBy (p : A -> bool) (l : list A) :
  filter p (orderBy before l) = orderBy before (filter p l).
Proof.
  induction l as [|x l' IH]; [reflexivity|].
  simpl. rewrite filter_insert_row by apply sortedb_orderBy.
  rewrite IH. destruct (p x); reflexivity.
Qed.

Lemma In_insert_row (x y : A) (l : list A) :
  In y (insert_row before x l) <-> y = x \/ In y l.
Proof.
  induction l as [|z l' IH]; simpl.
  - intuition congruence.
  - destruct (before x z); simpl; rewrite ?IH; intuition congruence.
Qed.

Lemma In_orderBy (y : A) (l : list A) : In y (orderBy before l) <-> In y l.
Proof.
  induction l as [|x l' IH]; simpl; [tauto|].
  rewrite In_insert_row, IH. intuition congruence.
Qed.
End OrderByFacts.

Lemma desc_createdAt_total (x y : License.t) :
  desc_createdAt x y = true \/ desc_createdAt y x = true.
Proof.
  unfold desc_createdAt.
  destruct (License.createdAt x), (License.createdAt y); auto.
  destruct (Z.leb_spec z0 z); [now left|right]. apply Z.leb_le. lia.
Qed.

Lemma desc_createdAt_trans (x y z : License.t) :
  desc_createdAt x y = true -> desc_createdAt y z = true ->
  desc_createdAt x z = true.
Proof.
  unfold desc_createdAt.
  destruct (License.createdAt x), (License.createdAt y), (License.createdAt z);
    try congruence.
  rewrite !Z.leb_le. lia.
Qed.

Lemma desc_createdAt_notOlder (x y : License.t) :
  desc_createdAt x y = true <-> notOlder x y.
Proof.
  unfold desc_createdAt, notOlder.
  destruct (License.createdAt x), (License.createdAt y);
    rewrite ?Z.leb_le; intuition congruence.
Qed.

Lemma newestFirst_sorted (ls : list License.t) :
  sortedb desc_createdAt ls = true -> newestFirst ls.
Proof.
  unfold newestFirst. induction ls as [|l rest IH]; intros Hs; [constructor|].
  constructor.
  - apply IH. exact (sortedb_tail _ _ _ _ Hs).
  - eapply Forall_impl;
      [|exact (sortedb_all_after _ _ desc_createdAt_trans _ _ Hs)].
    intros other. apply desc_createdAt_notOlder.
Qed.

Lemma newestFirst_orderBy (ls : list License.t) :
  newestFirst (orderBy desc_createdAt ls).
Proof.
  apply newestFirst_sorted. exact (sortedb_orderBy _ _ desc_createdAt_total _).
Qed.

(** ** Search *)
Lemma filter_all (A : Type) (l : list A) : filter (fun _ => true) l = l.
Proof. induction l as [|x l' IH]; simpl; congruence. Qed.

Lemma filter_twice (A : Type) (p q : A -> bool) (l : list A) :
  filter q (filter p l) = filter (fun x => p x && q x) l.
Proof.
  induction l as [|x l' IH]; [reflexivity|].
  simpl. destruct (p x); simpl; [destruct (q x)|]; congruence.
Qed.

Lemma License_eqb_eq (a b : License.t) : License_eqb a b = true <-> a = b.
Proof.
  unfold License_eqb. destruct (License_eq_dec a b); intuition congruence.
Qed.

Lemma existsb_License_eqb (x : License.t) (l : list License.t) :
  existsb (License_eqb x) l = true <-> In x l.
Proof.
  rewrite existsb_exists. split.
  - intros [y [Hin Heq]]. apply License_eqb_eq in Heq. now subst.
  - intros Hin. exists x. split; [exact Hin|]. now apply License_eqb_eq.
Qed.

Lemma intersect_filter (p q : License.t -> bool) (rows : list License.t) :
  intersect (filter p rows) (filter q rows) = filter (fun x => p x && q x) rows.
Proof.
  unfold intersect. rewrite filter_twice.
  apply filter_ext_in. intros x Hin.
  destruct (p x); [simpl|reflexivity].
  destruct (q x) eqn:Hq.
  - apply existsb_License_eqb, filter_In. now split.
  - destruct (existsb (License_eqb x) (filter q rows)) eqn:He; [|reflexivity].
    apply existsb_License_eqb, filter_In in He. destruct He. congruence.
Qed.

Lemma searchLicenses_filter (filters : Filters.t) (db : Store) :
  searchLicenses filters db =
    filter (and_all (conditions filters)) (getAllLicenses db).
Proof.
  unfold searchLicenses, getAllLicenses.
  rewrite (filter_orderBy _ desc_createdAt desc_createdAt_total desc_createdAt_trans).
  destruct (conditions filters) as [|c cs]; [|reflexivity].
  unfold and_all. simpl. now rewrite filter_all.
Qed.

Lemma and_all_app (A : Type) (cs ds : list (A -> bool)) (x : A) :
  and_all (cs ++ ds) x = and_all cs x && and_all ds x.
Proof. unfold and_all. apply forallb_app. Qed.

Lemma conditions_split (filters : Filters.t) (l : License.t) :
  and_all (conditions filters) l =
    and_all (conditions (onlySearch filters)) l &&
    (and_all (conditions (onlyTeam filters)) l &&
     (and_all (conditions (onlyVendor filters)) l &&
      and_all (conditions (onlyStatus filters)) l)).
Proof.
  unfold conditions. simpl.
  rewrite !and_all_app.
  destruct (truthy_string (Filters.search filters)),
           (truthy_string (Filters.teamId filters)),
           (truthy_string (Filters.vendorId filters)),
           (truthy_string (Filters.status filters));
    unfold and_all; simpl; rewrite ?andb_true_r; reflexivity.
Qed.

(** *** The text filter is a substring test *)
Lemma like_match_run (ts : list like_token) (v : string) :
  like_match (AnyRun :: ts) v =
    like_match ts v ||
    match v with
    | String _ v' => like_match (AnyRun :: ts) v'
    | EmptyString => false
    end.
Proof. destruct v; reflexivity. Qed.

Lemma like_match_run_iff (ts : list like_token) (v : string) :
  like_match (AnyRun :: ts) v = true <->
    exists a b, v = a ++ b /\ like_match ts b = true.
Proof.
  induction v as [|c v' IH]; rewrite like_match_run, orb_true_iff.
  - split.
    + intros [H|H]; [|discriminate]. now exists "", "".
    + intros [a [b [Hv Hm]]]. left.
      destruct a; [|discriminate]. simpl in Hv. now subst b.
  - rewrite IH. split.
    + intros [H|[a [b [Hv Hm]]]].
      * now exists "", (String c v').
      * exists (String c a), b. simpl. now rewrite Hv.
    + intros [a [b [Hv Hm]]]. destruct a as [|d a'].
      * left. simpl in Hv. now subst b.
      * right. simpl in Hv. injection Hv as _ Hv. now exists a', b.
Qed.

Lemma like_match_any (v : string) : like_match [AnyRun] v = true.
Proof.
  apply like_match_run_iff. exists v, "". split; [|reflexivity].
  induction v as [|c v' IH]; simpl; congruence.
Qed.

Lemma like_tokens_plain (s rest : string) :
  plainSearch s = true ->
  like_tokens (s ++ rest) =
    (map Lit (list_ascii_of_string s) ++ like_tokens rest)%list.
Proof.
  induction s as [|c s' IH]; intros Hp; [reflexivity|].
  cbn [plainSearch] in Hp. rewrite !andb_true_iff, !negb_true_iff in Hp.
  destruct Hp as [[[H1 H2] H3] Hp].
  cbn [append like_tokens list_ascii_of_string map app].
  rewrite H1, H2, H3. f_equal. now apply IH.
Qed.

Lemma like_match_literals (s : string) (ts : list like_token) (v : string) :
  like_match (map Lit (list_ascii_of_string s) ++ ts) v = true <->
    exists rest, v = s ++ rest /\ like_match ts rest = true.
Proof.
  revert v. induction s as [|c s' IH]; intros v.
  - simpl. split.
    + intros H. now exists v.
    + intros [rest [-> H]]. exact H.
  - cbn [list_ascii_of_string map app like_match]. destruct v as [|d v'].
    + split; [discriminate|]. intros [rest [H _]]. discriminate.
    + rewrite andb_true_iff, Ascii.eqb_eq, IH. split.
      * intros [<- [rest [-> H]]]. now exists rest.
      * intros [rest [Hv H]]. simpl in Hv. injection Hv as <- ->.
        split; [reflexivity|now exists rest].
Qed.

(** For a search string without pattern characters, the filter keeps the
    names that contain it. *)
Lemma like_plain_substring (s name : string) :
  plainSearch s = true ->
  like name ("%" ++ s ++ "%") = true <-> isSubstring s name.
Proof.
  intros Hp. unfold like, isSubstring.
  assert (Htokens : like_tokens ("%" ++ s ++ "%") =
                    AnyRun :: (map Lit (list_ascii_of_string s) ++ [AnyRun])%list).
  { change ("%" ++ s ++ "%") with (String "%"%char (s ++ "%")).
    change (like_tokens (String "%"%char (s ++ "%")))
      with (AnyRun :: like_tokens (s ++ "%")).
    now rewrite (like_tokens_plain s "%" Hp). }
  rewrite Htokens, like_match_run_iff. split.
  - intros [a [b [-> Hm]]].
    apply like_match_literals in Hm. destruct Hm as [rest [-> _]].
    now exists a, rest.
  - intros [a [b ->]]. exists a, (s ++ b). split; [reflexivity|].
    apply like_match_literals. exists b. split; [reflexivity|].
    apply like_match_any.
Qed.

(** The row predicates one by one: the pattern match on the
    name, and equality on the team, the vendor and the status. *)
Lemma and_all_optional (present : bool) (c : License.t -> bool) (l : License.t) :
  and_all (if present then [c] else []) l = true <->
    (present = true -> c l = true).
Proof.
  unfold and_all. destruct present; simpl; rewrite ?andb_true_r;
    intuition congruence.
Qed.

Lemma opt_eqb_string (x y : option string) :
  opt_eqb String.eqb x y = true <-> x = y.
Proof.
  destruct x as [a|], y as [b|]; simpl; rewrite ?String.eqb_eq;
    intuition congruence.
Qed.

Lemma searchLicenses_members (filters : Filters.t) (db : Store) (l : License.t) :
  In l (searchLicenses filters db) <->
    In l (licenses db) /\
    (truthy_string (Filters.search filters) = true ->
       exists s, Filters.search filters = Some s /\
                 like (License.softwareName l) ("%" ++ s ++ "%") = true) /\
    (truthy_string (Filters.teamId filters) = true ->
       Filters.teamId filters = Some (License.teamId l)) /\
    (truthy_string (Filters.vendorId filters) = true ->
       Filters.vendorId filters = Some (License.vendorId l)) /\
    (truthy_string (Filters.status filters) = true ->
       Filters.status filters = License.status l).
Proof.
  rewrite searchLicenses_filter, filter_In. unfold getAllLicenses.
  rewrite In_orderBy. unfold conditions.
  rewrite !and_all_app, !andb_true_iff, !and_all_optional, !opt_eqb_string.
  assert (Hs : (truthy_string (Filters.search filters) = true ->
                like (License.softwareName l)
                  ("%" ++ match Filters.search filters with Some s => s | None => "" end
                       ++ "%") = true) <->
               (truthy_string (Filters.search filters) = true ->
                exists s, Filters.search filters = Some s /\
                  like (License.softwareName l) ("%" ++ s ++ "%") = true)).
  { destruct (Filters.search filters) as [s|]; simpl.
    - split; intros H Ht; [exists s; auto|].
      destruct (H Ht) as [s' [Hs' Hl]]. now injection Hs' as <-.
    - split; intros _ Ht; discriminate. }
  rewrite Hs. intuition congruence.
Qed.

Lemma truthy_present (field : option string) :
  truthy_string field = true <-> exists value, present field value.
Proof.
  unfold truthy_string, present. destruct field as [s|].
  - rewrite negb_true_iff, String.eqb_neq. split.
    + intros Hne. exists s. now split.
    + intros [value [Heq Hne]]. now injection Heq as ->.
  - split; [discriminate|]. intros [value [Heq _]]. discriminate.
Qed.

Lemma present_filter (field : option string) (P : string -> Prop) :
  (truthy_string field = true -> exists s, field = Some s /\ P s) <->
  (forall s, present field s -> P s).
Proof.
  split.
  - intros H s [Heq Hne].
    destruct H as [s' [Heq' Hs']]; [apply truthy_present; now exists s|].
    rewrite Heq in Heq'. now injection Heq' as <-.
  - intros H Ht. apply truthy_present in Ht. destruct Ht as [s Hs].
    exists s. split; [exact (proj1 Hs)|now apply H].
Qed.

(** C3, as the code has it.  [searchLicenses] is the conjunction of the
    predicates of the filters that are present, a filter that is left out
    or empty being ignored: for every store and every combination of
    filters the result is the intersection, in order, of the results of
    the four searches that each keep one of the filters; with no filter
    it is the list [getAllLicenses] returns; and the result is ordered by
    creation time, newest first.  A license is in the result exactly when
    it passes every filter that is present: the pattern match
    [softwareName LIKE '%search%'], and equality on the team, the vendor
    and the status.  For a search string without pattern characters the
    pattern match is the test that the name contains it. *)
Theorem searchLicenses_and_composition :
  forall (filters : Filters.t) (db : Store),
    searchLicenses filters db =
      intersect (searchLicenses (onlySearch filters) db)
        (intersect (searchLicenses (onlyTeam filters) db)
           (intersect (searchLicenses (onlyVendor filters) db)
                      (searchLicenses (onlyStatus filters) db)))
    /\ searchLicenses noFilters db = getAllLicenses db
    /\ newestFirst (searchLicenses filters db)
    /\ (forall l,
          In l (searchLicenses filters db) <->
            In l (licenses db) /\
            (forall s, present (Filters.search filters) s ->
               like (License.softwareName l) ("%" ++ s ++ "%") = true) /\
            (forall team, present (Filters.teamId filters) team ->
               License.teamId l = team) /\
            (forall vendor, present (Filters.vendorId filters) vendor ->
               License.vendorId l = vendor) /\
            (forall status, present (Filters.status filters) status ->
               License.status l = Some status))
    /\ (forall s name,
          plainSearch s = true ->
          like name ("%" ++ s ++ "%") = true <-> isSubstring s name).
Proof.
  intros filters db. split; [|split; [|split; [|split]]].
  - rewrite !searchLicenses_filter, !intersect_filter.
    apply filter_ext. intros l. apply conditions_split.
  - reflexivity.
  - unfold searchLicenses. apply newestFirst_orderBy.
  - intros l. rewrite searchLicenses_members.
    rewrite (present_filter (Filters.search filters)
               (fun s => like (License.softwareName l) ("%" ++ s ++ "%") = true)).
    assert (Ht : (truthy_string (Filters.teamId filters) = true ->
                  Filters.teamId filters = Some (License.teamId l)) <->
                 (forall team, present (Filters.teamId filters) team ->
                    License.teamId l = team)).
    { rewrite <- (present_filter (Filters.teamId filters)
                    (fun team => License.teamId l = team)).
      split; intros H Htruthy.
      - exists (License.teamId l). split; [now apply H|reflexivity].
      - destruct (H Htruthy) as [s [Hs <-]]. exact Hs. }
    assert (Hv : (truthy_string (Filters.vendorId filters) = true ->
                  Filters.vendorId filters = Some (License.vendorId l)) <->
                 (forall vendor, present (Filters.vendorId filters) vendor ->
                    License.vendorId l = vendor)).
    { rewrite <- (present_filter (Filters.vendorId filters)
                    (fun vendor => License.vendorId l = vendor)).
      split; intros H Htruthy.
      - exists (License.vendorId l). split; [now apply H|reflexivity].
      - destruct (H Htruthy) as [s [Hs <-]]. exact Hs. }
    assert (Hst : (truthy_string (Filters.status filters) = true ->
                   Filters.status filters = License.status l) <->
                  (forall status, present (Filters.status filters) status ->
                     License.status l = Some status)).
    { rewrite <- (present_filter (Filters.status filters)
                    (fun status => License.status l = Some status)).
      split; intros H Htruthy.
      - specialize (H Htruthy). apply truthy_present in Htruthy.
        destruct Htruthy as [s [Hs _]]. exists s. split; [exact Hs|congruence].
      - destruct (H Htruthy) as [s [Hs Hl]]. congruence. }
    rewrite Ht, Hv, Hst. reflexivity.
  - intros s name. apply like_plain_substring.
Qed.

Lemma searchLicenses_and_composition_witness :
  In (sampleLicense "a" "Zoom" 3)
     (searchLicenses (Filters.mk (Some "oo") (Some "t1") None (Some "active"))
                     searchExample)
  /\ isSubstring "oo" "Zoom".
Proof.
  pose proof (searchLicenses_and_composition
                (Filters.mk (Some "oo") (Some "t1") None (Some "active"))
                searchExample) as [_ [_ [_ [Hmem Hsub]]]].
  split.
  - apply Hmem. split; [now left|].
    split; [intros s [Hs _]; injection Hs as <-; reflexivity|].
    split; [intros s [Hs _]; injection Hs as <-; reflexivity|].
    split; [intros s [Hs _]; discriminate|].
    intros s [Hs _]. injection Hs as <-. reflexivity.
  - apply (Hsub "oo" "Zoom"); reflexivity.
Defined.

(** The search is a pattern, not a substring test.  The search ["_oo"]
    finds "Zoom", which does not contain it; and the search ["a\b"]
    does not find a license named ["a\b"], which does contain it. *)
Lemma searchLicenses_not_substring :
  In (sampleLicense "a" "Zoom" 3)
     (searchLicenses (Filters.mk (Some "_oo") None None None) searchExample)
  /\ ~ isSubstring "_oo" "Zoom"
  /\ isSubstring "a\b" "a\b"
  /\ searchLicenses (Filters.mk (Some "a\b") None None None)
                    (sampleStore [sampleLicense "a" "a\b" 1]) = [].
Proof.
  split; [vm_compute; now left|]. split; [|split].
  - intros [before [after Heq]].
    destruct before as [|c1 [|c2 [|c3 [|c4 [|c5 before]]]]]; cbn in Heq;
      congruence.
  - exists "", "". reflexivity.
  - vm_compute. reflexivity.
Qed.

Example searchLicenses_example :
  map License.id
      (searchLicenses (Filters.mk (Some "oo") None None None) searchExample) =
    ["a"; "b"]
  /\ map License.id
        (searchLicenses (Filters.mk (Some "_oo") None None None) searchExample) =
      ["a"; "b"]
  /\ map License.id (searchLicenses noFilters searchExample) = ["a"; "b"; "c"].
Proof. vm_compute. repeat split. Qed.

(** ** The expiry window *)
Lemma utcDay_addDays (t days : Z) :
  utcDay (t + days * msPerDay) = utcDay t + days.
Proof. unfold utcDay, msPerDay. now rewrite Z.div_add by lia. Qed.

Lemma addDays_fixed (LocalTZA : Z -> bool -> Z) (offset t days : Z) :
  (forall instant isUTC, LocalTZA instant isUTC = offset) ->
  addDays LocalTZA t days = TimeClip (t + days * msPerDay).
Proof.
  intros Hfixed. unfold addDays, UTC, LocalTime. rewrite !Hfixed.
  f_equal. lia.
Qed.

Lemma addDays_valid (LocalTZA : Z -> bool -> Z) (offset t days : Z) :
  (forall instant isUTC, LocalTZA instant isUTC = offset) ->
  Z.abs (t + days * msPerDay) <= maxTime ->
  addDays LocalTZA t days = Some (t + days * msPerDay).
Proof.
  intros Hfixed H. rewrite (addDays_fixed _ offset) by exact Hfixed.
  unfold TimeClip. now rewrite (proj2 (Z.leb_le _ _) H).
Qed.

Lemma isoDate_param_ok (day : Z) :
  isoDay 1 1 1 <= day <= isoDay 9999 12 31 -> isoDate_param day = Ok day.
Proof.
  intros [Hlo Hhi]. unfold isoDate_param.
  now rewrite (proj2 (Z.leb_le _ _) Hlo), (proj2 (Z.leb_le _ _) Hhi).
Qed.

Lemma isoDate_param_value (day d : Z) :
  isoDate_param day = Ok d -> d = day /\ isoDay 1 1 1 <= day <= isoDay 9999 12 31.
Proof.
  unfold isoDate_param.
  destruct (Z.leb_spec (isoDay 1 1 1) day) as [Hlo|Hlo]; [|discriminate].
  destruct (Z.leb_spec day (isoDay 9999 12 31)) as [Hhi|Hhi]; [|discriminate].
  cbn [andb]. intros Hok. injection Hok as <-. now split.
Qed.

Lemma isoDate_param_error (day : Z) (e : error) :
  isoDate_param day = Err e ->
  e = StoreError /\ ~ (isoDay 1 1 1 <= day <= isoDay 9999 12 31).
Proof.
  unfold isoDate_param.
  destruct (Z.leb_spec (isoDay 1 1 1) day) as [Hlo|Hlo];
    destruct (Z.leb_spec day (isoDay 9999 12 31)) as [Hhi|Hhi]; cbn [andb];
    try discriminate; intros Herr; injection Herr as <-;
    split; try reflexivity; lia.
Qed.

(** The rows the query keeps, between the two days it is given. *)
Lemma expiring_filter (lower upper : Z) (rows : list License.t) :
  filter (fun l =>
            date_le (License.expiryDate l) upper &&
            date_ge (License.expiryDate l) lower &&
            opt_eqb String.eqb (License.status l) (Some "active")) rows =
  filter (expiresBetween lower upper) rows.
Proof.
  apply filter_ext. intros l. unfold expiresBetween, date_le, date_ge.
  destruct (License.expiryDate l) as [d|]; simpl.
  - destruct (opt_eqb String.eqb (License.status l) (Some "active"));
      destruct (d <=? upper), (lower <=? d); reflexivity.
  - now rewrite andb_false_r.
Qed.

Lemma expiresBetween_iff (lower upper : Z) (l : License.t) :
  expiresBetween lower upper l = true <->
    License.status l = Some "active" /\
    exists d, License.expiryDate l = Some d /\ lower <= d <= upper.
Proof.
  unfold expiresBetween. rewrite andb_true_iff, opt_eqb_string.
  destruct (License.expiryDate l) as [d|].
  - rewrite andb_true_iff, !Z.leb_le. split.
    + intros [Hst Hd]. split; [exact Hst|]. exists d. split; [reflexivity|lia].
    + intros [Hst [d' [Hd' Hw]]]. injection Hd' as <-. split; [exact Hst|lia].
  - split; [intros [_ H]; discriminate|].
    intros [_ [d [H _]]]. discriminate.
Qed.

Lemma getExpiringLicenses_between (LocalTZA : Z -> bool -> Z)
    (now now' days futureDate : Z) (db : Store) :
  addDays LocalTZA now days = Some futureDate ->
  isoDay 1 1 1 <= utcDay futureDate <= isoDay 9999 12 31 ->
  isoDay 1 1 1 <= utcDay now' <= isoDay 9999 12 31 ->
  getExpiringLicenses LocalTZA now now' days db =
    Ok (filter (expiresBetween (utcDay now') (utcDay futureDate)) (licenses db)).
Proof.
  intros Hfuture Hupper Hlower. unfold getExpiringLicenses.
  rewrite Hfuture, (isoDate_param_ok _ Hupper), (isoDate_param_ok _ Hlower).
  cbn [bind]. now rewrite expiring_filter.
Qed.

Lemma expiringDays_absent : expiringDays None = 30.
Proof. reflexivity. Qed.


(** The example of the specification, on a server whose zone is UTC: on
    2024-01-01 an active license expiring 2024-01-15 is returned; an
    active one expiring 2024-03-01 and a cancelled one expiring
    2024-01-10 are not. *)
Example getExpiringLicenses_example :
  getExpiringLicenses (fixedZone 0) (noon (isoDay 2024 1 1))
                      (noon (isoDay 2024 1 1)) 30
                      (sampleStore expiringExample) =
    Ok [withExpiry "active" (isoDay 2024 1 15) (sampleLicense "a" "Zoom" 1)].
Proof. vm_compute. reflexivity. Qed.



(** ** The [days] parameter of the expiring route *)
Lemma orDefault_nonzero (n : option Z) (fallback : Z) :
  fallback <> 0 -> orDefault n fallback <> 0.
Proof.
  intros Hf. unfold orDefault. destruct n as [z|]; [|exact Hf].
  destruct (Z.eqb_spec z 0); assumption.
Qed.

(** C10.  At [GET /api/analytics/expiring] a [days] parameter that is
    absent, that does not start with a number, or that parses to 0 is
    replaced by 30, so [getExpiringLicenses] is never called with
    [days = 0] from the route. *)
Theorem expiringDays_never_zero :
  forall (days : option qs_value),
    expiringDays days <> 0
    /\ (days = None -> expiringDays days = 30)
    /\ (parseInt (paramString days) = None -> expiringDays days = 30)
    /\ (parseInt (paramString days) = Some 0 -> expiringDays days = 30)
    /\ (forall (LocalTZA : Z -> bool -> Z) (now now' : Z) (db : Store),
          get_expiring LocalTZA now now' days db =
            match getExpiringLicenses LocalTZA now now' (expiringDays days) db with
            | Ok found => Json 200 found
            | Err _ => Message 500 "Failed to fetch expiring licenses"
            end).
Proof.
  intros days. repeat split.
  - apply orDefault_nonzero. discriminate.
  - intros ->. reflexivity.
  - intros H. unfold expiringDays. now rewrite H.
  - intros H. unfold expiringDays. now rewrite H.
Qed.

Lemma expiringDays_never_zero_witness :
  expiringDays None = 30 /\
  expiringDays (Some (QString "soon")) = 30 /\
  expiringDays (Some (QString "0")) = 30.
Proof.
  split; [|split].
  - apply (proj1 (proj2 (expiringDays_never_zero None))). reflexivity.
  - apply (proj1 (proj2 (proj2 (expiringDays_never_zero (Some (QString "soon")))))).
    reflexivity.
  - apply (proj1 (proj2 (proj2 (proj2 (expiringDays_never_zero (Some (QString "0"))))))).
    reflexivity.
Defined.

Example expiringDays_examples :
  expiringDays (Some (QString "7")) = 7 /\
  expiringDays (Some (QString "-0")) = 30 /\
  expiringDays (Some (QString "0.9")) = 30 /\
  expiringDays (Some (QArray [QString "14"; QString "2"])) = 14 /\
  expiringDays (Some (QObject [("a", QString "1")])) = 30.
Proof. vm_compute. repeat split. Qed.

(** ** Vendors: get-or-create *)
Lemma existsb_eqb_In (x : string) (l : list string) :
  existsb (String.eqb x) l = true <-> In x l.
Proof.
  rewrite existsb_exists. split.
  - intros [y [Hin Heq]]. apply String.eqb_eq in Heq. now subst.
  - intros Hin. exists x. split; [exact Hin|apply String.eqb_refl].
Qed.

Lemma existsb_eqb_false (x : string) (l : list string) :
  existsb (String.eqb x) l = false <-> ~ In x l.
Proof.
  rewrite <- existsb_eqb_In. destruct (existsb (String.eqb x) l);
    intuition congruence.
Qed.

Lemma uniqueb_NoDup (l : list string) : uniqueb l = true <-> NoDup l.
Proof.
  induction l as [|x r IH]; simpl.
  - split; [constructor|reflexivity].
  - rewrite andb_true_iff, negb_true_iff, existsb_eqb_false, IH.
    split.
    + intros [Hn Hr]. now constructor.
    + intros H. inversion H; subst. now split.
Qed.

Lemma uniqueb_snoc (l : list string) (x : string) :
  uniqueb l = true -> ~ In x l -> uniqueb (l ++ [x]) = true.
Proof.
  rewrite !uniqueb_NoDup. intros Hl Hx.
  apply NoDup_app; [exact Hl|repeat constructor; intros []|].
  intros y Hy [<-|[]]. contradiction.
Qed.

Lemma vendorsNamed_none (name : string) (db : Store) :
  vendorsNamed name db = [] -> ~ In name (map Vendor.name (vendors db)).
Proof.
  unfold vendorsNamed. intros Hnone Hin.
  apply in_map_iff in Hin. destruct Hin as [v [Hname Hv]].
  assert (Hf : In v (filter (fun v => String.eqb (Vendor.name v) name) (vendors db))).
  { apply filter_In. split; [exact Hv|]. now apply String.eqb_eq. }
  rewrite Hnone in Hf. contradiction.
Qed.

Lemma filter_name_unique (name : string) (vs : list Vendor.t) :
  NoDup (map Vendor.name vs) ->
  (List.length (filter (fun v => String.eqb (Vendor.name v) name) vs) <= 1)%nat.
Proof.
  induction vs as [|v vs' IH]; simpl; intros Hnd; [lia|].
  inversion Hnd as [|x l Hnotin Hnd']; subst.
  destruct (String.eqb_spec (Vendor.name v) name) as [Heq|Hne].
  - simpl.
    assert (Hnil : filter (fun v0 => String.eqb (Vendor.name v0) name) vs' = []).
    { destruct (filter (fun v0 => String.eqb (Vendor.name v0) name) vs')
        as [|w ws] eqn:Hf; [reflexivity|].
      exfalso. apply Hnotin.
      assert (Hw : In w (filter (fun v0 => String.eqb (Vendor.name v0) name) vs'))
        by (rewrite Hf; now left).
      apply filter_In in Hw. destruct Hw as [Hw Hwn].
      apply String.eqb_eq in Hwn. rewrite Heq, <- Hwn. now apply in_map. }
    rewrite Hnil. simpl. lia.
  - now apply IH.
Qed.

Lemma consistent_vendor_names (db : Store) :
  consistent db = true -> NoDup (map Vendor.name (vendors db)).
Proof.
  unfold consistent. rewrite !andb_true_iff.
  intros [[[[[_ _] _] Hn] _] _]. now apply uniqueb_NoDup.
Qed.

Lemma vendorsNamed_at_most_one (name : string) (db : Store) :
  consistent db = true -> (List.length (vendorsNamed name db) <= 1)%nat.
Proof.
  intros Hc. apply filter_name_unique. now apply consistent_vendor_names.
Qed.

Lemma license_ok_more_vendors (db : Store) (v : Vendor.t) (l : License.t) :
  license_ok db l = true ->
  license_ok (mkStore (teams db) (vendors db ++ [v]) (licenses db)) l = true.
Proof.
  unfold license_ok. simpl. rewrite !andb_true_iff.
  intros [[[Hv Ht] Hs] Hu]. repeat split; try assumption.
  rewrite map_app, existsb_app, Hv. reflexivity.
Qed.

Lemma consistent_add_vendor (db : Store) (v : Vendor.t) :
  consistent db = true ->
  ~ In (Vendor.id v) (map Vendor.id (vendors db)) ->
  ~ In (Vendor.name v) (map Vendor.name (vendors db)) ->
  consistent (mkStore (teams db) (vendors db ++ [v]) (licenses db)) = true.
Proof.
  unfold consistent. simpl. rewrite !andb_true_iff.
  intros [[[[[Hti Htn] Hvi] Hvn] Hli] Hok] Hid Hname.
  repeat split; try assumption.
  - rewrite map_app. now apply uniqueb_snoc.
  - rewrite map_app. now apply uniqueb_snoc.
  - rewrite forallb_forall in *. intros l Hl.
    now apply license_ok_more_vendors, Hok.
Qed.

Lemma vendorsNamed_snoc (name : string) (db : Store) (v : Vendor.t) :
  vendorsNamed name db = [] -> Vendor.name v = name ->
  vendorsNamed name (mkStore (teams db) (vendors db ++ [v]) (licenses db)) = [v].
Proof.
  unfold vendorsNamed. simpl. intros Hnone Hv.
  rewrite filter_app, Hnone. simpl.
  now rewrite (proj2 (String.eqb_eq _ _) Hv).
Qed.

(** Called twice in sequence with the same name, [getOrCreateVendor]
    returns the same vendor both times, the second call changes nothing,
    and exactly one vendor has that name afterwards.  An existing vendor is
    returned as it is; a created one has only its name filled in (besides
    the generated id and the time of creation). *)
Lemma getOrCreateVendor_twice :
  forall (uuid uuid' name : string) (now now' : Z) (db : Store),
    consistent db = true ->
    ~ In uuid (map Vendor.id (vendors db)) ->
    exists (v : Vendor.t) (db1 : Store),
      getOrCreateVendor uuid now name db = Ok (v, db1)
      /\ Vendor.name v = name
      /\ getOrCreateVendor uuid' now' name db1 = Ok (v, db1)
      /\ vendorsNamed name db1 = [v]
      /\ consistent db1 = true
      /\ (forall existing rest,
            vendorsNamed name db = existing :: rest -> v = existing /\ db1 = db)
      /\ (vendorsNamed name db = [] ->
            v = Vendor.mk uuid name None None (Some now) /\
            db1 = mkStore (teams db) (vendors db ++ [v]) (licenses db)).
Proof.
  intros uuid uuid' name now now' db Hc Hfresh.
  unfold getOrCreateVendor.
  destruct (vendorsNamed name db) as [|existing rest] eqn:Hsel.
  - set (v := Vendor.mk uuid name None None (Some now)).
    set (db1 := mkStore (teams db) (vendors db ++ [v]) (licenses db)).
    assert (Hc1 : consistent db1 = true).
    { apply consistent_add_vendor; [exact Hc|exact Hfresh|].
      now apply vendorsNamed_none. }
    assert (Hsel1 : vendorsNamed name db1 = [v])
      by (now apply vendorsNamed_snoc).
    exists v, db1. unfold createVendor, commit. simpl.
    fold v. fold db1. rewrite Hc1, Hsel1.
    split; [reflexivity|]. split; [reflexivity|]. split; [reflexivity|].
    split; [reflexivity|]. split; [reflexivity|]. split.
    + intros e r He. discriminate.
    + intros _. split; reflexivity.
  - assert (Hin : In existing (vendorsNamed name db))
      by (rewrite Hsel; now left).
    apply filter_In in Hin. destruct Hin as [_ Hname].
    apply String.eqb_eq in Hname.
    assert (Hrest : rest = []).
    { pose proof (vendorsNamed_at_most_one name db Hc) as Hlen.
      rewrite Hsel in Hlen. simpl in Hlen.
      destruct rest; [reflexivity|simpl in Hlen; lia]. }
    subst rest. exists existing, db. rewrite Hsel.
    split; [reflexivity|]. split; [exact Hname|]. split; [reflexivity|].
    split; [reflexivity|]. split; [exact Hc|]. split.
    + intros e r He. injection He as <- _. split; reflexivity.
    + intros He. discriminate.
Qed.

(** Statement by statement the call does what the method does. *)
Lemma step_call_twice (uuid name : string) (now : Z) (db : Store) :
  let '(c1, db1) := step_call uuid now (Selecting name) db in
  let '(c2, db2) := step_call uuid now c1 db1 in
  match getOrCreateVendor uuid now name db with
  | Ok (v, db') => c2 = Returned (Ok v) /\ db2 = db'
  | Err e => c2 = Returned (Err e) /\ db2 = db
  end.
Proof.
  unfold getOrCreateVendor. simpl.
  destruct (vendorsNamed name db) as [|existing rest]; simpl.
  - destruct (createVendor uuid now (InsertVendor.mk name None None) db)
      as [[v db']|e]; split; reflexivity.
  - split; reflexivity.
Qed.

Lemma step_call_consistent (uuid : string) (now : Z) (c : vendor_call) (db : Store) :
  consistent db = true -> consistent (snd (step_call uuid now c db)) = true.
Proof.
  intros Hc. destruct c as [name|name|r]; simpl; try assumption.
  - destruct (vendorsNamed name db); assumption.
  - unfold createVendor, commit.
    match goal with |- context [if consistent ?d then _ else _] =>
      destruct (consistent d) eqn:Hd end; simpl; assumption.
Qed.

Lemma interleave_consistent (uuid1 uuid2 : string) (now : Z)
    (schedule : list bool) (st : two_calls) :
  consistent (store st) = true ->
  consistent (store (interleave uuid1 uuid2 now schedule st)) = true.
Proof.
  revert st. induction schedule as [|b rest IH]; intros st Hc; [exact Hc|].
  simpl. destruct b.
  - pose proof (step_call_consistent uuid1 now (first st) (store st) Hc) as H.
    destruct (step_call uuid1 now (first st) (store st)) as [c db'].
    apply IH. exact H.
  - pose proof (step_call_consistent uuid2 now (second st) (store st) Hc) as H.
    destruct (step_call uuid2 now (second st) (store st)) as [c db'].
    apply IH. exact H.
Qed.

Lemma uniqueb_repeated (l : list string) (x : string) :
  In x l -> uniqueb (l ++ [x]) = false.
Proof.
  intros Hin. destruct (uniqueb (l ++ [x])) eqn:Hu; [|reflexivity].
  apply uniqueb_NoDup in Hu. exfalso.
  induction l as [|y l' IH]; [contradiction|].
  simpl in Hu. inversion Hu as [|z r Hnotin Hnd]; subst.
  destruct Hin as [->|Hin].
  - apply Hnotin, in_or_app. right. now left.
  - now apply IH.
Qed.

Lemma createVendor_name_taken (uuid name : string) (now : Z) (db : Store) :
  In name (map Vendor.name (vendors db)) ->
  createVendor uuid now (InsertVendor.mk name None None) db = Err StoreError.
Proof.
  intros Hin. unfold createVendor, commit, consistent. cbn [vendors InsertVendor.name].
  rewrite (map_app Vendor.name). cbn [map Vendor.name].
  rewrite (uniqueb_repeated _ _ Hin).
  now rewrite !andb_false_r.
Qed.

(** Two overlapping calls for a vendor the store does not have: both look
    before either inserts; the first insert succeeds and the second is
    rejected. *)
Lemma getOrCreateVendor_lost_race (uuid uuid' name : string) (now : Z) (db : Store) :
  consistent db = true ->
  ~ In uuid (map Vendor.id (vendors db)) ->
  vendorsNamed name db = [] ->
  let final := interleave uuid uuid' now [true; false; true; false]
                 (mkCalls (Selecting name) (Selecting name) db) in
  first final = Returned (Ok (Vendor.mk uuid name None None (Some now)))
  /\ second final = Returned (Err StoreError).
Proof.
  intros Hc Hfresh Hnone.
  set (v := Vendor.mk uuid name None None (Some now)).
  set (db1 := mkStore (teams db) (vendors db ++ [v]) (licenses db)).
  assert (Hc1 : consistent db1 = true).
  { apply consistent_add_vendor; [exact Hc|exact Hfresh|].
    now apply vendorsNamed_none. }
  assert (Hfirst : createVendor uuid now (InsertVendor.mk name None None) db =
                   Ok (v, db1)).
  { unfold createVendor, commit. cbn [InsertVendor.name InsertVendor.website
                                       InsertVendor.contactEmail].
    fold v. fold db1. now rewrite Hc1. }
  assert (Hsecond : createVendor uuid' now (InsertVendor.mk name None None) db1 =
                    Err StoreError).
  { apply createVendor_name_taken. unfold db1. cbn [vendors].
    rewrite map_app. apply in_or_app. right. now left. }
  cbn [interleave step_call first second store].
  rewrite Hnone. cbn [interleave step_call first second store].
  rewrite Hnone. cbn [interleave step_call first second store].
  rewrite Hfirst. cbn [interleave step_call first second store].
  rewrite Hsecond. cbn [interleave first second store].
  split; reflexivity.
Qed.

(** C8, as the code has it.  [getOrCreateVendor(name)] looks the vendor up
    by exact name, returns the existing row if there is one and otherwise
    creates one with only the name filled in; two calls in sequence with
    the same name return the same vendor, the second creates nothing, and
    exactly one vendor has that name afterwards.  When two calls overlap,
    however their statements interleave, the store never holds two vendors
    of that name; but when both look before either inserts, the call that
    inserts second is rejected by the store and fails. *)
Theorem getOrCreateVendor_idempotent :
  forall (uuid uuid' name : string) (now now' : Z) (db : Store),
    consistent db = true ->
    ~ In uuid (map Vendor.id (vendors db)) ->
    (exists (v : Vendor.t) (db1 : Store),
       getOrCreateVendor uuid now name db = Ok (v, db1)
       /\ Vendor.name v = name
       /\ getOrCreateVendor uuid' now' name db1 = Ok (v, db1)
       /\ vendorsNamed name db1 = [v]
       /\ (forall existing rest,
             vendorsNamed name db = existing :: rest -> v = existing /\ db1 = db)
       /\ (vendorsNamed name db = [] ->
             v = Vendor.mk uuid name None None (Some now) /\
             db1 = mkStore (teams db) (vendors db ++ [v]) (licenses db)))
    /\ (forall (schedule : list bool),
          (List.length
             (vendorsNamed name
                (store (interleave uuid uuid' now schedule
                          (mkCalls (Selecting name) (Selecting name) db)))) <= 1)%nat)
    /\ (vendorsNamed name db = [] ->
        let final := interleave uuid uuid' now [true; false; true; false]
                       (mkCalls (Selecting name) (Selecting name) db) in
        first final = Returned (Ok (Vendor.mk uuid name None None (Some now)))
        /\ second final = Returned (Err StoreError)).
Proof.
  intros uuid uuid' name now now' db Hc Hfresh. split; [|split].
  - destruct (getOrCreateVendor_twice uuid uuid' name now now' db Hc Hfresh)
      as [v [db1 [H1 [H2 [H3 [H4 [_ [H6 H7]]]]]]]].
    exists v, db1.
    split; [exact H1|]. split; [exact H2|]. split; [exact H3|].
    split; [exact H4|]. split; [exact H6|exact H7].
  - intros schedule. apply vendorsNamed_at_most_one.
    now apply interleave_consistent.
  - intros Hnone. now apply getOrCreateVendor_lost_race.
Qed.

Lemma getOrCreateVendor_idempotent_witness :
  exists (v : Vendor.t) (db1 : Store),
    getOrCreateVendor "v2" 5 "Globex" (sampleStore []) = Ok (v, db1)
    /\ Vendor.name v = "Globex"
    /\ getOrCreateVendor "v3" 6 "Globex" db1 = Ok (v, db1)
    /\ vendorsNamed "Globex" db1 = [v].
Proof.
  destruct (getOrCreateVendor_idempotent "v2" "v3" "Globex" 5 6 (sampleStore []))
    as [[v [db1 [H1 [H2 [H3 [H4 _]]]]]] _].
  - reflexivity.
  - simpl. intros [H|[]]. discriminate.
  - exists v, db1. repeat split; assumption.
Defined.

(** Two overlapping calls on a store without the vendor: both look, both
    find nothing, the first insert succeeds and the second is rejected by
    the unique name.  The second call fails; it does not return the
    vendor. *)
Lemma getOrCreateVendor_race :
  let final := interleave "v2" "v3" 5 [true; false; true; false]
                 (mkCalls (Selecting "Globex") (Selecting "Globex")
                          (sampleStore [])) in
  first final = Returned (Ok (Vendor.mk "v2" "Globex" None None (Some 5)))
  /\ second final = Returned (Err StoreError)
  /\ ~ (exists v1 v2, first final = Returned (Ok v1) /\
                      second final = Returned (Ok v2) /\
                      Vendor.id v1 = Vendor.id v2).
Proof.
  vm_compute. repeat split.
  intros [v1 [v2 [_ [H _]]]]. discriminate.
Qed.

(** ** Updating a license *)
Lemma find_filter_out (A : Type) (p : A -> bool) (l : list A) :
  find p (filter (fun x => negb (p x)) l) = None.
Proof.
  induction l as [|x l' IH]; [reflexivity|].
  simpl. destruct (p x) eqn:Hp; simpl; [exact IH|].
  now rewrite Hp.
Qed.

Lemma find_filter_keep (A : Type) (p q : A -> bool) (l : list A) :
  (forall x, p x = true -> q x = true) ->
  find p (filter q l) = find p l.
Proof.
  intros Hpq. induction l as [|x l' IH]; [reflexivity|].
  simpl. destruct (q x) eqn:Hq; simpl.
  - now rewrite IH.
  - destruct (p x) eqn:Hp; [|exact IH].
    rewrite (Hpq x Hp) in Hq. discriminate.
Qed.

Lemma filter_none_out (A : Type) (p : A -> bool) (l : list A) :
  find p l = None -> filter (fun x => negb (p x)) l = l.
Proof.
  induction l as [|x l' IH]; [reflexivity|].
  simpl. destruct (p x); [discriminate|]. simpl. intros H. now rewrite IH.
Qed.

Lemma license_ids_filter (keep : License.t -> bool) (rows : list License.t) :
  NoDup (map License.id rows) -> NoDup (map License.id (filter keep rows)).
Proof.
  induction rows as [|row rest IH]; intros Hids; [constructor|].
  cbn [map] in Hids. apply NoDup_cons_iff in Hids. destruct Hids as [Hfresh Hrest].
  cbn [filter]. destruct (keep row); [|now apply IH].
  cbn [map]. apply NoDup_cons; [|now apply IH].
  rewrite in_map_iff. intros [other [Hsame Hkept]].
  apply Hfresh, in_map_iff. exists other. split; [exact Hsame|].
  now apply filter_In in Hkept.
Qed.

Lemma find_snoc (A : Type) (p : A -> bool) (l : list A) (x : A) :
  find p (l ++ [x]) =
    match find p l with
    | Some y => Some y
    | None => if p x then Some x else None
    end.
Proof.
  induction l as [|y l' IH]; [reflexivity|].
  simpl. destruct (p y); [reflexivity|exact IH].
Qed.

Lemma find_id_absent (id : string) (rows : list License.t) :
  ~ In id (map License.id rows) ->
  find (fun l => String.eqb (License.id l) id) rows = None.
Proof.
  induction rows as [|r rows' IH]; intros Hn; [reflexivity|].
  simpl. destruct (String.eqb_spec (License.id r) id) as [Heq|Hne].
  - exfalso. apply Hn. now left.
  - apply IH. intros H. apply Hn. now right.
Qed.

Lemma NoDup_snoc_absent (A : Type) (l : list A) (x : A) :
  NoDup (l ++ [x]) -> ~ In x l.
Proof.
  intros Hnd Hin. apply NoDup_remove_2 in Hnd. apply Hnd.
  rewrite app_nil_r. exact Hin.
Qed.


Lemma numeric_in_error (text : string) (e : error) :
  numeric_in text = Err e -> e = StoreError.
Proof.
  unfold numeric_in.
  destruct (isNaNText (skipSpaces text)); [discriminate|].
  destruct (scanSign (skipSpaces text)) as [negative s1].
  destruct (numericMagnitude s1) as [cents|]; [|intros H; now injection H as <-].
  destruct (10 ^ 10 <=? cents); [|discriminate].
  intros H. now injection H as <-.
Qed.

Lemma storedCost_error (license : Patch.t) (e : error) :
  storedCost license = Err e -> e = StoreError.
Proof.
  unfold storedCost. destruct (Patch.cost license) as [text|]; [|discriminate].
  destruct (numeric_in text) as [n|e'] eqn:Hn; cbn [bind]; [discriminate|].
  intros H. injection H as <-. exact (numeric_in_error _ _ Hn).
Qed.

Lemma int4_param_error (n : option Z) (e : error) :
  int4_param n = Err e -> e = StoreError.
Proof.
  unfold int4_param. destruct n as [z|]; [|discriminate].
  destruct (int4_range z); [discriminate|]. intros H. now injection H as <-.
Qed.

Lemma bindPatch_error (license : Patch.t) (e : error) :
  bindPatch license = Err e -> e = StoreError.
Proof.
  unfold bindPatch.
  destruct (storedCost license) as [cost|e1] eqn:Hcost; cbn [bind];
    [|intros H; injection H as <-; exact (storedCost_error _ _ Hcost)].
  destruct (int4_param (Patch.totalSeats license)) as [[]|e2] eqn:Htotal;
    cbn [bind];
    [|intros H; injection H as <-; exact (int4_param_error _ _ Htotal)].
  destruct (int4_param match Patch.usedSeats license with
                       | Some (Some u) => Some u
                       | _ => None
                       end) as [[]|e3] eqn:Hused; cbn [bind]; [discriminate|].
  intros H. injection H as <-. exact (int4_param_error _ _ Hused).
Qed.

(** The store reads the values of a patch exactly when the cost, if one
    is supplied, is numeric text that fits the column and the supplied
    seat counts are 32-bit integers. *)
Lemma bindPatch_ok (license : Patch.t) (cost : option string) :
  bindPatch license = Ok cost <->
    storedCost license = Ok cost
    /\ (forall n, Patch.totalSeats license = Some n -> int4_range n = true)
    /\ (forall n, Patch.usedSeats license = Some (Some n) -> int4_range n = true).
Proof.
  unfold bindPatch, int4_param. split.
  - destruct (storedCost license) as [c|e]; cbn [bind]; [|discriminate].
    destruct (Patch.totalSeats license) as [t|].
    + destruct (int4_range t) eqn:Ht; cbn [bind]; [|discriminate].
      destruct (Patch.usedSeats license) as [[u|]|].
      * destruct (int4_range u) eqn:Hu; cbn [bind]; [|discriminate].
        intros H. injection H as <-. split; [reflexivity|].
        split; intros n Hn; injection Hn as <-; assumption.
      * intros H. injection H as <-. split; [reflexivity|].
        split; intros n Hn; [injection Hn as <-; assumption|discriminate].
      * intros H. injection H as <-. split; [reflexivity|].
        split; intros n Hn; [injection Hn as <-; assumption|discriminate].
    + cbn [bind]. destruct (Patch.usedSeats license) as [[u|]|].
      * destruct (int4_range u) eqn:Hu; cbn [bind]; [|discriminate].
        intros H. injection H as <-. split; [reflexivity|].
        split; intros n Hn; [discriminate|injection Hn as <-; assumption].
      * intros H. injection H as <-. split; [reflexivity|].
        split; intros n Hn; discriminate.
      * intros H. injection H as <-. split; [reflexivity|].
        split; intros n Hn; discriminate.
  - intros [-> [Htotal Hused]]. cbn [bind].
    destruct (Patch.totalSeats license) as [t|];
      [rewrite (Htotal t eq_refl)|]; cbn [bind];
      (destruct (Patch.usedSeats license) as [[u|]|];
       [rewrite (Hused u eq_refl)| |]); reflexivity.
Qed.

Lemma find_app_none (A : Type) (p : A -> bool) (l : list A) (x : A) :
  find p l = None -> find p (l ++ [x]) = if p x then Some x else None.
Proof. intros H. now rewrite find_snoc, H. Qed.

Lemma fieldApplied_supplied (A : Type) (field : option A) (old : A) :
  fieldApplied field old (supplied field old).
Proof. destruct field; reflexivity. Qed.

Lemma assign_onlySupplied (license : Patch.t) (cost : option string) (now : Z)
    (row : License.t) :
  onlySuppliedApplied license cost now row (assign license cost now row).
Proof.
  unfold onlySuppliedApplied, assign. simpl.
  repeat split; apply fieldApplied_supplied.
Qed.

Lemma find_none_filter (A : Type) (p : A -> bool) (l : list A) :
  find p l = None -> filter p l = [].
Proof.
  induction l as [|x l' IH]; simpl; [reflexivity|].
  destruct (p x); [discriminate|exact IH].
Qed.

Lemma filter_id_unique (id : string) (rows : list License.t) (row : License.t) :
  NoDup (map License.id rows) ->
  find (fun r => String.eqb (License.id r) id) rows = Some row ->
  filter (fun r => String.eqb (License.id r) id) rows = [row].
Proof.
  induction rows as [|r rows' IH]; simpl; intros Hnd Hfind; [discriminate|].
  inversion Hnd as [|x l Hnotin Hnd']; subst.
  destruct (String.eqb_spec (License.id r) id) as [Heq|Hne].
  - injection Hfind as <-. f_equal.
    destruct (filter (fun r0 => String.eqb (License.id r0) id) rows')
      as [|w ws] eqn:Hf; [reflexivity|].
    exfalso. apply Hnotin.
    assert (Hw : In w (filter (fun r0 => String.eqb (License.id r0) id) rows'))
      by (rewrite Hf; now left).
    apply filter_In in Hw. destruct Hw as [Hw Hwid].
    apply String.eqb_eq in Hwid. rewrite Heq, <- Hwid. now apply in_map.
  - now apply IH.
Qed.

Lemma find_In (A : Type) (p : A -> bool) (l : list A) (x : A) :
  find p l = Some x -> In x l /\ p x = true.
Proof. apply find_some. Qed.

Section UpdateAccepted.
Variables (db : Store) (id : string) (license : Patch.t)
          (cost : option string) (now : Z).
Hypothesis Haccepted : patchAccepted db id license = true.

Lemma assign_id (row : License.t) :
  License.id row = id -> License.id (assign license cost now row) = id.
Proof.
  intros Hrow. unfold assign. cbn [License.id].
  unfold patchAccepted in Haccepted. rewrite !andb_true_iff in Haccepted.
  destruct Haccepted as [[[[Hid _] _] _] _].
  destruct (Patch.id license) as [i|]; cbn [supplied]; [|exact Hrow].
  now apply String.eqb_eq in Hid.
Qed.

Lemma assign_ok (row : License.t) :
  license_ok db row = true -> license_ok db (assign license cost now row) = true.
Proof.
  unfold license_ok, assign. simpl.
  unfold patchAccepted in Haccepted. rewrite !andb_true_iff in Haccepted.
  destruct Haccepted as [[[[_ Hv] Ht] Hs] Hu].
  rewrite !andb_true_iff. intros [[[Hv0 Ht0] Hs0] Hu0].
  repeat split.
  - destruct (Patch.vendorId license); assumption.
  - destruct (Patch.teamId license); assumption.
  - destruct (Patch.totalSeats license); assumption.
  - destruct (Patch.usedSeats license) as [[u|]|]; simpl; auto.
Qed.

(** The store after the row with the id has been rewritten: the other
    rows, then the new version. *)
Lemma consistent_rewritten (row : License.t) :
  consistent db = true ->
  In row (licenses db) ->
  License.id row = id ->
  consistent
    (mkStore (teams db) (vendors db)
       (filter (fun r => negb (String.eqb (License.id r) id)) (licenses db) ++
        [assign license cost now row])) = true.
Proof.
  unfold consistent. cbn [teams vendors licenses]. rewrite !andb_true_iff.
  intros [[[[[Hti Htn] Hvi] Hvn] Hli] Hok] Hin Hrow.
  repeat split; try assumption.
  - rewrite map_app. cbn [map]. apply uniqueb_snoc.
    + apply uniqueb_NoDup, license_ids_filter. now apply uniqueb_NoDup.
    + rewrite (assign_id row Hrow). intros Hid.
      apply in_map_iff in Hid. destruct Hid as [r [Hr Hkept]].
      apply filter_In in Hkept. destruct Hkept as [_ Hne].
      apply negb_true_iff, String.eqb_neq in Hne. contradiction.
  - rewrite forallb_forall in *. intros r Hr.
    apply in_app_or in Hr. destruct Hr as [Hr|[<-|[]]].
    + apply filter_In in Hr. destruct Hr as [Hr _].
      specialize (Hok r Hr). unfold license_ok in *. exact Hok.
    + specialize (Hok row Hin).
      pose proof (assign_ok row) as Hassign.
      unfold license_ok in *. cbn [teams vendors] in *. now apply Hassign.
Qed.
End UpdateAccepted.




(** A seat count that does not fit the column fails the statement
    although no license has the id, and so does a cost that is not a
    number. *)
Example updateLicense_missing_id_unreadable :
  fst (put_license 9 "b"
         (Patch.mk None None None None None (Some 2147483648) None None None None
                   None None None None None None)
         (sampleStore [sampleLicense "a" "Zoom" 1])) =
    Message 500 "Failed to update license"
  /\ fst (put_license 9 "b"
            (Patch.mk None None None None None None None (Some "abc") None None
                      None None None None None None)
            (sampleStore [sampleLicense "a" "Zoom" 1])) =
       Message 500 "Failed to update license".
Proof. split; reflexivity. Qed.

(** ** Duplicate detection *)
Lemma In_firstSeen (k : string) (keys : list string) :
  In k (firstSeen keys) <-> In k keys.
Proof.
  induction keys as [|x rest IH]; simpl; [tauto|].
  rewrite filter_In, IH, negb_true_iff.
  destruct (String.eqb_spec k x) as [->|Hne]; intuition congruence.
Qed.

Lemma NoDup_filter (A : Type) (p : A -> bool) (l : list A) :
  NoDup l -> NoDup (filter p l).
Proof.
  induction 1 as [|x l Hx Hnd IH]; simpl; [constructor|].
  destruct (p x); [|exact IH].
  constructor; [|exact IH]. rewrite filter_In. tauto.
Qed.

Lemma NoDup_firstSeen (keys : list string) : NoDup (firstSeen keys).
Proof.
  induction keys as [|x rest IH]; simpl; constructor.
  - rewrite filter_In, String.eqb_refl. simpl. intros [_ H]. discriminate.
  - now apply NoDup_filter.
Qed.

Lemma firstSeen_snoc (keys : list string) (k : string) :
  firstSeen (keys ++ [k]) =
    if existsb (String.eqb k) keys then firstSeen keys
    else (firstSeen keys ++ [k])%list.
Proof.
  induction keys as [|x rest IH]; [reflexivity|].
  simpl. rewrite IH.
  destruct (String.eqb_spec k x) as [->|Hne]; simpl.
  - destruct (existsb (String.eqb x) rest); [reflexivity|].
    rewrite filter_app. simpl. rewrite String.eqb_refl. simpl.
    now rewrite app_nil_r.
  - destruct (existsb (String.eqb k) rest); [reflexivity|].
    rewrite filter_app. simpl.
    now rewrite (proj2 (String.eqb_neq k x) Hne).
Qed.

Lemma membersOf_snoc (key : string) (ls : list License.t) (l : License.t) :
  membersOf key (ls ++ [l]) =
    (membersOf key ls ++ if String.eqb (groupKey l) key then [l] else [])%list.
Proof.
  unfold membersOf. rewrite filter_app. simpl.
  destruct (String.eqb (groupKey l) key); reflexivity.
Qed.

Lemma membersOf_absent (key : string) (ls : list License.t) :
  ~ In key (map groupKey ls) -> membersOf key ls = [].
Proof.
  intros Hn. unfold membersOf.
  induction ls as [|l ls' IH]; [reflexivity|].
  simpl. destruct (String.eqb_spec (groupKey l) key) as [Heq|Hne].
  - exfalso. apply Hn. left. exact Heq.
  - apply IH. intros H. apply Hn. now right.
Qed.

Section Entries.
Variable V : Type.
Variable f : string -> V.

Let entry (k : string) : string * V := (k, f k).

Lemma own_entries (keys : list string) (k : string) :
  own (map entry keys) k = if existsb (String.eqb k) keys then Some (f k) else None.
Proof.
  unfold own. induction keys as [|x rest IH]; [reflexivity|].
  simpl. rewrite (String.eqb_sym k x).
  destruct (String.eqb_spec x k) as [->|Hne]; [reflexivity|exact IH].
Qed.

Lemma set_absent (keys : list string) (k : string) (v : V) :
  ~ In k keys -> set (map entry keys) k v = (map entry keys ++ [(k, v)])%list.
Proof.
  induction keys as [|x rest IH]; intros Hn; [reflexivity|].
  simpl. destruct (String.eqb_spec x k) as [->|Hne].
  - exfalso. apply Hn. now left.
  - f_equal. apply IH. intros H. apply Hn. now right.
Qed.

Lemma set_present (keys : list string) (k : string) (v : V) :
  NoDup keys -> In k keys ->
  set (map entry keys) k v =
    map (fun x => (x, if String.eqb x k then v else f x)) keys.
Proof.
  induction keys as [|x rest IH]; intros Hnd Hin; [contradiction|].
  inversion Hnd as [|y l Hx Hnd']; subst.
  simpl. destruct (String.eqb_spec x k) as [->|Hne].
  - f_equal. apply map_ext_in. intros y Hy. unfold entry.
    destruct (String.eqb_spec y k) as [->|_]; [contradiction|reflexivity].
  - f_equal. apply IH; [exact Hnd'|].
    destruct Hin as [->|Hin]; [congruence|exact Hin].
Qed.

Lemma isIndexKey_entry (k : string) : isIndexKey (entry k) = isIndex k.
Proof. reflexivity. Qed.

Lemma filter_entries (p : string -> bool) (q : string * V -> bool)
    (keys : list string) :
  (forall k, q (entry k) = p k) ->
  filter q (map entry keys) = map entry (filter p keys).
Proof.
  intros Hpq. induction keys as [|x rest IH]; [reflexivity|].
  simpl. rewrite Hpq. destruct (p x); simpl; congruence.
Qed.

Lemma insert_row_entries (k : string) (keys : list string) :
  insert_row (@indexBefore V) (entry k) (map entry keys) =
    map entry (insert_row keyBefore k keys).
Proof.
  induction keys as [|x rest IH]; [reflexivity|].
  simpl. change (indexBefore (entry k) (entry x)) with (keyBefore k x).
  destruct (keyBefore k x); simpl; congruence.
Qed.

Lemma orderBy_entries (keys : list string) :
  orderBy (@indexBefore V) (map entry keys) = map entry (orderBy keyBefore keys).
Proof.
  induction keys as [|x rest IH]; [reflexivity|].
  simpl. rewrite IH. apply insert_row_entries.
Qed.

Lemma Object_entries_entries (keys : list string) :
  Object_entries (map entry keys) = map entry (entriesOrder keys).
Proof.
  unfold Object_entries, entriesOrder.
  rewrite (filter_entries isIndex) by reflexivity.
  rewrite (filter_entries (fun k => negb (isIndex k))) by reflexivity.
  now rewrite orderBy_entries, map_app.
Qed.
End Entries.

Lemma groupedBySoftware_snoc (ls : list License.t) (l : License.t) :
  groupedBySoftware (ls ++ [l]) =
    acc <- groupedBySoftware ls ;; groupStep acc l.
Proof. unfold groupedBySoftware. now rewrite fold_left_app. Qed.

(** With no key colliding with a member of [Object.prototype], the
    accumulator holds one entry per distinct key, in first-seen order,
    each with its members in list order. *)
Lemma groupedBySoftware_entries (ls : list License.t) :
  (forall l, In l ls ->
     existsb (String.eqb (groupKey l)) Object_prototype_keys = false) ->
  groupedBySoftware ls =
    Ok (map (fun k => (k, membersOf k ls)) (firstSeen (map groupKey ls))).
Proof.
  induction ls as [|l ls IH] using rev_ind; intros Hsafe; [reflexivity|].
  rewrite groupedBySoftware_snoc, IH
    by (intros x Hx; apply Hsafe, in_or_app; now left).
  simpl. unfold groupStep, get. fold (groupKey l).
  rewrite own_entries, map_app. cbn [map]. rewrite firstSeen_snoc.
  destruct (existsb (String.eqb (groupKey l)) (firstSeen (map groupKey ls)))
    eqn:Hseen.
  - assert (Hin : In (groupKey l) (firstSeen (map groupKey ls)))
      by (now apply existsb_eqb_In).
    assert (Hin' : existsb (String.eqb (groupKey l)) (map groupKey ls) = true)
      by (now apply existsb_eqb_In, In_firstSeen).
    rewrite Hin'. f_equal.
    rewrite (set_present _ (fun k => membersOf k ls)); [|apply NoDup_firstSeen|exact Hin].
    apply map_ext. intros k. rewrite membersOf_snoc, (String.eqb_sym k).
    destruct (String.eqb_spec (groupKey l) k) as [<-|_]; [reflexivity|].
    now rewrite app_nil_r.
  - assert (Hnin : ~ In (groupKey l) (firstSeen (map groupKey ls)))
      by (now apply existsb_eqb_false).
    assert (Hnin' : ~ In (groupKey l) (map groupKey ls))
      by (now rewrite <- In_firstSeen).
    rewrite (proj2 (existsb_eqb_false _ _) Hnin').
    rewrite (Hsafe l) by (apply in_or_app; right; now left).
    f_equal.
    rewrite (set_absent _ (fun k => membersOf k ls)) by exact Hnin.
    rewrite map_app. simpl. f_equal.
    + apply map_ext_in. intros k Hk. rewrite membersOf_snoc.
      destruct (String.eqb_spec (groupKey l) k) as [Heq|_].
      * subst k. contradiction.
      * now rewrite app_nil_r.
    + rewrite membersOf_snoc, String.eqb_refl.
      now rewrite (membersOf_absent _ _ Hnin').
Qed.

Lemma entriesOrder_no_index (keys : list string) :
  (forall k, In k keys -> arrayIndex k = None) -> entriesOrder keys = keys.
Proof.
  intros Hn. unfold entriesOrder.
  assert (H1 : filter isIndex keys = []).
  { induction keys as [|x rest IH]; [reflexivity|].
    simpl. unfold isIndex at 1. rewrite (Hn x) by now left.
    apply IH. intros k Hk. apply Hn. now right. }
  assert (H2 : filter (fun k => negb (isIndex k)) keys = keys).
  { induction keys as [|x rest IH]; [reflexivity|].
    simpl. unfold isIndex at 1. rewrite (Hn x) by now left. simpl.
    f_equal. apply IH.
    - intros k Hk. apply Hn. now right.
    - simpl in H1. unfold isIndex at 1 in H1. rewrite (Hn x) in H1 by now left.
      exact H1. }
  now rewrite H1, H2.
Qed.

Lemma In_getAllLicenses (l : License.t) (db : Store) :
  In l (getAllLicenses db) <-> In l (licenses db).
Proof. apply In_orderBy. Qed.

Lemma first_true (A : Type) (p : A -> bool) (l : list A) :
  existsb p l = true ->
  exists pre x post,
    l = (pre ++ x :: post)%list /\ p x = true /\
    (forall y, In y pre -> p y = false).
Proof.
  induction l as [|a l IH]; [discriminate|].
  cbn [existsb]. destruct (p a) eqn:Ha.
  - intros _. exists [], a, l. split; [reflexivity|]. split; [exact Ha|].
    intros y [].
  - cbn [orb]. intros H. destruct (IH H) as [pre [x [post [-> [Hx Hpre]]]]].
    exists (a :: pre), x, post. split; [reflexivity|]. split; [exact Hx|].
    intros y [<-|Hy]; [exact Ha|now apply Hpre].
Qed.

Lemma groupedBySoftware_failed (ls : list License.t) (e : error) :
  fold_left (fun acc license => acc' <- acc ;; groupStep acc' license) ls (Err e) =
    Err e.
Proof. induction ls as [|l ls IH]; [reflexivity|exact IH]. Qed.

Lemma groupedBySoftware_inherited (ls : list License.t) :
  existsb inheritedName ls = true -> groupedBySoftware ls = Err TypeError.
Proof.
  intros H. destruct (first_true _ _ _ H) as [pre [x [post [-> [Hx Hpre]]]]].
  unfold groupedBySoftware. rewrite fold_left_app. cbn [fold_left].
  change (fold_left (fun acc license => acc' <- acc ;; groupStep acc' license)
                    pre (Ok []))
    with (groupedBySoftware pre).
  rewrite groupedBySoftware_entries by exact Hpre.
  cbn [bind]. unfold groupStep, get. fold (groupKey x).
  rewrite own_entries.
  assert (Hnew : existsb (String.eqb (groupKey x)) (firstSeen (map groupKey pre)) =
                 false).
  { apply existsb_eqb_false. rewrite In_firstSeen. intros Hin.
    apply in_map_iff in Hin. destruct Hin as [y [Hy Hin]].
    specialize (Hpre y Hin). unfold inheritedName in Hpre, Hx.
    fold (groupKey y) in Hpre. fold (groupKey x) in Hx. congruence. }
  rewrite Hnew. unfold inheritedName in Hx. fold (groupKey x) in Hx. rewrite Hx.
  apply groupedBySoftware_failed.
Qed.

Lemma existsb_false_forall (A : Type) (p : A -> bool) (l : list A) :
  existsb p l = false -> forall x, In x l -> p x = false.
Proof.
  intros H x Hin. destruct (p x) eqn:Hp; [|reflexivity].
  rewrite <- H. symmetry. apply existsb_exists. now exists x.
Qed.

(** What [getDuplicateLicenses] returns when no lower-cased name is
    inherited. *)
Lemma getDuplicateLicenses_safe (db : Store) :
  existsb inheritedName (getAllLicenses db) = false ->
  getDuplicateLicenses db =
    Ok (duplicateGroups
          (entriesOrder (firstSeen (map groupKey (getAllLicenses db))))
          (getAllLicenses db)).
Proof.
  intros Hsafe. unfold getDuplicateLicenses.
  rewrite groupedBySoftware_entries
    by (exact (existsb_false_forall _ _ _ Hsafe)).
  cbn [bind]. f_equal.
  rewrite (Object_entries_entries _ (fun k => membersOf k (getAllLicenses db))).
  unfold duplicateGroups.
  rewrite (filter_entries _ (fun k => membersOf k (getAllLicenses db))
             (fun k => 2 <=? Z.of_nat (List.length (membersOf k (getAllLicenses db))))).
  - rewrite map_map. reflexivity.
  - intros k. cbn [snd].
    destruct (Z.ltb_spec 1 (Z.of_nat (List.length (membersOf k (getAllLicenses db)))));
      destruct (Z.leb_spec 2 (Z.of_nat (List.length (membersOf k (getAllLicenses db)))));
      try reflexivity; lia.
Qed.


(** The example of the specification: "Zoom", "zoom" and "Slack" give one
    group, under the key "zoom", with the two Zoom licenses. *)
Example getDuplicateLicenses_example :
  getDuplicateLicenses zoomExample =
    Ok [Duplicate.mk "zoom" [sampleLicense "a" "Zoom" 3; sampleLicense "b" "zoom" 2]].
Proof. vm_compute. reflexivity. Qed.



(** A license whose lower-cased name is a member of [Object.prototype]
    makes the reducer throw. *)
Lemma getDuplicateLicenses_inherited_key :
  getDuplicateLicenses (sampleStore [sampleLicense "a" "Constructor" 1]) =
    Err TypeError.
Proof. reflexivity. Qed.

(** ** Facts about binary64 rounding

    Rounding a non-zero value whose exponent is within the format never
    gives zero, so a sum of Numbers is a negative zero only when both
    terms are. *)
Lemma digits2_pos_bounds (p : positive) :
  2 ^ (Zpos (digits2_pos p) - 1) <= Zpos p < 2 ^ Zpos (digits2_pos p).
Proof.
  induction p as [p IH|p IH|]; cbn [digits2_pos].
  - rewrite Pos2Z.inj_succ.
    replace (Z.succ (Zpos (digits2_pos p)) - 1) with (Zpos (digits2_pos p) - 1 + 1) by lia.
    rewrite Z.pow_succ_r by lia.
    rewrite Z.pow_add_r by lia. change (2 ^ 1) with 2. lia.
  - rewrite Pos2Z.inj_succ.
    replace (Z.succ (Zpos (digits2_pos p)) - 1) with (Zpos (digits2_pos p) - 1 + 1) by lia.
    rewrite Z.pow_succ_r by lia.
    rewrite Z.pow_add_r by lia. change (2 ^ 1) with 2. lia.
  - vm_compute. split; [discriminate|reflexivity].
Qed.

Lemma iter_pos_nat (A : Type) (f : A -> A) (p : positive) (x : A) :
  iter_pos f p x = Nat.iter (Pos.to_nat p) f x.
Proof.
  revert x. induction p as [p IH|p IH|]; intros x; cbn [iter_pos].
  - rewrite !IH, Pos2Nat.inj_xI.
    replace (S (2 * Pos.to_nat p)) with (Pos.to_nat p + (Pos.to_nat p + 1))%nat by lia.
    rewrite !Nat.iter_add. reflexivity.
  - rewrite !IH, Pos2Nat.inj_xO.
    replace (2 * Pos.to_nat p)%nat with (Pos.to_nat p + Pos.to_nat p)%nat by lia.
    now rewrite Nat.iter_add.
  - reflexivity.
Qed.

Lemma shr_1_half (mrs : shr_record) :
  0 <= shr_m mrs -> shr_m (shr_1 mrs) = shr_m mrs / 2.
Proof.
  destruct mrs as [m r s]. cbn [shr_m]. intros Hm.
  destruct m as [|p|p]; [reflexivity| |lia].
  destruct p as [p|p|]; cbn [shr_1 shr_m].
  - rewrite Pos2Z.inj_xI. apply Z.div_unique with (r := 1); lia.
  - rewrite Pos2Z.inj_xO. apply Z.div_unique with (r := 0); lia.
  - reflexivity.
Qed.

Lemma shr_iter_nat (n : nat) (mrs : shr_record) :
  0 <= shr_m mrs ->
  shr_m (Nat.iter n shr_1 mrs) = shr_m mrs / 2 ^ Z.of_nat n.
Proof.
  intros Hm. induction n as [|n IH].
  - simpl. now rewrite Z.div_1_r.
  - rewrite Nat.iter_succ, shr_1_half.
    + rewrite IH, Nat2Z.inj_succ, Z.pow_succ_r by lia.
      rewrite Z.div_div by lia. f_equal. lia.
    + rewrite IH. apply Z.div_pos; lia.
Qed.

Lemma shr_iter_pos (p : positive) (mrs : shr_record) :
  0 <= shr_m mrs ->
  shr_m (iter_pos shr_1 p mrs) = shr_m mrs / 2 ^ Zpos p.
Proof.
  intros Hm. rewrite iter_pos_nat, shr_iter_nat by exact Hm.
  now rewrite positive_nat_Z.
Qed.

Lemma shr_record_of_loc_m (m : Z) (l : location) :
  shr_m (shr_record_of_loc m l) = m.
Proof. destruct l as [|[| |]]; reflexivity. Qed.

Lemma shr_fexp_exponent (m e : Z) (l : location) :
  emin prec emax <= snd (shr_fexp prec emax m e l).
Proof.
  unfold shr_fexp, shr, fexp.
  destruct (Z.max (Zdigits2 m + e - prec) (emin prec emax) - e) eqn:Hn;
    cbn [snd]; lia.
Qed.

Lemma shr_fexp_positive (m e : Z) (l : location) :
  0 < m -> emin prec emax <= e ->
  0 < shr_m (fst (shr_fexp prec emax m e l)).
Proof.
  intros Hm He. unfold shr_fexp, shr, fexp.
  destruct (Z.max (Zdigits2 m + e - prec) (emin prec emax) - e) as [|q|q] eqn:Hn;
    cbn [fst]; try (now rewrite shr_record_of_loc_m).
  rewrite shr_iter_pos by (rewrite shr_record_of_loc_m; lia).
  rewrite shr_record_of_loc_m.
  destruct m as [|p|p]; try lia.
  cbn [Zdigits2] in Hn.
  pose proof (digits2_pos_bounds p) as [Hlo _].
  assert (Hq : Zpos q <= Zpos (digits2_pos p) - 1)
    by (unfold emin, prec, emax in Hn, He; lia).
  apply Z.div_str_pos. split; [apply Z.pow_pos_nonneg; lia|].
  eapply Z.le_trans; [|exact Hlo].
  apply Z.pow_le_mono_r; lia.
Qed.

Lemma round_nearest_even_ge (m : Z) (l : location) :
  m <= round_nearest_even m l.
Proof.
  destruct l as [|[| |]]; cbn [round_nearest_even]; try lia.
  destruct (Z.even m); lia.
Qed.

Lemma binary_round_aux_exponent (s : bool) (m e : Z) (l : location) :
  exponentInRange (binary_round_aux prec emax s m e l).
Proof.
  unfold binary_round_aux.
  destruct (shr_fexp prec emax m e l) as [mrs' e'].
  pose proof (shr_fexp_exponent
                (round_nearest_even (shr_m mrs') (loc_of_shr_record mrs')) e'
                loc_Exact) as He.
  destruct (shr_fexp prec emax
              (round_nearest_even (shr_m mrs') (loc_of_shr_record mrs')) e'
              loc_Exact) as [mrs'' e''].
  cbn [snd] in He.
  destruct (shr_m mrs'') as [|p|p]; cbn [exponentInRange]; try exact I.
  destruct (e'' <=? emax - prec); [exact He|exact I].
Qed.

Lemma binary_round_aux_nonzero (s s' : bool) (m e : Z) (l : location) :
  0 < m -> emin prec emax <= e ->
  binary_round_aux prec emax s m e l <> S754_zero s'.
Proof.
  intros Hm He. unfold binary_round_aux.
  pose proof (shr_fexp_positive m e l Hm He) as H1.
  pose proof (shr_fexp_exponent m e l) as H2.
  destruct (shr_fexp prec emax m e l) as [mrs' e'].
  cbn [fst] in H1. cbn [snd] in H2.
  pose proof (round_nearest_even_ge (shr_m mrs') (loc_of_shr_record mrs')) as H3.
  assert (H4 : 0 < round_nearest_even (shr_m mrs') (loc_of_shr_record mrs')) by lia.
  pose proof (shr_fexp_positive _ e' loc_Exact H4 H2) as H5.
  destruct (shr_fexp prec emax
              (round_nearest_even (shr_m mrs') (loc_of_shr_record mrs')) e'
              loc_Exact) as [mrs'' e''].
  cbn [fst] in H5.
  destruct (shr_m mrs'') as [|p|p]; try lia.
  destruct (e'' <=? emax - prec); discriminate.
Qed.

Lemma shl_align_exponent (m : positive) (e e' : Z) :
  emin prec emax <= e -> emin prec emax <= e' ->
  emin prec emax <= snd (shl_align m e e').
Proof.
  intros He He'. unfold shl_align. destruct (e' - e); cbn [snd]; assumption.
Qed.

Lemma fexp_ge_emin (e : Z) : emin prec emax <= fexp prec emax e.
Proof. unfold fexp. lia. Qed.

Lemma binary_round_exponent (s : bool) (m : positive) (e : Z) :
  exponentInRange (binary_round prec emax s m e).
Proof.
  unfold binary_round.
  destruct (shl_align m e (fexp prec emax (Zpos (digits2_pos m) + e))) as [mz ez].
  apply binary_round_aux_exponent.
Qed.

Lemma binary_round_nonzero (s s' : bool) (m : positive) (e : Z) :
  emin prec emax <= e -> binary_round prec emax s m e <> S754_zero s'.
Proof.
  intros He. unfold binary_round.
  pose proof (shl_align_exponent m e (fexp prec emax (Zpos (digits2_pos m) + e))
                He (fexp_ge_emin _)) as Hz.
  destruct (shl_align m e (fexp prec emax (Zpos (digits2_pos m) + e))) as [mz ez].
  cbn [snd] in Hz. apply binary_round_aux_nonzero; [lia|exact Hz].
Qed.

Lemma binary_normalize_exponent (m e : Z) (szero : bool) :
  exponentInRange (binary_normalize prec emax m e szero).
Proof.
  destruct m as [|p|p]; cbn [binary_normalize];
    [exact I|apply binary_round_exponent..].
Qed.

Lemma jsDiv_exponent (x y : number) : exponentInRange (jsDiv x y).
Proof.
  unfold jsDiv.
  destruct x as [sx|sx| |sx mx ex], y as [sy|sy| |sy my ey];
    cbn [SFdiv exponentInRange]; try exact I.
  destruct (SFdiv_core_binary prec emax (Zpos mx) ex (Zpos my) ey) as [[mz ez] lz].
  apply binary_round_aux_exponent.
Qed.

Lemma jsAdd_exponent (x y : number) :
  exponentInRange x -> exponentInRange y -> exponentInRange (jsAdd x y).
Proof.
  unfold jsAdd.
  destruct x as [sx|sx| |sx mx ex], y as [sy|sy| |sy my ey];
    cbn [SFadd exponentInRange]; intros Hx Hy; try exact I; try assumption.
  - destruct sx, sy; exact I.
  - destruct sx, sy; exact I.
  - apply binary_normalize_exponent.
Qed.

Lemma jsAdd_not_negativeZero (x y : number) :
  exponentInRange x -> exponentInRange y ->
  x <> negativeZero -> jsAdd x y <> negativeZero.
Proof.
  unfold jsAdd, negativeZero.
  destruct x as [sx|sx| |sx mx ex], y as [sy|sy| |sy my ey];
    cbn [SFadd exponentInRange]; intros Hx Hy Hnz; try discriminate;
    try assumption.
  - destruct sx, sy; congruence.
  - destruct sx, sy; discriminate.
  - destruct (cond_Zopp sx (Zpos (fst (shl_align mx ex (Z.min ex ey)))) +
              cond_Zopp sy (Zpos (fst (shl_align my ey (Z.min ex ey)))))
      as [|p|p]; cbn [binary_normalize].
    + discriminate.
    + apply binary_round_nonzero. lia.
    + apply binary_round_nonzero. lia.
Qed.

Lemma jsAdd_zero_r (x : number) :
  x <> negativeZero -> jsAdd x (ofZ 0) = x.
Proof.
  unfold negativeZero. intros Hx.
  destruct x as [[|]| | |]; try reflexivity. congruence.
Qed.

Lemma ofDecimal_exponent (negative : bool) (m e10 : Z) :
  exponentInRange (ofDecimal negative m e10).
Proof.
  unfold ofDecimal. destruct m as [|p|p]; try exact I.
  destruct (0 <=? e10).
  - apply binary_normalize_exponent.
  - apply jsDiv_exponent.
Qed.

Lemma parseFloat_exponent (input : string) : exponentInRange (parseFloat input).
Proof.
  unfold parseFloat.
  destruct (scanSign (trimStart input)) as [negative str].
  destruct (String.prefix "Infinity" str); [exact I|].
  destruct (scanDigits 10 str 0 0) as [[ip ni] r1].
  destruct (match r1 with
            | String c r =>
                if Ascii.eqb c "."%char then scanDigits 10 r ip 0 else (ip, 0, r1)
            | EmptyString => (ip, 0, r1)
            end) as [[m nf] r2].
  destruct (ni + nf =? 0); [exact I|apply ofDecimal_exponent].
Qed.

(** ** Metrics *)
Lemma monthlyEquivalent_exponent (l : License.t) :
  exponentInRange (monthlyEquivalent l).
Proof.
  unfold monthlyEquivalent.
  destruct (String.eqb (License.billingFrequency l) "monthly");
    [apply parseFloat_exponent|].
  destruct (String.eqb (License.billingFrequency l) "quarterly");
    [apply jsDiv_exponent|].
  destruct (String.eqb (License.billingFrequency l) "annually");
    [apply jsDiv_exponent|exact I].
Qed.

Lemma addMonthly_adds (total : number) (l : License.t) :
  total <> negativeZero ->
  addMonthly total l = jsAdd total (monthlyEquivalent l).
Proof.
  intros Hnz. unfold addMonthly, monthlyEquivalent.
  destruct (String.eqb (License.billingFrequency l) "monthly"); [reflexivity|].
  destruct (String.eqb (License.billingFrequency l) "quarterly"); [reflexivity|].
  destruct (String.eqb (License.billingFrequency l) "annually"); [reflexivity|].
  symmetry. now apply jsAdd_zero_r.
Qed.

Lemma fold_addMonthly (ls : list License.t) (total : number) :
  exponentInRange total -> total <> negativeZero ->
  fold_left addMonthly ls total =
    fold_left jsAdd (map monthlyEquivalent ls) total.
Proof.
  revert total. induction ls as [|l ls' IH]; intros total He Hnz; [reflexivity|].
  cbn [fold_left map]. rewrite (addMonthly_adds total l Hnz).
  apply IH.
  - apply jsAdd_exponent; [exact He|apply monthlyEquivalent_exponent].
  - apply jsAdd_not_negativeZero;
      [exact He|apply monthlyEquivalent_exponent|exact Hnz].
Qed.

Lemma fold_left_sumOf (f : License.t -> Z) (ls : list License.t) (acc : Z) :
  fold_left (fun total license => total + f license) ls acc = acc + sumOf f ls.
Proof.
  revert acc. induction ls as [|l ls' IH]; intros acc; simpl; [lia|].
  rewrite IH. lia.
Qed.

Lemma sumOf_insert_row (f : License.t -> Z) (before : License.t -> License.t -> bool)
    (x : License.t) (ls : list License.t) :
  sumOf f (insert_row before x ls) = f x + sumOf f ls.
Proof.
  induction ls as [|y ls' IH]; [reflexivity|].
  simpl. destruct (before x y); simpl; [reflexivity|]. rewrite IH. lia.
Qed.

Lemma sumOf_orderBy (f : License.t -> Z) (before : License.t -> License.t -> bool)
    (ls : list License.t) :
  sumOf f (orderBy before ls) = sumOf f ls.
Proof.
  induction ls as [|x ls' IH]; [reflexivity|].
  simpl. now rewrite sumOf_insert_row, IH.
Qed.

Lemma sumOf_nonneg (f : License.t -> Z) (ls : list License.t) :
  (forall l, In l ls -> 0 <= f l) -> 0 <= sumOf f ls.
Proof.
  induction ls as [|x ls' IH]; intros H; simpl; [lia|].
  assert (0 <= f x) by (apply H; now left).
  assert (0 <= sumOf f ls') by (apply IH; intros l Hl; apply H; now right).
  lia.
Qed.

(** What [getLicenseMetrics] returns when its expiry query succeeds. *)
Lemma getLicenseMetrics_value (LocalTZA : Z -> bool -> Z) (now now' : Z)
    (db db' : Store) (expiring : list License.t) :
  getExpiringLicenses LocalTZA now now' 30 db' = Ok expiring ->
  getLicenseMetrics LocalTZA now now' db db' =
    Ok (mkMetrics
          (Z.of_nat (List.length (getAllLicenses db)))
          (Math_round (sumNumbers (map monthlyEquivalent (getAllLicenses db))))
          (Z.of_nat (List.length expiring))
          (if 0 <? sumOf License.totalSeats (licenses db)
           then Math_round
                  (jsMul (jsDiv (ofZ (sumOf usedOrZero (licenses db)))
                                (ofZ (sumOf License.totalSeats (licenses db))))
                         (ofZ 100))
           else ofZ 0)).
Proof.
  intros Hexpiring. unfold getLicenseMetrics. rewrite Hexpiring.
  cbn [bind]. rewrite !fold_left_sumOf, !Z.add_0_l.
  unfold getAllLicenses at 3 4 5. rewrite !sumOf_orderBy.
  rewrite fold_addMonthly; [reflexivity|exact I|discriminate].
Qed.

(** [Math.round] gives the nearest integer, a half going up. *)
Lemma Math_round_nearest (x : number) : nearestHalfUp x (Math_round x).
Proof.
  destruct x as [s|s| |s m e]; try reflexivity.
  unfold nearestHalfUp, Math_round.
  destruct (Z.leb_spec 0 e) as [He|He]; [reflexivity|].
  set (v := cond_Zopp s (Z.pos m)).
  set (P := 2 ^ (- e)).
  assert (HP : 0 < P) by (apply Z.pow_pos_nonneg; lia).
  assert (HD : 2 ^ (- e + 1) = 2 * P)
    by (unfold P; rewrite Z.pow_add_r by lia; lia).
  rewrite HD.
  exists ((2 * v + P) / (2 * P)).
  pose proof (Z.mul_div_le (2 * v + P) (2 * P) ltac:(lia)) as Hlow.
  pose proof (Z.mul_succ_div_gt (2 * v + P) (2 * P) ltac:(lia)) as Hhigh.
  split; [|split; [|reflexivity]]; nia.
Qed.

(** C2, as the code has it.  [getLicenseMetrics().monthlyCost] is
    computed in Numbers: each cost is read with [parseFloat] and turned
    into its monthly equivalent (the cost for "monthly", a third for
    "quarterly", a twelfth for "annually", zero for any other frequency),
    the equivalents are added one by one, in the order of
    [getAllLicenses], starting from zero, and the total is rounded once,
    at the end, to the nearest integer, a half going up. *)
Theorem getLicenseMetrics_monthlyCost :
  forall (LocalTZA : Z -> bool -> Z) (now now' : Z) (db db' : Store)
         (expiring : list License.t),
    getExpiringLicenses LocalTZA now now' 30 db' = Ok expiring ->
    exists m,
      getLicenseMetrics LocalTZA now now' db db' = Ok m /\
      nearestHalfUp (sumNumbers (map monthlyEquivalent (getAllLicenses db)))
                    (monthlyCost m).
Proof.
  intros LocalTZA now now' db db' expiring Hexpiring.
  eexists. split; [exact (getLicenseMetrics_value _ _ _ _ _ _ Hexpiring)|].
  cbn [monthlyCost]. apply Math_round_nearest.
Qed.

(** The example of the specification: 120.00 a month and 300.00 a quarter,
    with 10 of 10 and 5 of 10 seats used. *)
Example getLicenseMetrics_example :
  getLicenseMetrics (fixedZone 0) (noon (isoDay 2024 1 1)) (noon (isoDay 2024 1 1))
                    metricsExample metricsExample =
    Ok (mkMetrics 2 (ofZ 220) 0 (ofZ 75)).
Proof. vm_compute. reflexivity. Qed.

Lemma getLicenseMetrics_monthlyCost_witness :
  exists m,
    getLicenseMetrics (fixedZone 0) (noon (isoDay 2024 1 1))
                      (noon (isoDay 2024 1 1)) metricsExample metricsExample = Ok m /\
    monthlyCost m = ofZ 220.
Proof.
  destruct (getLicenseMetrics_monthlyCost (fixedZone 0) (noon (isoDay 2024 1 1))
              (noon (isoDay 2024 1 1)) metricsExample metricsExample [] eq_refl)
    as [m [Hm _]].
  exists m. split; [exact Hm|].
  vm_compute in Hm. injection Hm as <-. reflexivity.
Defined.

(** The monthly cost is not the exact sum rounded.  The same three
    monthly licenses, costing 0.35, 1.14 and 2.01 (3.50 together, which
    rounds to 4), give 3 when the last two were created in one order and
    4 when they were created in the other: the Numbers are added in
    creation order, and 0.35 + 1.14 + 2.01 is 3.4999999999999996. *)
Lemma monthlyCost_not_exact_sum :
  map (fun l => (License.cost l, License.billingFrequency l))
      (licenses (costsExample 2 1)) =
    map (fun l => (License.cost l, License.billingFrequency l))
        (licenses (costsExample 1 2))
  /\ claimedMonthlyCost (licenses (costsExample 2 1)) = 4
  /\ claimedMonthlyCost (licenses (costsExample 1 2)) = 4
  /\ (exists m,
        getLicenseMetrics (fixedZone 0) (noon (isoDay 2024 1 1))
                          (noon (isoDay 2024 1 1))
                          (costsExample 2 1) (costsExample 2 1) = Ok m
        /\ monthlyCost m = ofZ 3)
  /\ (exists m,
        getLicenseMetrics (fixedZone 0) (noon (isoDay 2024 1 1))
                          (noon (isoDay 2024 1 1))
                          (costsExample 1 2) (costsExample 1 2) = Ok m
        /\ monthlyCost m = ofZ 4)
  /\ ofZ 3 <> ofZ 4.
Proof.
  split; [reflexivity|]. split; [reflexivity|]. split; [reflexivity|].
  split; [|split].
  - eexists. split; [vm_compute; reflexivity|reflexivity].
  - eexists. split; [vm_compute; reflexivity|reflexivity].
  - vm_compute. discriminate.
Qed.

(** Rounding each license first would give another figure: two licenses
    of 1.00 a quarter cost 1 a month together, not 0. *)
Example monthlyCost_rounds_once :
  let ls := [ withBilling "1.00" "quarterly" 0 1 (sampleLicense "a" "Zoom" 2);
              withBilling "1.00" "quarterly" 0 1 (sampleLicense "b" "Slack" 1) ] in
  Math_round (sumNumbers (map monthlyEquivalent ls)) = ofZ 1 /\
  sumNumbers (map (fun l => Math_round (monthlyEquivalent l)) ls) = ofZ 0.
Proof. vm_compute. split; reflexivity. Qed.

(** C6, as the code has it.  [getLicenseMetrics().utilizationRate] is 0
    when the total seats sum to 0 or to less: the quotient is computed
    only under the guard that the sum is positive, so nothing is ever
    divided by zero.  Under the guard it is computed in Numbers: the sum
    of the used seats (a missing count taken as 0) is divided by the sum
    of the total seats, the quotient is multiplied by 100, and the
    product is rounded to the nearest integer, a half going up. *)
Theorem getLicenseMetrics_utilizationRate :
  forall (LocalTZA : Z -> bool -> Z) (now now' : Z) (db db' : Store)
         (expiring : list License.t),
    getExpiringLicenses LocalTZA now now' 30 db' = Ok expiring ->
    exists m,
      getLicenseMetrics LocalTZA now now' db db' = Ok m
      /\ (sumOf License.totalSeats (licenses db) <= 0 ->
            utilizationRate m = ofZ 0)
      /\ (0 < sumOf License.totalSeats (licenses db) ->
            nearestHalfUp
              (jsMul (jsDiv (ofZ (sumOf usedOrZero (licenses db)))
                            (ofZ (sumOf License.totalSeats (licenses db))))
                     (ofZ 100))
              (utilizationRate m)).
Proof.
  intros LocalTZA now now' db db' expiring Hexpiring.
  eexists. split; [exact (getLicenseMetrics_value _ _ _ _ _ _ Hexpiring)|].
  cbn [utilizationRate]. split.
  - intros Hnone.
    destruct (Z.ltb_spec 0 (sumOf License.totalSeats (licenses db)));
      [lia|reflexivity].
  - intros Hsome.
    destruct (Z.ltb_spec 0 (sumOf License.totalSeats (licenses db)));
      [|lia].
    apply Math_round_nearest.
Qed.

Lemma getLicenseMetrics_utilizationRate_witness :
  exists m,
    getLicenseMetrics (fixedZone 0) (noon (isoDay 2024 1 1))
                      (noon (isoDay 2024 1 1)) metricsExample metricsExample = Ok m /\
    utilizationRate m = ofZ 75.
Proof.
  destruct (getLicenseMetrics_utilizationRate (fixedZone 0)
              (noon (isoDay 2024 1 1)) (noon (isoDay 2024 1 1))
              metricsExample metricsExample [] eq_refl)
    as [m [Hm _]].
  exists m. split; [exact Hm|].
  vm_compute in Hm. injection Hm as <-. reflexivity.
Defined.

(** The rate is not the exact percentage rounded to the nearest integer.
    With 29 of 200 seats used the percentage is 14.5 and the code gives
    14, while with 1 of 200 it is 0.5 and the code gives 1: the quotient
    and the product are Numbers, and 29 / 200 * 100 is
    14.499999999999998.  And a negative sum of total seats, which the
    store accepts, gives 0, not the quotient. *)
Lemma utilizationRate_not_nearest :
  claimedUtilization (licenses (seatsExample 29 200)) = 15
  /\ (exists m,
        getLicenseMetrics (fixedZone 0) (noon (isoDay 2024 1 1))
                          (noon (isoDay 2024 1 1))
                          (seatsExample 29 200) (seatsExample 29 200) = Ok m
        /\ utilizationRate m = ofZ 14)
  /\ claimedUtilization (licenses (seatsExample 1 200)) = 1
  /\ (exists m,
        getLicenseMetrics (fixedZone 0) (noon (isoDay 2024 1 1))
                          (noon (isoDay 2024 1 1))
                          (seatsExample 1 200) (seatsExample 1 200) = Ok m
        /\ utilizationRate m = ofZ 1)
  /\ consistent (seatsExample 5 (-5)) = true
  /\ claimedUtilization (licenses (seatsExample 5 (-5))) = -100
  /\ (exists m,
        getLicenseMetrics (fixedZone 0) (noon (isoDay 2024 1 1))
                          (noon (isoDay 2024 1 1))
                          (seatsExample 5 (-5)) (seatsExample 5 (-5)) = Ok m
        /\ utilizationRate m = ofZ 0)
  /\ ofZ 14 <> ofZ 15.
Proof.
  split; [reflexivity|]. split.
  { eexists. split; [vm_compute; reflexivity|reflexivity]. }
  split; [reflexivity|]. split.
  { eexists. split; [vm_compute; reflexivity|reflexivity]. }
  split; [reflexivity|]. split; [reflexivity|]. split.
  { eexists. split; [vm_compute; reflexivity|reflexivity]. }
  vm_compute. discriminate.
Qed.

(** With no seats at all the rate is 0. *)
Example utilizationRate_no_seats :
  getLicenseMetrics (fixedZone 0) (noon (isoDay 2024 1 1)) (noon (isoDay 2024 1 1))
                    (sampleStore []) (sampleStore []) =
    Ok (mkMetrics 0 (ofZ 0) 0 (ofZ 0)).
Proof. vm_compute. reflexivity. Qed.

(** The quotient is a Number: 29 of 200 seats is 14.499999999999998
    percent after the division and the multiplication, and rounds to 14. *)
Example utilizationRate_binary :
  Math_round (jsMul (jsDiv (ofZ 29) (ofZ 200)) (ofZ 100)) = ofZ 14.
Proof. vm_compute. reflexivity. Qed.

(** ** Creating a license *)
Lemma insertLicenseSchema_fields (body : json) :
  insertLicenseSchema body = parseFields (fun key => member key body).
Proof. destruct body; reflexivity. Qed.

Lemma parseFields_agree (f g : string -> option json) :
  (forall key, key <> "status" -> key <> "usedSeats" -> f key = g key) ->
  parseFields f = parseFields g.
Proof.
  intros H. unfold parseFields.
  rewrite !H by discriminate. reflexivity.
Qed.

Lemma digitValue_nonneg (c : ascii) (d : Z) : digitValue c = Some d -> 0 <= d.
Proof.
  unfold digitValue.
  destruct ((48 <=? code c) && (code c <=? 57)) eqn:H1.
  - apply andb_prop in H1. destruct H1 as [H1 _]. apply Z.leb_le in H1.
    intros H. injection H as <-. lia.
  - destruct ((97 <=? code c) && (code c <=? 122)) eqn:H2.
    + apply andb_prop in H2. destruct H2 as [H2 _]. apply Z.leb_le in H2.
      intros H. injection H as <-. lia.
    + destruct ((65 <=? code c) && (code c <=? 90)) eqn:H3; [|discriminate].
      apply andb_prop in H3. destruct H3 as [H3 _]. apply Z.leb_le in H3.
      intros H. injection H as <-. lia.
Qed.

Lemma scanDigits_nonneg (radix : Z) (s : string) (acc count : Z) :
  0 <= radix -> 0 <= acc -> 0 <= fst (fst (scanDigits radix s acc count)).
Proof.
  intros Hr. revert acc count.
  induction s as [|c r IH]; intros acc count Hacc; [exact Hacc|].
  cbn [scanDigits]. destruct (digitValue c) as [d|] eqn:Hd; [|exact Hacc].
  destruct (d <? radix); [|exact Hacc].
  apply IH. pose proof (digitValue_nonneg c d Hd). nia.
Qed.

Lemma roundToCents_nonneg (m e10 : Z) : 0 <= m -> 0 <= roundToCents m e10.
Proof.
  intros Hm. unfold roundToCents. destruct (0 <=? e10 + 2) eqn:He.
  - apply Z.leb_le in He. apply Z.mul_nonneg_nonneg; [exact Hm|].
    apply Z.pow_nonneg. lia.
  - apply Z.leb_gt in He.
    assert (0 < 10 ^ (- (e10 + 2))) by (apply Z.pow_pos_nonneg; lia).
    apply Z.div_pos; lia.
Qed.

Lemma digitOf_nonneg (radix : Z) (c : ascii) (d : Z) :
  digitOf radix c = Some d -> 0 <= d.
Proof.
  unfold digitOf. destruct (digitValue c) as [v|] eqn:Hv; [|discriminate].
  destruct (v <? radix); [|discriminate].
  intros H. injection H as <-. exact (digitValue_nonneg c v Hv).
Qed.

Lemma numericDigits_nonneg (radix : Z) (s : string) :
  0 <= radix ->
  forall acc count v n rest,
    0 <= acc -> numericDigits radix s acc count = Some (v, n, rest) -> 0 <= v.
Proof.
  intros Hr.
  enough (Hboth :
    (forall acc count v n rest,
       0 <= acc -> numericDigits radix s acc count = Some (v, n, rest) -> 0 <= v)
    /\ (forall c acc count v n rest,
          0 <= acc ->
          numericDigits radix (String c s) acc count = Some (v, n, rest) ->
          0 <= v)) by exact (proj1 Hboth).
  induction s as [|d r IH].
  - split.
    + intros acc count v n rest Hacc H. cbn in H. now injection H as <- _ _.
    + intros c acc count v n rest Hacc H. cbn [numericDigits] in H.
      destruct (Ascii.eqb c "_"%char); [discriminate|].
      destruct (digitOf radix c) as [x|] eqn:Hx.
      * cbn in H. injection H as <- _ _.
        pose proof (digitOf_nonneg _ _ _ Hx). nia.
      * now injection H as <- _ _.
  - destruct IH as [IHtail IHcons]. split; [exact (IHcons d)|].
    intros c acc count v n rest Hacc H.
    cbn [numericDigits] in H.
    destruct (Ascii.eqb c "_"%char).
    + destruct (digitOf radix d) as [x|] eqn:Hx; [|discriminate].
      pose proof (digitOf_nonneg _ _ _ Hx) as Hx0.
      assert (Hnext : 0 <= acc * radix + x) by nia.
      exact (IHtail _ _ _ _ _ Hnext H).
    + destruct (digitOf radix c) as [x|] eqn:Hx.
      * pose proof (digitOf_nonneg _ _ _ Hx) as Hx0.
        assert (Hnext : 0 <= acc * radix + x) by nia.
        exact (IHcons d _ _ _ _ _ Hnext H).
      * now injection H as <- _ _.
Qed.

Lemma radixPrefix_nonneg (s : string) (radix : Z) (digits : string) :
  radixPrefix s = Some (radix, digits) -> 0 <= radix.
Proof.
  unfold radixPrefix. destruct s as [|c [|x r]]; try discriminate.
  destruct (Ascii.eqb c "0"%char); [|discriminate].
  destruct (Ascii.eqb x "x"%char || Ascii.eqb x "X"%char);
    [intros H; injection H as <- _; lia|].
  destruct (Ascii.eqb x "o"%char || Ascii.eqb x "O"%char);
    [intros H; injection H as <- _; lia|].
  destruct (Ascii.eqb x "b"%char || Ascii.eqb x "B"%char);
    [intros H; injection H as <- _; lia|discriminate].
Qed.

Lemma numericMagnitude_nonneg (s : string) (cents : Z) :
  numericMagnitude s = Some cents -> 0 <= cents.
Proof.
  unfold numericMagnitude.
  destruct (radixPrefix s) as [[radix digits]|] eqn:Hprefix.
  - pose proof (radixPrefix_nonneg _ _ _ Hprefix) as Hr.
    destruct (numericDigits radix digits 0 0) as [[[v count] rest]|] eqn:Hd;
      [|discriminate].
    pose proof (numericDigits_nonneg radix digits Hr 0 0 v count rest
                  ltac:(lia) Hd) as Hv.
    destruct ((count =? 0) || negb (String.eqb (skipSpaces rest) ""));
      [discriminate|].
    intros H. injection H as <-. lia.
  - destruct (underscoreFirst s); [discriminate|].
    destruct (numericDigits 10 s 0 0) as [[[ip ni] r1]|] eqn:Hint;
      [|discriminate].
    pose proof (numericDigits_nonneg 10 s ltac:(lia) 0 0 ip ni r1
                  ltac:(lia) Hint) as Hip.
    destruct (numericFraction ip r1) as [[[m nf] r2]|] eqn:Hfrac;
      [|discriminate].
    assert (Hm : 0 <= m).
    { unfold numericFraction in Hfrac. destruct r1 as [|ch r].
      - now injection Hfrac as <- _ _.
      - destruct (Ascii.eqb ch "."%char).
        + destruct (underscoreFirst r); [discriminate|].
          exact (numericDigits_nonneg 10 r ltac:(lia) ip 0 m nf r2 Hip Hfrac).
        + now injection Hfrac as <- _ _. }
    destruct (ni + nf =? 0); [discriminate|].
    destruct (numericExponent r2) as [[e rest]|]; [|discriminate].
    destruct (negb (String.eqb (skipSpaces rest) "")); [discriminate|].
    intros H. injection H as <-. now apply roundToCents_nonneg.
Qed.

(** What the store keeps for a cost is a count of hundredths that fits
    the column, or not-a-number. *)
Lemma numeric_in_fits (text : string) (c : Z) :
  numeric_in text = Ok (Num c) -> Z.abs c < 10 ^ 10.
Proof.
  unfold numeric_in.
  destruct (isNaNText (skipSpaces text)); [discriminate|].
  destruct (scanSign (skipSpaces text)) as [negative s1].
  destruct (numericMagnitude s1) as [cents|] eqn:Hcents; [|discriminate].
  pose proof (numericMagnitude_nonneg _ _ Hcents) as Hc.
  destruct (Z.leb_spec (10 ^ 10) cents) as [Hbig|Hfit]; [discriminate|].
  intros Hstored. injection Hstored as <-. destruct negative; lia.
Qed.

Section CreateLicenseFacts.
Variable date_in : string -> option Z.
Variable prepareValue : json -> string.

Lemma createLicense_row (uuid : string) (now : Z) (license : InsertLicense.t)
    (db db' : Store) (row : License.t) :
  createLicense date_in uuid now license db = Ok (row, db') ->
  License.status row = Some "active"
  /\ License.usedSeats row = Some 0
  /\ (exists n, numeric_in (Number_toString (InsertLicense.cost license)) = Ok n
                /\ License.cost row = numeric_out n)
  /\ licenses db' = (licenses db ++ [row])%list.
Proof.
  unfold createLicense, commit.
  destruct (numeric_in (Number_toString (InsertLicense.cost license)))
    as [n|e]; [|discriminate].
  destruct (int4_in (InsertLicense.totalSeats license)) as [seats|e];
    [|discriminate].
  destruct (date_cast date_in (InsertLicense.purchaseDate license))
    as [purchased|e]; [|discriminate].
  destruct (optional_date_cast date_in (InsertLicense.expiryDate license))
    as [expiry|e]; [|discriminate].
  cbn [bind].
  match goal with |- context [if consistent ?d then _ else _] =>
    destruct (consistent d) end; [|discriminate].
  intros H. injection H as <- <-. cbn.
  split; [reflexivity|]. split; [reflexivity|]. split; [|reflexivity].
  exists n. split; reflexivity.
Qed.

Lemma post_license_created (uuidV uuidL : string) (now : Z) (body : json)
    (db db' : Store) (license : License.t) :
  post_license date_in prepareValue uuidV uuidL now body db = (Json 201 license, db') ->
  exists licenseData vendor db1,
    insertLicenseSchema body = Ok licenseData /\
    createLicense date_in uuidL now
      (InsertLicense.withVendorId licenseData (Vendor.id vendor)) db1 =
      Ok (license, db').
Proof.
  unfold post_license.
  destruct (insertLicenseSchema body) as [licenseData|[| | |]];
    try discriminate.
  destruct (vendorFor prepareValue uuidV now body db) as [[vendor db1]|e];
    [|discriminate].
  destruct (createLicense date_in uuidL now
              (InsertLicense.withVendorId licenseData (Vendor.id vendor)) db1)
    as [[row db2]|e] eqn:Hcreate; [|discriminate].
  intros H. injection H as <- <-.
  exists licenseData, vendor, db1. split; [reflexivity|exact Hcreate].
Qed.

Lemma parseFields_cost (field : string -> option json) (licenseData : InsertLicense.t) :
  parseFields field = Ok licenseData ->
  exists text, field "cost" = Some (JString text) /\
               InsertLicense.cost licenseData = parseFloat text.
Proof.
  unfold parseFields, zString, zOptionalString.
  repeat match goal with
         | |- context [match field ?k with _ => _ end] =>
             let v := fresh "v" in
             destruct (field k) as [[| | |?|?|?]|]; cbn [bind]; try discriminate
         end;
    intros H; injection H as <-; eexists; split; reflexivity.
Qed.

(** C9.  On creation the status and the used seats are set by the server:
    two payloads that differ at most in their [status] and [usedSeats]
    keys get the same answer and leave the same store, and every license
    the route creates is active with 0 used seats. *)
Theorem post_license_ignores_status_and_usedSeats :
  forall (uuidV uuidL : string) (now : Z) (body1 body2 : json) (db : Store),
    (forall key, key <> "status" -> key <> "usedSeats" ->
       member key body1 = member key body2) ->
    post_license date_in prepareValue uuidV uuidL now body1 db =
      post_license date_in prepareValue uuidV uuidL now body2 db
    /\ (forall license db',
          post_license date_in prepareValue uuidV uuidL now body1 db =
            (Json 201 license, db') ->
          License.status license = Some "active" /\
          License.usedSeats license = Some 0 /\
          In license (licenses db')).
Proof.
  intros uuidV uuidL now body1 body2 db Hsame. split.
  - unfold post_license, vendorFor.
    rewrite !insertLicenseSchema_fields.
    rewrite (parseFields_agree _ _ Hsame).
    rewrite (Hsame "vendorName") by discriminate. reflexivity.
  - intros license db' Hpost.
    destruct (post_license_created _ _ _ _ _ _ _ Hpost)
      as [licenseData [vendor [db1 [_ Hcreate]]]].
    destruct (createLicense_row _ _ _ _ _ _ Hcreate) as [Hs [Hu [_ Hrows]]].
    split; [exact Hs|]. split; [exact Hu|].
    rewrite Hrows. apply in_or_app. right. now left.
Qed.

(** C7, as the code has it.  The schema reads the cost string into a
    Number with [parseFloat]; [createLicense] hands the store the text of
    that Number, and the store keeps it as a decimal with two fractional
    digits.  The stored cost of a created license is therefore the text of
    the binary64 value of the input, rounded to hundredths. *)
Theorem post_license_cost_through_number :
  forall (uuidV uuidL : string) (now : Z) (body : json) (db db' : Store)
         (license : License.t),
    post_license date_in prepareValue uuidV uuidL now body db =
      (Json 201 license, db') ->
    exists text n,
      member "cost" body = Some (JString text)
      /\ costThroughNumber text = Ok n
      /\ License.cost license = numeric_out n
      /\ (n = NumNaN \/ exists cents, n = Num cents /\ Z.abs cents < 10 ^ 10).
Proof.
  intros uuidV uuidL now body db db' license Hpost.
  destruct (post_license_created _ _ _ _ _ _ _ Hpost)
    as [licenseData [vendor [db1 [Hparse Hcreate]]]].
  rewrite insertLicenseSchema_fields in Hparse.
  destruct (parseFields_cost _ _ Hparse) as [text [Hfield Hcost]].
  destruct (createLicense_row _ _ _ _ _ _ Hcreate) as [_ [_ [[n [Hn Hout]] _]]].
  assert (Hthrough : costThroughNumber text = Ok n)
    by (unfold costThroughNumber; rewrite <- Hcost; exact Hn).
  exists text, n. split; [exact Hfield|]. split; [exact Hthrough|].
  split; [exact Hout|].
  destruct n as [|cents]; [now left|right].
  exists cents. split; [reflexivity|].
  now apply (numeric_in_fits (Number_toString (parseFloat text))).
Qed.
End CreateLicenseFacts.

Lemma post_license_ignores_status_and_usedSeats_witness :
  post_license isoDate_in plainValue "v9" "l9" 100
    (licenseBody "19.99" [("status", JString "expired"); ("usedSeats", JNumber (ofZ 7))])
    (sampleStore []) =
  post_license isoDate_in plainValue "v9" "l9" 100
    (licenseBody "19.99" []) (sampleStore []).
Proof.
  refine (proj1 (post_license_ignores_status_and_usedSeats isoDate_in plainValue
                   "v9" "l9" 100 _ _ (sampleStore []) _)).
  intros key Hs Hu. unfold member, licenseBody. cbn [find fst snd app].
  repeat match goal with
         | |- context [String.eqb ?a key] =>
             destruct (String.eqb_spec a key); [first [reflexivity|congruence]|]
         end.
  reflexivity.
Defined.

Example post_license_defaults :
  exists license db',
    post_license isoDate_in plainValue "v9" "l9" 100
      (licenseBody "19.99" [("status", JString "expired"); ("usedSeats", JNumber (ofZ 7))])
      (sampleStore []) = (Json 201 license, db')
    /\ License.status license = Some "active"
    /\ License.usedSeats license = Some 0
    /\ License.cost license = "19.99".
Proof. eexists. eexists. vm_compute. repeat split. Qed.

Lemma post_license_cost_through_number_witness :
  exists text n,
    member "cost" (licenseBody "19.99" []) = Some (JString text)
    /\ costThroughNumber text = Ok n
    /\ "19.99" = numeric_out n
    /\ (n = NumNaN \/ exists cents, n = Num cents /\ Z.abs cents < 10 ^ 10).
Proof.
  apply (post_license_cost_through_number isoDate_in plainValue "v9" "l9" 100
           (licenseBody "19.99" []) (sampleStore [])
           (mkStore (teams (sampleStore [])) (vendors (sampleStore []))
              [License.mk "l9" "Zoom" "v1" "t1" "subscription" 10 (Some 0)
                 "19.99" "monthly" (isoDay 2024 1 1) None "Ada" None
                 (Some "active") (Some 100) (Some 100)])
           (License.mk "l9" "Zoom" "v1" "t1" "subscription" 10 (Some 0)
              "19.99" "monthly" (isoDay 2024 1 1) None "Ada" None
              (Some "active") (Some 100) (Some 100))).
  vm_compute. reflexivity.
Defined.

(** A cost written with more digits than a Number holds: the decimal
    0.00499999999999999999999 is below half a hundredth and reads as 0.00,
    but its nearest Number prints as 0.005 and is stored as 0.01. *)
Lemma post_license_cost_not_decimal_parse :
  decimalCents "0.00499999999999999999999" = Some 0
  /\ Number_toString (parseFloat "0.00499999999999999999999") = "0.005"
  /\ exists license db',
       post_license isoDate_in plainValue "v9" "l9" 100
         (licenseBody "0.00499999999999999999999" []) (sampleStore []) =
         (Json 201 license, db')
       /\ License.cost license = "0.01"
       /\ Some (License.cost license) <>
            option_map (fun c => numeric_out (Num c))
                       (decimalCents "0.00499999999999999999999").
Proof.
  split; [vm_compute; reflexivity|]. split; [vm_compute; reflexivity|].
  eexists. eexists. split; [vm_compute; reflexivity|].
  split; [reflexivity|]. vm_compute. discriminate.
Qed.

(** Costs written with two decimals are stored as written: checked for
    every amount from 0.00 to 99.99 and for the thousand largest
    amounts the column holds. *)
Lemma cost_two_decimals_round_trip :
  centsRoundTrip (Z.to_nat 10000) 0 = true /\
  centsRoundTrip (Z.to_nat 1000) (10 ^ 10 - 1000) = true.
Proof. split; vm_compute; reflexivity. Qed.

(** * Further properties of the storage layer and the routes *)

(** ** More on [ORDER BY] *)

Lemma length_insert_row (A : Type) (before : A -> A -> bool) (x : A) (l : list A) :
  List.length (insert_row before x l) = S (List.length l).
Proof.
  induction l as [|y l' IH]; [reflexivity|].
  simpl. destruct (before x y); simpl; [reflexivity|]. now rewrite IH.
Qed.

Lemma length_orderBy (A : Type) (before : A -> A -> bool) (l : list A) :
  List.length (orderBy before l) = List.length l.
Proof.
  induction l as [|x l' IH]; [reflexivity|].
  simpl. now rewrite length_insert_row, IH.
Qed.

Lemma Permutation_insert_row (A : Type) (before : A -> A -> bool) (x : A)
    (l : list A) :
  Permutation (insert_row before x l) (x :: l).
Proof.
  induction l as [|y l' IH]; [apply Permutation_refl|].
  simpl. destruct (before x y); [apply Permutation_refl|].
  eapply Permutation_trans; [apply perm_skip, IH|apply perm_swap].
Qed.

Lemma Permutation_orderBy (A : Type) (before : A -> A -> bool) (l : list A) :
  Permutation (orderBy before l) l.
Proof.
  induction l as [|x l' IH]; [apply Permutation_refl|].
  simpl. eapply Permutation_trans; [apply Permutation_insert_row|].
  now apply perm_skip.
Qed.

(** ** Deleting a license *)

Lemma getLicense_deleteLicense_other (id other : string) (db : Store) :
  other <> id -> getLicense other (deleteLicense id db) = getLicense other db.
Proof.
  intros Hne. unfold getLicense, deleteLicense. cbn [licenses].
  apply find_filter_keep. intros l Hl. apply String.eqb_eq in Hl.
  apply negb_true_iff, String.eqb_neq. congruence.
Qed.

(** X1.  After [deleteLicense(id)] no license has that id, whether or not
    one had it before, and every other id still finds the license it
    found; [DELETE /api/licenses/:id] answers 204 in both cases, and a
    [GET] of the id then answers 404. *)
Theorem deleteLicense_then_getLicense :
  forall (id : string) (db : Store),
    getLicense id (deleteLicense id db) = None
    /\ (forall other, other <> id ->
          getLicense other (deleteLicense id db) = getLicense other db)
    /\ fst (delete_license id db) = 204
    /\ get_license id (snd (delete_license id db)) =
         Message 404 "License not found".
Proof.
  intros id db.
  assert (Hgone : getLicense id (deleteLicense id db) = None).
  { unfold getLicense, deleteLicense. cbn [licenses].
    apply (find_filter_out _ (fun l => String.eqb (License.id l) id)). }
  split; [exact Hgone|]. split.
  - intros other Hne. now apply getLicense_deleteLicense_other.
  - split; [reflexivity|].
    unfold get_license, delete_license. cbn [snd]. now rewrite Hgone.
Qed.

(** X2.  [deleteLicense] is idempotent, and deleting an id that no
    license has leaves the store exactly as it was. *)
Theorem deleteLicense_idempotent :
  forall (id : string) (db : Store),
    deleteLicense id (deleteLicense id db) = deleteLicense id db
    /\ (getLicense id db = None -> deleteLicense id db = db).
Proof.
  intros id db.
  assert (Hnoop : forall d, getLicense id d = None -> deleteLicense id d = d).
  { intros [ts vs ls] Hnone. unfold deleteLicense, getLicense in *.
    cbn [teams vendors licenses] in *. f_equal.
    apply (filter_none_out _ (fun l => String.eqb (License.id l) id)).
    exact Hnone. }
  split; [|apply Hnoop].
  apply Hnoop. unfold getLicense, deleteLicense. cbn [licenses].
  apply (find_filter_out _ (fun l => String.eqb (License.id l) id)).
Qed.

Lemma deleteLicense_idempotent_witness :
  deleteLicense "b" (sampleStore [sampleLicense "a" "Zoom" 1]) =
    sampleStore [sampleLicense "a" "Zoom" 1].
Proof.
  apply (proj2 (deleteLicense_idempotent "b"
                  (sampleStore [sampleLicense "a" "Zoom" 1]))).
  reflexivity.
Defined.

(** X3.  [deleteLicense] touches only the licenses table: teams and
    vendors stay, the remaining licenses are the old ones in their old
    order, and a store that satisfied its constraints still does. *)
Theorem deleteLicense_keeps_constraints :
  forall (id : string) (db : Store),
    consistent db = true ->
    consistent (deleteLicense id db) = true
    /\ teams (deleteLicense id db) = teams db
    /\ vendors (deleteLicense id db) = vendors db
    /\ (forall l, In l (licenses (deleteLicense id db)) <->
                  In l (licenses db) /\ License.id l <> id).
Proof.
  intros id db Hc. split; [|split; [reflexivity|split; [reflexivity|]]].
  - unfold consistent in *. unfold deleteLicense. cbn [teams vendors licenses].
    rewrite !andb_true_iff in *.
    destruct Hc as [[[[[Hti Htn] Hvi] Hvn] Hli] Hok].
    repeat split; try assumption.
    + apply uniqueb_NoDup, license_ids_filter. now apply uniqueb_NoDup.
    + rewrite forallb_forall in *. intros l Hl. apply filter_In in Hl.
      destruct Hl as [Hl _]. exact (Hok l Hl).
  - intros l. unfold deleteLicense. cbn [licenses].
    rewrite filter_In, negb_true_iff, String.eqb_neq. tauto.
Qed.

Lemma deleteLicense_keeps_constraints_witness :
  consistent (deleteLicense "a" (sampleStore [sampleLicense "a" "Zoom" 1])) = true.
Proof.
  apply (proj1 (deleteLicense_keeps_constraints "a"
                  (sampleStore [sampleLicense "a" "Zoom" 1]) eq_refl)).
Defined.

(** ** Creating a license: what the store holds afterwards *)

Section CreateLicenseStore.
Variable date_in : string -> option Z.
Variable prepareValue : json -> string.

(** What a successful [createLicense] did. *)
Lemma createLicense_inserted (uuid : string) (now : Z) (license : InsertLicense.t)
    (db db' : Store) (row : License.t) :
  createLicense date_in uuid now license db = Ok (row, db') ->
  License.id row = uuid
  /\ License.vendorId row = InsertLicense.vendorId license
  /\ License.teamId row = InsertLicense.teamId license
  /\ db' = mkStore (teams db) (vendors db) (licenses db ++ [row])
  /\ consistent db' = true.
Proof.
  unfold createLicense, commit.
  destruct (numeric_in (Number_toString (InsertLicense.cost license)))
    as [n|e]; [|discriminate].
  destruct (int4_in (InsertLicense.totalSeats license)) as [seats|e];
    [|discriminate].
  destruct (date_cast date_in (InsertLicense.purchaseDate license))
    as [purchased|e]; [|discriminate].
  destruct (optional_date_cast date_in (InsertLicense.expiryDate license))
    as [expiry|e]; [|discriminate].
  cbn [bind].
  match goal with |- context [if consistent ?d then _ else _] =>
    destruct (consistent d) eqn:Hd end; [|discriminate].
  intros H. injection H as <- <-.
  repeat split; try reflexivity. exact Hd.
Qed.

(** Every failure of [createLicense] is the store's. *)
Lemma createLicense_error (uuid : string) (now : Z) (license : InsertLicense.t)
    (db : Store) (e : error) :
  createLicense date_in uuid now license db = Err e -> e = StoreError.
Proof.
  unfold createLicense, commit.
  destruct (numeric_in (Number_toString (InsertLicense.cost license)))
    as [n|e1] eqn:Hn; cbn [bind].
  - destruct (int4_in (InsertLicense.totalSeats license)) as [seats|e2] eqn:Hs;
      cbn [bind].
    + destruct (date_cast date_in (InsertLicense.purchaseDate license))
        as [purchased|e3] eqn:Hp; cbn [bind].
      * destruct (optional_date_cast date_in (InsertLicense.expiryDate license))
          as [expiry|e4] eqn:Hx; cbn [bind].
        -- match goal with |- context [if consistent ?d then _ else _] =>
             destruct (consistent d) end; intros H; [discriminate|].
           now injection H as <-.
        -- intros H. injection H as <-.
           unfold optional_date_cast, date_cast in Hx.
           destruct (InsertLicense.expiryDate license) as [[s|]|];
             try discriminate.
           destruct (date_in s); cbn [bind] in Hx; [discriminate|].
           now injection Hx as <-.
      * intros H. injection H as <-. unfold date_cast in Hp.
        destruct (date_in (InsertLicense.purchaseDate license)); [discriminate|].
        now injection Hp as <-.
    + intros H. injection H as <-. unfold int4_in in Hs.
      destruct (InsertLicense.totalSeats license) as [z|];
        [destruct (int4_range z); [discriminate|]|];
        now injection Hs as <-.
  - intros H. injection H as <-. now apply (numeric_in_error _ _ Hn).
Qed.

(** X4.  A license that [createLicense] has inserted is found under its
    generated id, by the method and by the route, appears in
    [getAllLicenses], and no other id finds a different license than
    before. *)
Theorem createLicense_then_getLicense :
  forall (uuid : string) (now : Z) (license : InsertLicense.t)
         (db db' : Store) (row : License.t),
    createLicense date_in uuid now license db = Ok (row, db') ->
    License.id row = uuid
    /\ getLicense uuid db' = Some row
    /\ get_license uuid db' = Json 200 row
    /\ In row (getAllLicenses db')
    /\ List.length (getAllLicenses db') = S (List.length (getAllLicenses db))
    /\ (forall other, other <> uuid -> getLicense other db' = getLicense other db).
Proof.
  intros uuid now license db db' row Hcreate.
  destruct (createLicense_inserted _ _ _ _ _ _ Hcreate)
    as [Hid [_ [_ [Hdb' Hc]]]].
  assert (Hids : NoDup (map License.id (licenses db ++ [row]))).
  { subst db'. unfold consistent in Hc. rewrite !andb_true_iff in Hc.
    destruct Hc as [[_ Hli] _]. now apply uniqueb_NoDup. }
  assert (Hfresh : ~ In uuid (map License.id (licenses db))).
  { rewrite map_app in Hids. cbn [map] in Hids. rewrite Hid in Hids.
    now apply NoDup_snoc_absent. }
  assert (Hget : getLicense uuid db' = Some row).
  { subst db'. unfold getLicense. cbn [licenses].
    rewrite find_snoc, (find_id_absent _ _ Hfresh), Hid.
    now rewrite String.eqb_refl. }
  split; [exact Hid|]. split; [exact Hget|]. split.
  { unfold get_license. now rewrite Hget. }
  split.
  { apply In_getAllLicenses. subst db'. cbn [licenses].
    apply in_or_app. right. now left. }
  split.
  { unfold getAllLicenses. subst db'. cbn [licenses].
    rewrite !length_orderBy, length_app. cbn [List.length]. lia. }
  intros other Hother. subst db'. unfold getLicense. cbn [licenses].
  rewrite find_snoc, Hid.
  destruct (find (fun l => String.eqb (License.id l) other) (licenses db));
    [reflexivity|].
  now rewrite (proj2 (String.eqb_neq uuid other)) by congruence.
Qed.

(** X5.  [createLicense] fails, with the store's error and nothing else,
    when the team or the vendor of the license does not exist, when the
    generated id is taken, or when the seat count is not a 32-bit
    integer. *)
Theorem createLicense_rejects :
  forall (uuid : string) (now : Z) (license : InsertLicense.t) (db : Store),
    ~ In (InsertLicense.teamId license) (map Team.id (teams db))
    \/ ~ In (InsertLicense.vendorId license) (map Vendor.id (vendors db))
    \/ In uuid (map License.id (licenses db))
    \/ int4_in (InsertLicense.totalSeats license) = Err StoreError ->
    createLicense date_in uuid now license db = Err StoreError.
Proof.
  intros uuid now license db Hbad.
  destruct (createLicense date_in uuid now license db) as [[row db']|e] eqn:Hcreate.
  - exfalso.
    destruct (createLicense_inserted _ _ _ _ _ _ Hcreate)
      as [Hid [Hv [Ht [Hdb' Hc]]]].
    subst db'. unfold consistent in Hc. cbn [teams vendors licenses] in Hc.
    rewrite !andb_true_iff in Hc. destruct Hc as [[_ Hli] Hok].
    rewrite forallb_forall in Hok.
    assert (Hrow : license_ok (mkStore (teams db) (vendors db)
                                       (licenses db ++ [row])) row = true)
      by (apply Hok, in_or_app; right; now left).
    unfold license_ok in Hrow. cbn [teams vendors] in Hrow.
    rewrite !andb_true_iff, !existsb_eqb_In, Hv, Ht in Hrow.
    destruct Hrow as [[[Hvin Htin] _] _].
    destruct Hbad as [Hbad|[Hbad|[Hbad|Hbad]]]; try contradiction.
    + apply uniqueb_NoDup in Hli. rewrite map_app in Hli. cbn [map] in Hli.
      rewrite Hid in Hli. now apply NoDup_snoc_absent in Hli.
    + unfold createLicense in Hcreate.
      destruct (numeric_in (Number_toString (InsertLicense.cost license)));
        [|discriminate].
      cbn [bind] in Hcreate. rewrite Hbad in Hcreate. discriminate.
  - f_equal. now apply (createLicense_error _ _ _ _ _ Hcreate).
Qed.

(** ** [POST /api/licenses]: what a request can change *)

Lemma getOrCreateVendor_effect (uuid name : string) (now : Z) (db db1 : Store)
    (vendor : Vendor.t) :
  getOrCreateVendor uuid now name db = Ok (vendor, db1) ->
  Vendor.name vendor = name
  /\ In vendor (vendors db1)
  /\ teams db1 = teams db
  /\ licenses db1 = licenses db
  /\ (db1 = db \/ vendors db1 = (vendors db ++ [vendor])%list).
Proof.
  unfold getOrCreateVendor.
  destruct (vendorsNamed name db) as [|existing rest] eqn:Hsel.
  - unfold createVendor, commit.
    match goal with |- context [if consistent ?d then _ else _] =>
      destruct (consistent d) end; [|discriminate].
    intros H. injection H as <- <-. cbn.
    repeat split; try reflexivity.
    + apply in_or_app. right. now left.
    + now right.
  - intros H. injection H as <- <-.
    assert (Hin : In existing (vendorsNamed name db)) by (rewrite Hsel; now left).
    apply filter_In in Hin. destruct Hin as [Hin Hname].
    apply String.eqb_eq in Hname.
    repeat split; try assumption; try reflexivity. now left.
Qed.

Lemma vendorFor_effect (uuid : string) (now : Z) (body : json) (db db1 : Store)
    (vendor : Vendor.t) :
  vendorFor prepareValue uuid now body db = Ok (vendor, db1) ->
  In vendor (vendors db1)
  /\ teams db1 = teams db
  /\ licenses db1 = licenses db
  /\ (db1 = db \/ vendors db1 = (vendors db ++ [vendor])%list)
  /\ (forall name, member "vendorName" body = Some (JString name) ->
                   Vendor.name vendor = name).
Proof.
  unfold vendorFor.
  destruct (member "vendorName" body) as [[| | |name|l|l]|]; try discriminate;
    intros H; destruct (getOrCreateVendor_effect _ _ _ _ _ _ H)
      as [Hname [Hin [Ht [Hl Hv]]]];
    repeat split; try assumption; intros name' Hn; try discriminate.
  injection Hn as <-. exact Hname.
Qed.

(** X6.  Whatever the request, [POST /api/licenses] leaves the teams as
    they are and adds at most one vendor; it answers 400 exactly when the
    body does not pass the schema, and then the store is untouched; when
    it does not answer 201 the licenses are untouched, but a vendor it
    created for the request stays; when it answers 201 the new license is
    the only one added. *)
Theorem post_license_effects :
  forall (uuidV uuidL : string) (now : Z) (body : json) (db : Store),
    let answer := post_license date_in prepareValue uuidV uuidL now body db in
    teams (snd answer) = teams db
    /\ (vendors (snd answer) = vendors db \/
        exists v, vendors (snd answer) = (vendors db ++ [v])%list)
    /\ (statusOf (fst answer) = 400 <-> is_ok (insertLicenseSchema body) = false)
    /\ (statusOf (fst answer) = 400 -> snd answer = db)
    /\ (statusOf (fst answer) = 201 \/ licenses (snd answer) = licenses db)
    /\ (forall license, fst answer = Json 201 license ->
          licenses (snd answer) = (licenses db ++ [license])%list)
    /\ (statusOf (fst answer) = 201 \/ statusOf (fst answer) = 400 \/
        statusOf (fst answer) = 500).
Proof.
  intros uuidV uuidL now body db. cbv zeta. unfold post_license.
  destruct (insertLicenseSchema body) as [licenseData|e] eqn:Hparse.
  - cbn [is_ok].
    destruct (vendorFor prepareValue uuidV now body db) as [[vendor db1]|e]
      eqn:Hvendor.
    + destruct (vendorFor_effect _ _ _ _ _ _ Hvendor)
        as [_ [Ht [Hl [Hv _]]]].
      assert (Hv' : vendors db1 = vendors db \/
                    exists v, vendors db1 = (vendors db ++ [v])%list).
      { destruct Hv as [->|Hv]; [now left|right; now exists vendor]. }
      destruct (createLicense date_in uuidL now
                  (InsertLicense.withVendorId licenseData (Vendor.id vendor)) db1)
        as [[license db2]|e] eqn:Hcreate; cbn [fst snd statusOf].
      * destruct (createLicense_inserted _ _ _ _ _ _ Hcreate)
          as [_ [_ [_ [-> _]]]]. cbn [teams vendors licenses].
        split; [exact Ht|]. split; [exact Hv'|].
        split; [split; discriminate|]. split; [discriminate|].
        split; [now left|]. split; [|now left].
        intros l Hl'. injection Hl' as <-. now rewrite Hl.
      * split; [exact Ht|]. split; [exact Hv'|].
        split; [split; discriminate|]. split; [discriminate|].
        split; [now right|]. split; [discriminate|]. right. now right.
    + cbn [fst snd statusOf].
      split; [reflexivity|]. split; [now left|].
      split; [split; discriminate|]. split; [discriminate|].
      split; [now right|]. split; [discriminate|]. right. now right.
  - assert (He : e = ZodError).
    { rewrite insertLicenseSchema_fields in Hparse.
      unfold parseFields, zString, zOptionalString in Hparse.
      repeat match type of Hparse with
             | context [match ?x with _ => _ end] =>
                 destruct x; cbn [bind] in Hparse; try discriminate
             end;
        now injection Hparse as <-. }
    subst e. cbn [fst snd statusOf is_ok].
    split; [reflexivity|]. split; [now left|].
    split; [split; reflexivity|]. split; [reflexivity|].
    split; [now right|]. split; [discriminate|]. right. now left.
Qed.

(** X7.  A license that [POST /api/licenses] creates belongs to the vendor
    named by [vendorName], which is in the store afterwards; the
    [vendorId] of the body is not used, and the team is the one the body
    names, which exists. *)
Theorem post_license_vendor :
  forall (uuidV uuidL : string) (now : Z) (body : json) (db db' : Store)
         (license : License.t) (name : string),
    post_license date_in prepareValue uuidV uuidL now body db =
      (Json 201 license, db') ->
    member "vendorName" body = Some (JString name) ->
    (exists vendor,
       In vendor (vendors db')
       /\ Vendor.name vendor = name
       /\ License.vendorId license = Vendor.id vendor)
    /\ member "teamId" body = Some (JString (License.teamId license))
    /\ In (License.teamId license) (map Team.id (teams db')).
Proof.
  intros uuidV uuidL now body db db' license name Hpost Hname.
  unfold post_license in Hpost.
  destruct (insertLicenseSchema body) as [licenseData|[| | |]] eqn:Hparse;
    try discriminate.
  destruct (vendorFor prepareValue uuidV now body db) as [[vendor db1]|e]
    eqn:Hvendor; [|discriminate].
  destruct (createLicense date_in uuidL now
              (InsertLicense.withVendorId licenseData (Vendor.id vendor)) db1)
    as [[row db2]|e] eqn:Hcreate; [|discriminate].
  injection Hpost as -> ->.
  destruct (vendorFor_effect _ _ _ _ _ _ Hvendor) as [Hin [_ [_ [_ Hn]]]].
  destruct (createLicense_inserted _ _ _ _ _ _ Hcreate)
    as [_ [Hv [Ht [Hdb' Hc]]]].
  split; [|split].
  - exists vendor. subst db'. cbn [vendors].
    split; [exact Hin|]. split; [now apply Hn|exact Hv].
  - rewrite Ht. cbn [InsertLicense.withVendorId InsertLicense.teamId].
    rewrite insertLicenseSchema_fields in Hparse.
    unfold parseFields, zString, zOptionalString in Hparse.
    repeat match type of Hparse with
           | context [match member ?k body with _ => _ end] =>
               destruct (member k body) as [[| | |?|?|?]|];
               cbn [bind] in Hparse; try discriminate
           end;
      injection Hparse as <-; reflexivity.
  - unfold consistent in Hc. rewrite !andb_true_iff in Hc.
    destruct Hc as [_ Hok]. rewrite forallb_forall in Hok.
    assert (Hrow : license_ok db' license = true).
    { apply Hok. subst db'. cbn [licenses]. apply in_or_app. right. now left. }
    unfold license_ok in Hrow. rewrite !andb_true_iff in Hrow.
    destruct Hrow as [[[_ Htin] _] _]. now apply existsb_eqb_In.
Qed.
End CreateLicenseStore.

Lemma createLicense_then_getLicense_witness :
  exists row db',
    createLicense isoDate_in "l9" 100 sampleInsert (sampleStore []) = Ok (row, db')
    /\ getLicense "l9" db' = Some row.
Proof.
  eexists. eexists. split; [vm_compute; reflexivity|].
  refine (proj1 (proj2 (createLicense_then_getLicense isoDate_in "l9" 100
                          sampleInsert (sampleStore []) _ _ _))).
  vm_compute. reflexivity.
Defined.

Lemma createLicense_rejects_witness :
  createLicense isoDate_in "l9" 100 sampleInsert emptyStore = Err StoreError.
Proof.
  apply (createLicense_rejects isoDate_in "l9" 100 sampleInsert emptyStore).
  left. intros [].
Defined.

Lemma post_license_vendor_witness :
  exists license db' vendor,
    post_license isoDate_in plainValue "v9" "l9" 100 (licenseBody "19.99" [])
                 (sampleStore []) = (Json 201 license, db')
    /\ In vendor (vendors db')
    /\ Vendor.name vendor = "Acme"
    /\ License.vendorId license = Vendor.id vendor.
Proof.
  eexists. eexists.
  assert (Hpost : post_license isoDate_in plainValue "v9" "l9" 100
                    (licenseBody "19.99" []) (sampleStore []) =
                  (Json 201 _, _)) by (vm_compute; reflexivity).
  destruct (post_license_vendor isoDate_in plainValue "v9" "l9" 100
              (licenseBody "19.99" []) (sampleStore []) _ _ "Acme"
              Hpost eq_refl) as [[vendor [Hin [Hname Hid]]] _].
  exists vendor. split; [exact Hpost|]. split; [exact Hin|].
  split; [exact Hname|exact Hid].
Defined.

(** A request for a team that does not exist fails after its vendor has
    been created: the vendor stays. *)
Example post_license_leaves_vendor :
  let answer := post_license isoDate_in plainValue "v9" "l9" 100
                  (licenseBody "19.99" []) emptyStore in
  statusOf (fst answer) = 500
  /\ map Vendor.name (vendors (snd answer)) = ["Acme"]
  /\ licenses (snd answer) = [].
Proof. vm_compute. repeat split. Qed.

Lemma post_license_effects_witness :
  snd (post_license isoDate_in plainValue "v9" "l9" 100 JNull (sampleStore [])) =
    sampleStore [].
Proof.
  apply (proj1 (proj2 (proj2 (proj2
           (post_license_effects isoDate_in plainValue "v9" "l9" 100 JNull
              (sampleStore [])))))).
  reflexivity.
Defined.

(** ** Listing licenses *)

Lemma searchLicenses_no_truthy (filters : Filters.t) (db : Store) :
  truthy_string (Filters.search filters) = false ->
  truthy_string (Filters.teamId filters) = false ->
  truthy_string (Filters.vendorId filters) = false ->
  truthy_string (Filters.status filters) = false ->
  searchLicenses filters db = getAllLicenses db.
Proof.
  intros H1 H2 H3 H4. unfold searchLicenses, conditions.
  now rewrite H1, H2, H3, H4.
Qed.

(** X8.  [GET /api/licenses] answers 200 with what [searchLicenses]
    returns for the parameters of the request, whichever branch it takes:
    with no parameter, or only empty ones, the search is the whole list,
    newest first. *)
Theorem get_licenses_is_search :
  forall (search teamId vendorId status : option string) (db : Store),
    get_licenses search teamId vendorId status db =
      Json 200 (searchLicenses (Filters.mk search teamId vendorId status) db)
    /\ get_licenses None None None None db = Json 200 (getAllLicenses db)
    /\ get_licenses (Some "") (Some "") (Some "") (Some "") db =
         Json 200 (getAllLicenses db).
Proof.
  intros search teamId vendorId status db. split; [|split; reflexivity].
  unfold get_licenses.
  destruct (truthy_string search) eqn:H1; [reflexivity|].
  destruct (truthy_string teamId) eqn:H2; [reflexivity|].
  destruct (truthy_string vendorId) eqn:H3; [reflexivity|].
  destruct (truthy_string status) eqn:H4; [reflexivity|].
  cbn [orb]. f_equal. symmetry. now apply searchLicenses_no_truthy.
Qed.

(** X9.  For a team id that is not empty, a search by team returns the
    licenses [getLicensesByTeam] returns, the same rows as many times,
    with the newest first; and [getLicensesByTeam] returns exactly the
    licenses of the table that belong to the team. *)
Theorem searchLicenses_by_team :
  forall (teamId : string) (db : Store),
    teamId <> "" ->
    Permutation (getLicensesByTeam teamId db)
                (searchLicenses (Filters.mk None (Some teamId) None None) db)
    /\ newestFirst (searchLicenses (Filters.mk None (Some teamId) None None) db)
    /\ (forall l, In l (getLicensesByTeam teamId db) <->
                  In l (licenses db) /\ License.teamId l = teamId).
Proof.
  intros teamId db Hne.
  assert (Hsearch : searchLicenses (Filters.mk None (Some teamId) None None) db =
                    orderBy desc_createdAt (getLicensesByTeam teamId db)).
  { unfold searchLicenses, conditions, getLicensesByTeam.
    cbn [Filters.search Filters.teamId Filters.vendorId Filters.status truthy_string].
    rewrite (proj2 (String.eqb_neq teamId "") Hne). cbn [negb app].
    f_equal. apply filter_ext. intros l. unfold and_all. cbn [forallb opt_eqb].
    now rewrite andb_true_r. }
  split; [|split].
  - rewrite Hsearch. apply Permutation_sym, Permutation_orderBy.
  - rewrite Hsearch. apply newestFirst_orderBy.
  - intros l. unfold getLicensesByTeam. rewrite filter_In, String.eqb_eq.
    reflexivity.
Qed.

Lemma searchLicenses_by_team_witness :
  Permutation (getLicensesByTeam "t1" searchExample)
              (searchLicenses (Filters.mk None (Some "t1") None None) searchExample).
Proof.
  apply (proj1 (searchLicenses_by_team "t1" searchExample
                  ltac:(discriminate))).
Defined.

(** With an empty team id the two differ: the search ignores the filter,
    the team route looks for licenses whose team id is empty. *)
Example searchLicenses_empty_team :
  List.length (searchLicenses (Filters.mk None (Some "") None None) searchExample) = 3%nat
  /\ getLicensesByTeam "" searchExample = [].
Proof. vm_compute. split; reflexivity. Qed.

(** X10.  In a store that satisfies its constraints no license belongs to
    a team that does not exist, so the team route answers 200 with an
    empty list for an unknown team; it has no 404. *)
Theorem getLicensesByTeam_unknown_team :
  forall (teamId : string) (db : Store),
    consistent db = true ->
    ~ In teamId (map Team.id (teams db)) ->
    getLicensesByTeam teamId db = []
    /\ get_team_licenses teamId db = Json 200 [].
Proof.
  intros teamId db Hc Hunknown.
  assert (Hempty : getLicensesByTeam teamId db = []).
  { unfold getLicensesByTeam.
    destruct (filter (fun l => String.eqb (License.teamId l) teamId) (licenses db))
      as [|l rest] eqn:Hf; [reflexivity|].
    exfalso.
    assert (Hl : In l (filter (fun l => String.eqb (License.teamId l) teamId)
                              (licenses db))) by (rewrite Hf; now left).
    apply filter_In in Hl. destruct Hl as [Hl Ht]. apply String.eqb_eq in Ht.
    unfold consistent in Hc. rewrite !andb_true_iff in Hc.
    destruct Hc as [_ Hok]. rewrite forallb_forall in Hok.
    specialize (Hok l Hl). unfold license_ok in Hok.
    rewrite !andb_true_iff in Hok. destruct Hok as [[[_ Hteam] _] _].
    apply existsb_eqb_In in Hteam. rewrite Ht in Hteam. contradiction. }
  split; [exact Hempty|]. unfold get_team_licenses. now rewrite Hempty.
Qed.

Lemma getLicensesByTeam_unknown_team_witness :
  getLicensesByTeam "t2" searchExample = [].
Proof.
  apply (proj1 (getLicensesByTeam_unknown_team "t2" searchExample eq_refl
                  ltac:(simpl; intros [H|[]]; discriminate))).
Defined.

(** ** Teams, vendors and users *)

Lemma license_ok_more_teams (db : Store) (t : Team.t) (l : License.t) :
  license_ok db l = true ->
  license_ok (mkStore (teams db ++ [t]) (vendors db) (licenses db)) l = true.
Proof.
  unfold license_ok. simpl. rewrite !andb_true_iff.
  intros [[[Hv Ht] Hs] Hu]. repeat split; try assumption.
  rewrite map_app, existsb_app, Ht. reflexivity.
Qed.

Lemma consistent_add_team (db : Store) (t : Team.t) :
  consistent db = true ->
  ~ In (Team.id t) (map Team.id (teams db)) ->
  ~ In (Team.name t) (map Team.name (teams db)) ->
  consistent (mkStore (teams db ++ [t]) (vendors db) (licenses db)) = true.
Proof.
  unfold consistent. simpl. rewrite !andb_true_iff.
  intros [[[[[Hti Htn] Hvi] Hvn] Hli] Hok] Hid Hname.
  repeat split; try assumption.
  - rewrite map_app. now apply uniqueb_snoc.
  - rewrite map_app. now apply uniqueb_snoc.
  - rewrite forallb_forall in *. intros l Hl.
    now apply license_ok_more_teams, Hok.
Qed.

Lemma find_team_id_absent (id : string) (ts : list Team.t) :
  ~ In id (map Team.id ts) ->
  find (fun t => String.eqb (Team.id t) id) ts = None.
Proof.
  induction ts as [|t ts' IH]; intros Hn; [reflexivity|].
  simpl. destruct (String.eqb_spec (Team.id t) id) as [Heq|Hne].
  - exfalso. apply Hn. now left.
  - apply IH. intros H. apply Hn. now right.
Qed.

Lemma find_team_name_absent (name : string) (ts : list Team.t) :
  ~ In name (map Team.name ts) ->
  find (fun t => String.eqb (Team.name t) name) ts = None.
Proof.
  induction ts as [|t ts' IH]; intros Hn; [reflexivity|].
  simpl. destruct (String.eqb_spec (Team.name t) name) as [Heq|Hne].
  - exfalso. apply Hn. now left.
  - apply IH. intros H. apply Hn. now right.
Qed.

Lemma insertTeamSchema_error (body : json) (e : error) :
  insertTeamSchema body = Err e -> e = ZodError.
Proof.
  unfold insertTeamSchema, zString, zOptionalString.
  destruct body; try (intros H; now injection H as <-).
  repeat match goal with
         | |- context [match ?x with _ => _ end] =>
             destruct x; cbn [bind]; try discriminate
         end;
    intros H; now injection H as <-.
Qed.

Lemma insertVendorSchema_error (body : json) (e : error) :
  insertVendorSchema body = Err e -> e = ZodError.
Proof.
  unfold insertVendorSchema, zString, zOptionalString.
  destruct body; try (intros H; now injection H as <-).
  repeat match goal with
         | |- context [match ?x with _ => _ end] =>
             destruct x; cbn [bind]; try discriminate
         end;
    intros H; now injection H as <-.
Qed.

(** X11.  In a store that satisfies its constraints, [createTeam] with a
    fresh id and a name no team has succeeds: the new team has the given
    name and description, is found by [getTeam] under its id, is listed by
    [getAllTeams], and vendors and licenses are untouched. *)
Theorem createTeam_then_getTeam :
  forall (collate : string -> string -> bool) (uuid : string) (now : Z)
         (team : InsertTeam.t) (db : Store),
    consistent db = true ->
    ~ In uuid (map Team.id (teams db)) ->
    ~ In (InsertTeam.name team) (map Team.name (teams db)) ->
    exists newTeam db',
      createTeam uuid now team db = Ok (newTeam, db')
      /\ newTeam = Team.mk uuid (InsertTeam.name team)
                           (InsertTeam.description team) (Some now)
      /\ getTeam uuid db' = Some newTeam
      /\ In newTeam (getAllTeams collate db')
      /\ List.length (getAllTeams collate db') =
           S (List.length (getAllTeams collate db))
      /\ vendors db' = vendors db
      /\ licenses db' = licenses db
      /\ consistent db' = true.
Proof.
  intros collate uuid now team db Hc Hid Hname.
  set (newTeam := Team.mk uuid (InsertTeam.name team)
                          (InsertTeam.description team) (Some now)).
  set (db' := mkStore (teams db ++ [newTeam]) (vendors db) (licenses db)).
  assert (Hc' : consistent db' = true)
    by (apply consistent_add_team; assumption).
  exists newTeam, db'.
  split. { unfold createTeam, commit. fold newTeam. fold db'. now rewrite Hc'. }
  split; [reflexivity|]. split.
  { unfold getTeam, db'. cbn [teams].
    rewrite find_snoc, (find_team_id_absent _ _ Hid). cbn [newTeam Team.id].
    now rewrite String.eqb_refl. }
  split.
  { unfold getAllTeams. apply In_orderBy. unfold db'. cbn [teams].
    apply in_or_app. right. now left. }
  split.
  { unfold getAllTeams, db'. cbn [teams].
    rewrite !length_orderBy, length_app. cbn [List.length]. lia. }
  split; [reflexivity|]. split; [reflexivity|exact Hc'].
Qed.

Lemma createTeam_then_getTeam_witness :
  exists newTeam db',
    createTeam "t2" 7 (InsertTeam.mk "Design" None) (sampleStore []) =
      Ok (newTeam, db')
    /\ getTeam "t2" db' = Some newTeam.
Proof.
  destruct (createTeam_then_getTeam byteOrder "t2" 7 (InsertTeam.mk "Design" None)
              (sampleStore []) eq_refl)
    as [newTeam [db' [Hcreate [_ [Hget _]]]]].
  - simpl. intros [H|[]]. discriminate.
  - simpl. intros [H|[]]. discriminate.
  - exists newTeam, db'. split; assumption.
Defined.

Lemma team_name_taken (db : Store) (t : Team.t) :
  In (Team.name t) (map Team.name (teams db)) ->
  consistent (mkStore (teams db ++ [t]) (vendors db) (licenses db)) = false.
Proof.
  intros Hin. unfold consistent. cbn [teams].
  rewrite (map_app Team.name). cbn [map].
  rewrite (uniqueb_repeated _ _ Hin).
  now rewrite andb_false_r.
Qed.

(** X12.  Team names are unique, and users share them: when a team has
    the name, [createTeam] with that name and [createUser] with that user
    name both fail with the store's error, and [POST /api/teams] answers
    500 and leaves the store as it was. *)
Theorem team_name_is_unique :
  forall (uuid name : string) (now : Z) (db : Store),
    In name (map Team.name (teams db)) ->
    (forall description,
       createTeam uuid now (InsertTeam.mk name description) db = Err StoreError)
    /\ (forall password,
          createUser uuid now (InsertUser.mk name password) db = Err StoreError)
    /\ (forall body description,
          insertTeamSchema body = Ok (InsertTeam.mk name description) ->
          post_team uuid now body db = (Message 500 "Failed to create team", db)).
Proof.
  intros uuid name now db Hin.
  assert (Hteam : forall description,
             createTeam uuid now (InsertTeam.mk name description) db =
             Err StoreError).
  { intros description. unfold createTeam, commit.
    cbn [InsertTeam.name InsertTeam.description].
    now rewrite (team_name_taken db (Team.mk uuid name description (Some now))). }
  split; [exact Hteam|]. split.
  - intros password. unfold createUser, commit.
    cbn [InsertUser.username InsertUser.password].
    now rewrite (team_name_taken db (Team.mk uuid name (Some password) (Some now))).
  - intros body description Hparse. unfold post_team.
    now rewrite Hparse, Hteam.
Qed.

Lemma team_name_is_unique_witness :
  createTeam "t2" 7 (InsertTeam.mk "Platform" None) (sampleStore []) =
    Err StoreError.
Proof.
  apply (proj1 (team_name_is_unique "t2" "Platform" 7 (sampleStore [])
                  ltac:(now left))).
Defined.

(** X13.  [POST /api/teams] answers 400 exactly when [insertTeamSchema]
    rejects the body, and then changes nothing; it never changes vendors
    or licenses; a created team is the one row added to the teams, its
    name is the [name] of the body, and its [id] and [createdAt] are the
    generated id and the clock, whatever the body says. *)
Theorem post_team_effects :
  forall (uuid : string) (now : Z) (body : json) (db : Store),
    let answer := post_team uuid now body db in
    (statusOf (fst answer) = 400 <-> is_ok (insertTeamSchema body) = false)
    /\ (statusOf (fst answer) = 400 -> snd answer = db)
    /\ vendors (snd answer) = vendors db
    /\ licenses (snd answer) = licenses db
    /\ (forall team, fst answer = Json 201 team ->
          Team.id team = uuid
          /\ Team.createdAt team = Some now
          /\ member "name" body = Some (JString (Team.name team))
          /\ teams (snd answer) = (teams db ++ [team])%list).
Proof.
  intros uuid now body db. cbv zeta. unfold post_team.
  destruct (insertTeamSchema body) as [teamData|e] eqn:Hparse.
  - cbn [is_ok]. unfold createTeam, commit.
    match goal with |- context [if consistent ?d then _ else _] =>
      destruct (consistent d) end; cbn [fst snd statusOf teams vendors licenses].
    + split; [split; discriminate|]. split; [discriminate|].
      split; [reflexivity|]. split; [reflexivity|].
      intros team Hteam. injection Hteam as <-. cbn.
      repeat split.
      unfold insertTeamSchema, zString, zOptionalString in Hparse.
      destruct body; try discriminate.
      destruct (member "name" (JObject l)) as [[| | |s|?|?]|];
        cbn [bind] in Hparse; try discriminate.
      destruct (member "description" (JObject l)) as [[| | |?|?|?]|];
        cbn [bind] in Hparse; try discriminate;
        injection Hparse as <-; reflexivity.
    + split; [split; discriminate|]. split; [discriminate|].
      split; [reflexivity|]. split; [reflexivity|]. discriminate.
  - rewrite (insertTeamSchema_error _ _ Hparse).
    cbn [fst snd statusOf is_ok].
    split; [split; reflexivity|]. split; [reflexivity|].
    split; [reflexivity|]. split; [reflexivity|]. discriminate.
Qed.

Lemma post_team_effects_witness :
  snd (post_team "t2" 7 (JObject [("name", JNumber (ofZ 3))]) (sampleStore [])) =
    sampleStore [].
Proof.
  apply (proj1 (proj2 (post_team_effects "t2" 7
                         (JObject [("name", JNumber (ofZ 3))]) (sampleStore [])))).
  reflexivity.
Defined.

Lemma vendorsNamed_last (name : string) (vs : list Vendor.t) (v : Vendor.t) :
  NoDup (map Vendor.name (vs ++ [v])) ->
  Vendor.name v = name ->
  filter (fun w => String.eqb (Vendor.name w) name) (vs ++ [v]) = [v].
Proof.
  intros Hnd Hname. rewrite filter_app. cbn [filter].
  rewrite (proj2 (String.eqb_eq _ _) Hname).
  rewrite map_app in Hnd. cbn [map] in Hnd.
  apply NoDup_snoc_absent in Hnd.
  destruct (filter (fun w => String.eqb (Vendor.name w) name) vs) as [|w ws] eqn:Hf;
    [reflexivity|].
  exfalso. apply Hnd.
  assert (Hw : In w (filter (fun w => String.eqb (Vendor.name w) name) vs))
    by (rewrite Hf; now left).
  apply filter_In in Hw. destruct Hw as [Hw Hwn]. apply String.eqb_eq in Hwn.
  rewrite Hname, <- Hwn. now apply in_map.
Qed.

Lemma find_vendor_id_absent (id : string) (vs : list Vendor.t) :
  ~ In id (map Vendor.id vs) ->
  find (fun v => String.eqb (Vendor.id v) id) vs = None.
Proof.
  induction vs as [|v vs' IH]; intros Hn; [reflexivity|].
  simpl. destruct (String.eqb_spec (Vendor.id v) id) as [Heq|Hne].
  - exfalso. apply Hn. now left.
  - apply IH. intros H. apply Hn. now right.
Qed.

(** X14.  A vendor that [createVendor] has inserted is found by
    [getVendor] under its id, and [getOrCreateVendor] with its name
    returns that vendor and creates nothing: vendors made through
    [POST /api/vendors] are the ones license creation reuses. *)
Theorem createVendor_then_reused :
  forall (uuid uuid' : string) (now now' : Z) (vendor : InsertVendor.t)
         (db db' : Store) (newVendor : Vendor.t),
    createVendor uuid now vendor db = Ok (newVendor, db') ->
    getVendor uuid db' = Some newVendor
    /\ getOrCreateVendor uuid' now' (InsertVendor.name vendor) db' =
         Ok (newVendor, db')
    /\ post_vendor uuid now
         (JObject [("name", JString (InsertVendor.name vendor))]) db =
         (Json 201 (Vendor.mk uuid (InsertVendor.name vendor) None None (Some now)),
          mkStore (teams db)
                  (vendors db ++
                   [Vendor.mk uuid (InsertVendor.name vendor) None None (Some now)])
                  (licenses db)).
Proof.
  intros uuid uuid' now now' vendor db db' newVendor Hcreate.
  unfold createVendor, commit in Hcreate.
  match type of Hcreate with context [if consistent ?d then _ else _] =>
    destruct (consistent d) eqn:Hc end; [|discriminate].
  injection Hcreate as <- <-.
  pose proof Hc as Hc0.
  unfold consistent in Hc. cbn [teams vendors licenses] in Hc.
  rewrite !andb_true_iff in Hc.
  destruct Hc as [[[[[Hti Htn] Hvi] Hvn] Hli] Hok].
  apply uniqueb_NoDup in Hvi. apply uniqueb_NoDup in Hvn.
  split; [|split].
  - unfold getVendor. cbn [vendors]. rewrite find_snoc.
    rewrite map_app in Hvi. cbn [map Vendor.id] in Hvi.
    apply NoDup_snoc_absent in Hvi.
    rewrite (find_vendor_id_absent _ _ Hvi). cbn [Vendor.id].
    now rewrite String.eqb_refl.
  - unfold getOrCreateVendor, vendorsNamed. cbn [vendors].
    now rewrite (vendorsNamed_last (InsertVendor.name vendor) _ _ Hvn eq_refl).
  - unfold post_vendor. cbn [insertVendorSchema member find fst snd String.eqb].
    cbn. unfold createVendor, commit.
    cbn [InsertVendor.name InsertVendor.website InsertVendor.contactEmail].
    assert (Hc1 : consistent
              (mkStore (teams db)
                 (vendors db ++
                  [Vendor.mk uuid (InsertVendor.name vendor) None None (Some now)])
                 (licenses db)) = true).
    { unfold consistent. cbn [teams vendors licenses].
      rewrite !andb_true_iff. repeat split; try assumption.
      - apply uniqueb_NoDup. rewrite map_app in *. exact Hvi.
      - apply uniqueb_NoDup. rewrite map_app in *. exact Hvn.
      - rewrite forallb_forall in *. intros l Hl. specialize (Hok l Hl).
        unfold license_ok in *. cbn [teams vendors] in *.
        rewrite !map_app in *. exact Hok. }
    now rewrite Hc1.
Qed.

Lemma createVendor_then_reused_witness :
  getVendor "v2" (mkStore (teams (sampleStore []))
                    (vendors (sampleStore []) ++
                     [Vendor.mk "v2" "Globex" None None (Some 5)]) []) =
    Some (Vendor.mk "v2" "Globex" None None (Some 5)).
Proof.
  apply (proj1 (createVendor_then_reused "v2" "v3" 5 6
                  (InsertVendor.mk "Globex" None None) (sampleStore []) _ _
                  eq_refl)).
Defined.

(** ** Users live in the teams table; listings *)

(** X15.  [createUser] writes a team: in a store that satisfies its
    constraints, with a fresh id and a user name no team has, it succeeds,
    the user is found by [getUserByUsername] and by [getUser], the same
    row is found by [getTeam] and listed by [getAllTeams], and its
    description is the password as it was given. *)
Theorem createUser_is_a_team :
  forall (collate : string -> string -> bool) (uuid : string) (now : Z)
         (insertUser : InsertUser.t) (db : Store),
    consistent db = true ->
    ~ In uuid (map Team.id (teams db)) ->
    ~ In (InsertUser.username insertUser) (map Team.name (teams db)) ->
    exists user db',
      createUser uuid now insertUser db = Ok (user, db')
      /\ getUserByUsername (InsertUser.username insertUser) db' = Some user
      /\ getUser uuid db' = Some user
      /\ getTeam uuid db' = Some user
      /\ In user (getAllTeams collate db')
      /\ Team.name user = InsertUser.username insertUser
      /\ Team.description user = Some (InsertUser.password insertUser).
Proof.
  intros collate uuid now insertUser db Hc Hid Hname.
  set (user := Team.mk uuid (InsertUser.username insertUser)
                       (Some (InsertUser.password insertUser)) (Some now)).
  set (db' := mkStore (teams db ++ [user]) (vendors db) (licenses db)).
  assert (Hc' : consistent db' = true)
    by (apply consistent_add_team; assumption).
  assert (Hfind : find (fun t => String.eqb (Team.id t) uuid) (teams db') =
                  Some user).
  { unfold db'. cbn [teams].
    rewrite find_snoc, (find_team_id_absent _ _ Hid). cbn [user Team.id].
    now rewrite String.eqb_refl. }
  exists user, db'.
  split. { unfold createUser, commit. fold user. fold db'. now rewrite Hc'. }
  split.
  { unfold getUserByUsername, db'. cbn [teams].
    rewrite find_snoc, (find_team_name_absent _ _ Hname). cbn [user Team.name].
    now rewrite String.eqb_refl. }
  split; [exact Hfind|]. split; [exact Hfind|]. split.
  { unfold getAllTeams. apply In_orderBy. unfold db'. cbn [teams].
    apply in_or_app. right. now left. }
  split; reflexivity.
Qed.

Lemma createUser_is_a_team_witness :
  exists user db',
    createUser "u1" 9 (InsertUser.mk "ada" "secret") (sampleStore []) =
      Ok (user, db')
    /\ getTeam "u1" db' = Some user.
Proof.
  destruct (createUser_is_a_team byteOrder "u1" 9 (InsertUser.mk "ada" "secret")
              (sampleStore []) eq_refl)
    as [user [db' [Hcreate [_ [_ [Hget _]]]]]].
  - simpl. intros [H|[]]. discriminate.
  - simpl. intros [H|[]]. discriminate.
  - exists user, db'. split; assumption.
Defined.

Lemma find_some_name (name : string) (ts : list Team.t) (t : Team.t) :
  find (fun t => String.eqb (Team.name t) name) ts = Some t ->
  In t ts /\ Team.name t = name.
Proof.
  intros H. apply find_some in H. destruct H as [Hin Heq].
  apply String.eqb_eq in Heq. now split.
Qed.

(** X16.  [getUserByUsername] cannot tell users from teams: the row it
    returns is a row of the teams table with that name, every team is
    returned for its own name when the store satisfies its constraints,
    and a name no team has gives nothing. *)
Theorem getUserByUsername_reads_teams :
  forall (db : Store),
    consistent db = true ->
    (forall t, In t (teams db) -> getUserByUsername (Team.name t) db = Some t)
    /\ (forall username t,
          getUserByUsername username db = Some t ->
          In t (teams db) /\ Team.name t = username)
    /\ (forall username,
          getUserByUsername username db = None <->
          ~ In username (map Team.name (teams db)))
    /\ (forall id, getUser id db = getTeam id db).
Proof.
  intros db Hc.
  unfold consistent in Hc. rewrite !andb_true_iff in Hc.
  destruct Hc as [[[[[Hti Htn] Hvi] Hvn] Hli] Hok].
  apply uniqueb_NoDup in Htn.
  split; [|split; [|split]].
  - intros t Hin. unfold getUserByUsername.
    destruct (find (fun t0 => String.eqb (Team.name t0) (Team.name t)) (teams db))
      as [t'|] eqn:Hf.
    + apply find_some_name in Hf. destruct Hf as [Hin' Hname].
      f_equal. revert Htn Hin Hin' Hname. generalize (teams db) as ts.
      induction ts as [|a ts IH]; intros Hnd H1 H2 Hname; [contradiction|].
      cbn [map] in Hnd. inversion Hnd as [|? ? Hna Hnd']; subst.
      destruct H1 as [->|H1], H2 as [->|H2].
      * reflexivity.
      * exfalso. apply Hna. rewrite <- Hname. now apply in_map.
      * exfalso. apply Hna. rewrite Hname. now apply in_map.
      * now apply IH.
    + exfalso. apply (find_none _ _ Hf) in Hin.
      now rewrite String.eqb_refl in Hin.
  - intros username t Hf. now apply find_some_name.
  - intros username. unfold getUserByUsername. split.
    + intros Hf Hin. apply in_map_iff in Hin. destruct Hin as [t [Hname Hin]].
      apply (find_none _ _ Hf) in Hin. rewrite Hname in Hin.
      now rewrite String.eqb_refl in Hin.
    + apply find_team_name_absent.
  - reflexivity.
Qed.

Lemma getUserByUsername_reads_teams_witness :
  getUserByUsername "Platform" (sampleStore []) =
    Some (Team.mk "t1" "Platform" None (Some 0)).
Proof.
  apply (proj1 (getUserByUsername_reads_teams (sampleStore []) eq_refl)
               (Team.mk "t1" "Platform" None (Some 0))).
  now left.
Defined.

(** X17.  [getAllTeams] and [getAllVendors] list every row of their table
    exactly once (the listing is a permutation of the table), in
    ascending order of name under the store's collation, provided the
    collation compares any two names. *)
Theorem getAllTeams_sorted_permutation :
  forall (collate : string -> string -> bool) (db : Store),
    (forall a b, collate a b = true \/ collate b a = true) ->
    Permutation (teams db) (getAllTeams collate db)
    /\ sortedb (fun a b => collate (Team.name a) (Team.name b))
               (getAllTeams collate db) = true
    /\ Permutation (vendors db) (getAllVendors collate db)
    /\ sortedb (fun a b => collate (Vendor.name a) (Vendor.name b))
               (getAllVendors collate db) = true.
Proof.
  intros collate db Htotal. unfold getAllTeams, getAllVendors.
  split; [apply Permutation_sym, Permutation_orderBy|].
  split; [apply sortedb_orderBy; intros x y; apply Htotal|].
  split; [apply Permutation_sym, Permutation_orderBy|].
  apply sortedb_orderBy; intros x y; apply Htotal.
Qed.

Lemma getAllTeams_sorted_permutation_witness :
  Permutation (teams (sampleStore [])) (getAllTeams byteOrder (sampleStore [])).
Proof.
  apply (proj1 (getAllTeams_sorted_permutation byteOrder (sampleStore [])
                  String.leb_total)).
Defined.

(** ** The expiry window: edges *)

Lemma utcDay_monotone (t t' : Z) : t <= t' -> utcDay t <= utcDay t'.
Proof.
  intros H. unfold utcDay. apply Z.div_le_mono; [reflexivity|exact H].
Qed.

Lemma addDays_value (LocalTZA : Z -> bool -> Z) (t days futureDate : Z) :
  addDays LocalTZA t days = Some futureDate ->
  futureDate = UTC LocalTZA (LocalTime LocalTZA t + days * msPerDay).
Proof.
  unfold addDays, TimeClip.
  destruct (Z.abs (UTC LocalTZA (LocalTime LocalTZA t + days * msPerDay)) <=? maxTime);
    [|discriminate].
  intros H. now injection H as <-.
Qed.

(** How [getExpiringLicenses] ends, by the date ahead and the two days. *)
Lemma getExpiringLicenses_outcome (LocalTZA : Z -> bool -> Z) (now now' days : Z)
    (db : Store) :
  match addDays LocalTZA now days with
  | None => getExpiringLicenses LocalTZA now now' days db = Err RangeError
  | Some futureDate =>
      (isoDay 1 1 1 <= utcDay futureDate <= isoDay 9999 12 31
       /\ isoDay 1 1 1 <= utcDay now' <= isoDay 9999 12 31
       /\ getExpiringLicenses LocalTZA now now' days db =
            Ok (filter (expiresBetween (utcDay now') (utcDay futureDate))
                       (licenses db)))
      \/ (~ (isoDay 1 1 1 <= utcDay futureDate <= isoDay 9999 12 31
             /\ isoDay 1 1 1 <= utcDay now' <= isoDay 9999 12 31)
          /\ getExpiringLicenses LocalTZA now now' days db = Err StoreError)
  end.
Proof.
  destruct (addDays LocalTZA now days) as [futureDate|] eqn:Hadd.
  - unfold getExpiringLicenses. rewrite Hadd.
    destruct (isoDate_param (utcDay futureDate)) as [upper|e1] eqn:Hupper.
    + destruct (isoDate_param_value _ _ Hupper) as [-> Hu].
      destruct (isoDate_param (utcDay now')) as [lower|e2] eqn:Hlower.
      * destruct (isoDate_param_value _ _ Hlower) as [-> Hl].
        left. split; [exact Hu|]. split; [exact Hl|].
        cbn [bind]. now rewrite expiring_filter.
      * destruct (isoDate_param_error _ _ Hlower) as [-> Hl].
        right. split; [tauto|reflexivity].
    + destruct (isoDate_param_error _ _ Hupper) as [-> Hu].
      right. split; [tauto|reflexivity].
  - unfold getExpiringLicenses. now rewrite Hadd.
Qed.

(** X18.  [getExpiringLicenses] fails in two ways.  It throws a range
    error exactly when the date [days] ahead is not one a [Date] can
    hold, where [toISOString] throws; in a zone with a fixed offset that
    is when it is further than 8.64e15 ms from the epoch.  It fails with
    the store's error exactly when the date is valid but one of the two
    days sent to the store is not in the years 0001 to 9999.  In every
    other case it succeeds.  [GET /api/analytics/expiring] answers 200
    when it succeeds and 500 when it fails. *)
Theorem getExpiringLicenses_range_error :
  forall (LocalTZA : Z -> bool -> Z) (now now' days : Z) (db : Store),
    (getExpiringLicenses LocalTZA now now' days db = Err RangeError <->
       addDays LocalTZA now days = None)
    /\ (getExpiringLicenses LocalTZA now now' days db = Err StoreError <->
          exists futureDate,
            addDays LocalTZA now days = Some futureDate
            /\ ~ (isoDay 1 1 1 <= utcDay futureDate <= isoDay 9999 12 31
                  /\ isoDay 1 1 1 <= utcDay now' <= isoDay 9999 12 31))
    /\ (is_ok (getExpiringLicenses LocalTZA now now' days db) = true <->
          exists futureDate,
            addDays LocalTZA now days = Some futureDate
            /\ isoDay 1 1 1 <= utcDay futureDate <= isoDay 9999 12 31
            /\ isoDay 1 1 1 <= utcDay now' <= isoDay 9999 12 31)
    /\ (forall q, expiringDays q = days ->
          statusOf (get_expiring LocalTZA now now' q db) =
            if is_ok (getExpiringLicenses LocalTZA now now' days db)
            then 200 else 500)
    /\ (forall offset,
          (forall instant isUTC, LocalTZA instant isUTC = offset) ->
          (addDays LocalTZA now days = None <->
             maxTime < Z.abs (now + days * msPerDay))).
Proof.
  intros LocalTZA now now' days db.
  pose proof (getExpiringLicenses_outcome LocalTZA now now' days db) as Hout.
  split; [|split; [|split; [|split]]].
  - destruct (addDays LocalTZA now days) as [futureDate|].
    + destruct Hout as [[_ [_ ->]]|[_ ->]]; split; discriminate.
    + rewrite Hout. split; reflexivity.
  - destruct (addDays LocalTZA now days) as [futureDate|].
    + destruct Hout as [[Hu [Hl ->]]|[Hbad ->]].
      * split; [discriminate|]. intros [f [Hf Hno]]. injection Hf as <-. tauto.
      * split; [|reflexivity]. intros _. exists futureDate. now split.
    + rewrite Hout. split; [discriminate|]. intros [f [Hf _]]. discriminate.
  - destruct (addDays LocalTZA now days) as [futureDate|].
    + destruct Hout as [[Hu [Hl ->]]|[Hbad ->]]; cbn [is_ok].
      * split; [|reflexivity]. intros _. exists futureDate. now repeat split.
      * split; [discriminate|]. intros [f [Hf [Hu Hl]]]. injection Hf as <-. tauto.
    + rewrite Hout. cbn [is_ok]. split; [discriminate|].
      intros [f [Hf _]]. discriminate.
  - intros q Hq. unfold get_expiring. rewrite Hq.
    destruct (getExpiringLicenses LocalTZA now now' days db); reflexivity.
  - intros offset Hfixed. rewrite (addDays_fixed _ offset) by exact Hfixed.
    unfold TimeClip.
    destruct (Z.leb_spec (Z.abs (now + days * msPerDay)) maxTime);
      split; try discriminate; try reflexivity; lia.
Qed.

Lemma getExpiringLicenses_range_error_witness :
  statusOf (get_expiring (fixedZone 0) 0 0 (Some (QString "99999999999"))
                         (sampleStore [])) = 500
  /\ getExpiringLicenses (fixedZone 0) 0 0 99999999999 (sampleStore []) =
       Err RangeError.
Proof.
  split.
  - exact (proj1 (proj2 (proj2 (proj2
             (getExpiringLicenses_range_error (fixedZone 0) 0 0 99999999999
                (sampleStore [])))))
             (Some (QString "99999999999")) eq_refl).
  - apply (proj1 (getExpiringLicenses_range_error (fixedZone 0) 0 0 99999999999
                    (sampleStore []))).
    reflexivity.
Defined.

(** Three million days ahead is a date [Date] can hold, in the year
    10237, which the store does not read: the route answers 500.  So it
    does for 800000 days back, before the year 0001. *)
Example getExpiringLicenses_far_dates :
  getExpiringLicenses (fixedZone 0) (noon (isoDay 2024 1 1))
                      (noon (isoDay 2024 1 1)) 3000000 (sampleStore []) =
    Err StoreError
  /\ get_expiring (fixedZone 0) (noon (isoDay 2024 1 1)) (noon (isoDay 2024 1 1))
                  (Some (QString "-800000")) (sampleStore []) =
       Message 500 "Failed to fetch expiring licenses".
Proof. split; reflexivity. Qed.

(** X19.  A window that ends before it starts is empty.  When no two
    offsets of the server's zone differ by more than [shift], the clock
    does not run backwards between its two readings, and [days] is so
    far below zero that [(days + 1)] days and [shift] together are not
    positive, [getExpiringLicenses] returns no license and the route
    answers 200 with an empty list, provided the dates are ones the call
    can use.  In a zone with a fixed offset that is every negative
    [days]. *)
Theorem getExpiringLicenses_negative_days :
  forall (LocalTZA : Z -> bool -> Z) (now now' days shift futureDate : Z)
         (db : Store),
    (forall a b, LocalTZA a true - LocalTZA b false <= shift) ->
    (days + 1) * msPerDay + shift <= 0 ->
    now <= now' ->
    addDays LocalTZA now days = Some futureDate ->
    isoDay 1 1 1 <= utcDay futureDate <= isoDay 9999 12 31 ->
    isoDay 1 1 1 <= utcDay now' <= isoDay 9999 12 31 ->
    getExpiringLicenses LocalTZA now now' days db = Ok []
    /\ (forall q, expiringDays q = days ->
          get_expiring LocalTZA now now' q db = Json 200 []).
Proof.
  intros LocalTZA now now' days shift futureDate db Hshift Hneg Hclock Hadd Hu Hl.
  assert (Hempty : getExpiringLicenses LocalTZA now now' days db = Ok []).
  { rewrite (getExpiringLicenses_between _ _ _ _ _ _ Hadd Hu Hl). f_equal.
    assert (Hbefore : utcDay futureDate < utcDay now').
    { rewrite (addDays_value _ _ _ _ Hadd). unfold UTC, LocalTime.
      pose proof (Hshift now (now + LocalTZA now true + days * msPerDay)) as Hs.
      assert (Hle : now + LocalTZA now true + days * msPerDay -
                    LocalTZA (now + LocalTZA now true + days * msPerDay) false
                    <= now' + (-1) * msPerDay) by lia.
      apply utcDay_monotone in Hle. rewrite utcDay_addDays in Hle. lia. }
    induction (licenses db) as [|l ls IH]; [reflexivity|].
    cbn [filter]. rewrite IH. unfold expiresBetween.
    destruct (License.expiryDate l) as [d|]; [|now rewrite andb_false_r].
    destruct (Z.leb_spec (utcDay now') d);
      destruct (Z.leb_spec d (utcDay futureDate));
      cbn [andb]; rewrite ?andb_false_r; try reflexivity. lia. }
  split; [exact Hempty|].
  intros q Hq. unfold get_expiring. now rewrite Hq, Hempty.
Qed.

Lemma getExpiringLicenses_negative_days_witness :
  get_expiring (fixedZone 0) (noon (isoDay 2024 1 1)) (noon (isoDay 2024 1 1))
               (Some (QString "-5")) (sampleStore expiringExample) = Json 200 [].
Proof.
  refine (proj2 (getExpiringLicenses_negative_days (fixedZone 0)
                   (noon (isoDay 2024 1 1)) (noon (isoDay 2024 1 1)) (-5) 0
                   (noon (isoDay 2023 12 27)) (sampleStore expiringExample)
                   _ _ _ _ _ _) (Some (QString "-5")) eq_refl);
    first [ reflexivity
          | intros; unfold fixedZone; lia
          | vm_compute; discriminate
          | vm_compute; split; discriminate ].
Defined.

(** Where the clocks change the window of one day back need not be
    empty: late on the day the zone put its clocks forward, the same
    local time a day earlier is on the same UTC day. *)
Example getExpiringLicenses_day_back :
  let now := isoDay 2024 3 10 * msPerDay + 23 * msPerHour + 1800000 in
  let l := withExpiry "active" (isoDay 2024 3 10) (sampleLicense "a" "Zoom" 1) in
  getExpiringLicenses easternZone now now (-1) (sampleStore [l]) = Ok [l].
Proof. vm_compute. reflexivity. Qed.

(** X20.  A longer window returns no less: in a zone whose offsets
    differ by no more than a day, every license that
    [getExpiringLicenses] returns for [days] is returned for any larger
    [days'], at the same two readings of the clock; and whatever the
    window, a returned license is a row of the table that is active and
    has an expiry date. *)
Theorem getExpiringLicenses_monotone :
  forall (LocalTZA : Z -> bool -> Z) (now now' days days' : Z) (db : Store)
         (found found' : list License.t),
    (forall a b, LocalTZA a false - LocalTZA b false <= msPerDay) ->
    days <= days' ->
    getExpiringLicenses LocalTZA now now' days db = Ok found ->
    getExpiringLicenses LocalTZA now now' days' db = Ok found' ->
    (forall l, In l found -> In l found')
    /\ (forall l, In l found ->
          In l (licenses db)
          /\ License.status l = Some "active"
          /\ License.expiryDate l <> None).
Proof.
  intros LocalTZA now now' days days' db found found' Hshift Hle Hfound Hfound'.
  pose proof (getExpiringLicenses_outcome LocalTZA now now' days db) as Hout.
  pose proof (getExpiringLicenses_outcome LocalTZA now now' days' db) as Hout'.
  destruct (addDays LocalTZA now days) as [future|] eqn:Hfuture;
    [|rewrite Hout in Hfound; discriminate].
  destruct (addDays LocalTZA now days') as [future'|] eqn:Hfuture';
    [|rewrite Hout' in Hfound'; discriminate].
  destruct Hout as [[_ [_ Hok]]|[_ Herr]];
    [|rewrite Herr in Hfound; discriminate].
  destruct Hout' as [[_ [_ Hok']]|[_ Herr']];
    [|rewrite Herr' in Hfound'; discriminate].
  rewrite Hok in Hfound. injection Hfound as <-.
  rewrite Hok' in Hfound'. injection Hfound' as <-.
  assert (Hday : utcDay future <= utcDay future').
  { apply utcDay_monotone.
    rewrite (addDays_value _ _ _ _ Hfuture), (addDays_value _ _ _ _ Hfuture').
    unfold UTC.
    destruct (Z.eq_dec days days') as [->|Hne]; [lia|].
    pose proof (Hshift (LocalTime LocalTZA now + days' * msPerDay)
                       (LocalTime LocalTZA now + days * msPerDay)) as Hs.
    unfold msPerDay in *. nia. }
  split.
  - intros l. rewrite !filter_In, !expiresBetween_iff.
    intros [Hin [Hst [d [Hd Hw]]]]. split; [exact Hin|].
    split; [exact Hst|]. exists d. split; [exact Hd|lia].
  - intros l. rewrite filter_In, expiresBetween_iff.
    intros [Hin [Hst [d [Hd _]]]]. split; [exact Hin|].
    split; [exact Hst|]. rewrite Hd. discriminate.
Qed.

Lemma getExpiringLicenses_monotone_witness :
  In (withExpiry "active" (isoDay 2024 1 15) (sampleLicense "a" "Zoom" 1))
     [withExpiry "active" (isoDay 2024 1 15) (sampleLicense "a" "Zoom" 1);
      withExpiry "active" (isoDay 2024 3 1) (sampleLicense "b" "Slack" 2)].
Proof.
  refine (proj1 (getExpiringLicenses_monotone (fixedZone 0) (noon (isoDay 2024 1 1))
                   (noon (isoDay 2024 1 1)) 30 90 (sampleStore expiringExample)
                   [withExpiry "active" (isoDay 2024 1 15)
                               (sampleLicense "a" "Zoom" 1)]
                   _ _ _ _ _) _ _).
  - intros a b. unfold fixedZone, msPerDay. lia.
  - lia.
  - vm_compute. reflexivity.
  - vm_compute. reflexivity.
  - now left.
Defined.

(** ** Metrics: counts and undefined costs *)

Lemma length_filter_le (A : Type) (p : A -> bool) (l : list A) :
  (List.length (filter p l) <= List.length l)%nat.
Proof.
  induction l as [|x l IH]; simpl; [lia|].
  destruct (p x); simpl; lia.
Qed.

Lemma getExpiringLicenses_length (LocalTZA : Z -> bool -> Z) (now now' days : Z)
    (db : Store) (found : list License.t) :
  getExpiringLicenses LocalTZA now now' days db = Ok found ->
  (List.length found <= List.length (licenses db))%nat.
Proof.
  unfold getExpiringLicenses.
  destruct (addDays LocalTZA now days); [|discriminate].
  destruct (isoDate_param (utcDay z)); [|discriminate].
  destruct (isoDate_param (utcDay now')); [|discriminate].
  cbn [bind]. intros H. injection H as <-. apply length_filter_le.
Qed.

Lemma getExpiringLicenses_error (LocalTZA : Z -> bool -> Z) (now now' days : Z)
    (db : Store) (e : error) :
  getExpiringLicenses LocalTZA now now' days db = Err e ->
  e = RangeError \/ e = StoreError.
Proof.
  pose proof (getExpiringLicenses_outcome LocalTZA now now' days db) as Hout.
  destruct (addDays LocalTZA now days).
  - destruct Hout as [[_ [_ ->]]|[_ ->]]; [discriminate|].
    intros H. injection H as <-. now right.
  - rewrite Hout. intros H. injection H as <-. now left.
Qed.

(** X21.  The counts of [getLicenseMetrics]: [totalLicenses] is the
    number of rows of the licenses table when [getAllLicenses] reads it,
    and [expiringSoon] is the number of licenses
    [getExpiringLicenses(30)] returns when it runs afterwards, which is
    at most the number of rows the table has then; when nothing is
    written between the two statements, [expiringSoon] is at most
    [totalLicenses].  The call succeeds exactly when the expiry query
    does, and fails with its error, a range error or the store's; then
    [GET /api/analytics/metrics] answers 500. *)
Theorem getLicenseMetrics_counts :
  forall (LocalTZA : Z -> bool -> Z) (now now' : Z) (db db' : Store),
    (forall m, getLicenseMetrics LocalTZA now now' db db' = Ok m ->
       totalLicenses m = Z.of_nat (List.length (licenses db))
       /\ (exists expiring,
             getExpiringLicenses LocalTZA now now' 30 db' = Ok expiring
             /\ expiringSoon m = Z.of_nat (List.length expiring))
       /\ 0 <= expiringSoon m <= Z.of_nat (List.length (licenses db'))
       /\ (db' = db -> expiringSoon m <= totalLicenses m)
       /\ get_metrics LocalTZA now now' db db' = Json 200 m)
    /\ (forall e, getLicenseMetrics LocalTZA now now' db db' = Err e ->
          getExpiringLicenses LocalTZA now now' 30 db' = Err e
          /\ (e = RangeError \/ e = StoreError)
          /\ get_metrics LocalTZA now now' db db' =
               Message 500 "Failed to fetch metrics")
    /\ is_ok (getLicenseMetrics LocalTZA now now' db db') =
         is_ok (getExpiringLicenses LocalTZA now now' 30 db').
Proof.
  intros LocalTZA now now' db db'. split; [|split].
  - intros m Hm. unfold get_metrics. rewrite Hm.
    unfold getLicenseMetrics in Hm.
    destruct (getExpiringLicenses LocalTZA now now' 30 db') as [expiring|e]
      eqn:Hexp; [|discriminate].
    cbn [bind] in Hm. injection Hm as <-. cbn [totalLicenses expiringSoon].
    pose proof (getExpiringLicenses_length _ _ _ _ _ _ Hexp) as Hlen.
    assert (Htotal : Z.of_nat (List.length (getAllLicenses db)) =
                     Z.of_nat (List.length (licenses db)))
      by (unfold getAllLicenses; now rewrite length_orderBy).
    split; [exact Htotal|].
    split; [exists expiring; now split|].
    split; [lia|]. split; [|reflexivity].
    intros ->. lia.
  - intros e He. unfold get_metrics. rewrite He.
    unfold getLicenseMetrics in He.
    destruct (getExpiringLicenses LocalTZA now now' 30 db') as [expiring|e']
      eqn:Hexp; [discriminate|].
    cbn [bind] in He. injection He as <-.
    split; [reflexivity|]. split; [|reflexivity].
    exact (getExpiringLicenses_error _ _ _ _ _ _ Hexp).
  - unfold getLicenseMetrics.
    destruct (getExpiringLicenses LocalTZA now now' 30 db'); reflexivity.
Qed.

Lemma getLicenseMetrics_counts_witness :
  totalLicenses (mkMetrics 3 (ofZ 0) 1 (ofZ 0)) =
    Z.of_nat (List.length (licenses (sampleStore expiringExample))).
Proof.
  refine (proj1 (proj1 (getLicenseMetrics_counts (fixedZone 0)
                   (noon (isoDay 2024 1 1)) (noon (isoDay 2024 1 1))
                   (sampleStore expiringExample) (sampleStore expiringExample))
                   (mkMetrics 3 (ofZ 0) 1 (ofZ 0)) _)).
  vm_compute. reflexivity.
Defined.

(** When a license is deleted between the two statements, more licenses
    can be counted as expiring than there are licenses. *)
Example getLicenseMetrics_two_readings :
  let l := withExpiry "active" (isoDay 2024 1 15) (sampleLicense "a" "Zoom" 1) in
  getLicenseMetrics (fixedZone 0) (noon (isoDay 2024 1 1)) (noon (isoDay 2024 1 1))
                    (sampleStore []) (sampleStore [l]) =
    Ok (mkMetrics 0 (ofZ 0) 1 (ofZ 0)).
Proof. vm_compute. reflexivity. Qed.

Lemma fold_addMonthly_nonbillable (ls : list License.t) (total : number) :
  fold_left addMonthly (filter billable ls) total = fold_left addMonthly ls total.
Proof.
  revert total. induction ls as [|l ls IH]; intros total; [reflexivity|].
  cbn [filter fold_left]. unfold billable at 1.
  unfold addMonthly at 3.
  destruct (String.eqb (License.billingFrequency l) "monthly") eqn:H1;
    cbn [orb fold_left].
  { rewrite IH. unfold addMonthly at 2. now rewrite H1. }
  destruct (String.eqb (License.billingFrequency l) "quarterly") eqn:H2;
    cbn [orb fold_left].
  { rewrite IH. unfold addMonthly at 2. now rewrite H1, H2. }
  destruct (String.eqb (License.billingFrequency l) "annually") eqn:H3;
    cbn [orb fold_left].
  { rewrite IH. unfold addMonthly at 2. now rewrite H1, H2, H3. }
  apply IH.
Qed.

(** X22.  Licenses whose billing frequency is none of "monthly",
    "quarterly" and "annually" (spelled exactly so) have no part in
    [monthlyCost]: removing them from the store leaves it the same. *)
Theorem monthlyCost_ignores_other_frequencies :
  forall (LocalTZA : Z -> bool -> Z) (now now' : Z) (db db' : Store)
         (m : Metrics),
    getLicenseMetrics LocalTZA now now' db db' = Ok m ->
    exists m',
      getLicenseMetrics LocalTZA now now'
        (mkStore (teams db) (vendors db) (filter billable (licenses db))) db' =
        Ok m'
      /\ monthlyCost m' = monthlyCost m.
Proof.
  intros LocalTZA now now' db db' m Hm. unfold getLicenseMetrics in *.
  destruct (getExpiringLicenses LocalTZA now now' 30 db') as [expiring|];
    [|discriminate].
  cbn [bind] in *. injection Hm as <-. eexists. split; [reflexivity|].
  cbn [monthlyCost]. f_equal.
  unfold getAllLicenses. cbn [licenses].
  rewrite <- (filter_orderBy _ desc_createdAt desc_createdAt_total
                desc_createdAt_trans).
  apply fold_addMonthly_nonbillable.
Qed.

Lemma monthlyCost_ignores_other_frequencies_witness :
  exists m',
    getLicenseMetrics (fixedZone 0) (noon (isoDay 2024 1 1)) (noon (isoDay 2024 1 1))
      (mkStore (teams metricsExample) (vendors metricsExample)
               (filter billable (licenses metricsExample))) metricsExample = Ok m'
    /\ monthlyCost m' = ofZ 220.
Proof.
  refine (monthlyCost_ignores_other_frequencies (fixedZone 0)
            (noon (isoDay 2024 1 1)) (noon (isoDay 2024 1 1))
            metricsExample metricsExample
            (mkMetrics 2 (ofZ 220) 0 (ofZ 75)) _).
  vm_compute. reflexivity.
Defined.

Lemma jsAdd_nan_r (x : number) : jsAdd x nan = nan.
Proof. now destruct x. Qed.

Lemma addMonthly_nan (l : License.t) : addMonthly nan l = nan.
Proof.
  unfold addMonthly.
  destruct (String.eqb (License.billingFrequency l) "monthly"); [reflexivity|].
  destruct (String.eqb (License.billingFrequency l) "quarterly"); [reflexivity|].
  destruct (String.eqb (License.billingFrequency l) "annually"); reflexivity.
Qed.

Lemma fold_addMonthly_nan (ls : list License.t) : fold_left addMonthly ls nan = nan.
Proof.
  induction ls as [|l ls IH]; [reflexivity|].
  cbn [fold_left]. now rewrite addMonthly_nan.
Qed.

Lemma addMonthly_nan_cost (total : number) (l : License.t) :
  billable l = true -> parseFloat (License.cost l) = nan ->
  addMonthly total l = nan.
Proof.
  unfold billable, addMonthly. intros Hb Hcost. rewrite Hcost.
  destruct (String.eqb (License.billingFrequency l) "monthly");
    [apply jsAdd_nan_r|].
  destruct (String.eqb (License.billingFrequency l) "quarterly");
    [apply jsAdd_nan_r|].
  destruct (String.eqb (License.billingFrequency l) "annually");
    [apply jsAdd_nan_r|discriminate].
Qed.

(** X23.  One undefined cost spoils the total: when some license with a
    counted billing frequency has the cost "NaN" (which the store's
    decimal type can hold), [monthlyCost] is NaN, whatever the other
    licenses cost. *)
Theorem monthlyCost_nan :
  forall (LocalTZA : Z -> bool -> Z) (now now' : Z) (db db' : Store)
         (m : Metrics) (l : License.t),
    getLicenseMetrics LocalTZA now now' db db' = Ok m ->
    In l (licenses db) ->
    billable l = true ->
    License.cost l = "NaN" ->
    monthlyCost m = nan.
Proof.
  intros LocalTZA now now' db db' m l Hm Hin Hb Hcost.
  unfold getLicenseMetrics in Hm.
  destruct (getExpiringLicenses LocalTZA now now' 30 db'); [|discriminate].
  cbn [bind] in Hm. injection Hm as <-. cbn [monthlyCost].
  apply In_getAllLicenses in Hin. apply in_split in Hin.
  destruct Hin as [pre [post Hsplit]]. rewrite Hsplit.
  rewrite fold_left_app. cbn [fold_left].
  rewrite (addMonthly_nan_cost _ l Hb) by (now rewrite Hcost).
  now rewrite fold_addMonthly_nan.
Qed.

Lemma monthlyCost_nan_witness :
  monthlyCost (mkMetrics 1 nan 0 (ofZ 0)) = nan.
Proof.
  set (l := License.mk "a" "Zoom" "v1" "t1" "subscription" 10 (Some 0) "NaN"
                       "monthly" (isoDay 2023 1 1) None "Ada" None
                       (Some "active") (Some 1) (Some 1)).
  refine (monthlyCost_nan (fixedZone 0) (noon (isoDay 2024 1 1))
            (noon (isoDay 2024 1 1))
            (sampleStore [l]) (sampleStore [l]) (mkMetrics 1 nan 0 (ofZ 0)) l
            _ _ _ _).
  - vm_compute. reflexivity.
  - now left.
  - reflexivity.
  - reflexivity.
Defined.

(** ** Duplicates: when the call fails, and when it finds none *)

(** X24.  [getDuplicateLicenses] fails exactly when some license has a
    name that, lower-cased, is the name of a member of [Object.prototype]
    (as "Constructor" is): the reducer then finds an inherited value where
    it expects an array and throws a type error, and
    [GET /api/analytics/duplicates] answers 500.  For any other store the
    call succeeds. *)
Theorem getDuplicateLicenses_type_error :
  forall (db : Store),
    (getDuplicateLicenses db = Err TypeError <->
       exists l, In l (licenses db) /\ inheritedName l = true)
    /\ (is_ok (getDuplicateLicenses db) = true <->
          forall l, In l (licenses db) -> inheritedName l = false)
    /\ (get_duplicates db = Message 500 "Failed to fetch duplicates" <->
          exists l, In l (licenses db) /\ inheritedName l = true).
Proof.
  intros db.
  destruct (existsb inheritedName (getAllLicenses db)) eqn:Hany.
  - assert (Hex : exists l, In l (licenses db) /\ inheritedName l = true).
    { apply existsb_exists in Hany. destruct Hany as [l [Hin Hl]].
      exists l. split; [now apply In_getAllLicenses|exact Hl]. }
    assert (Herr : getDuplicateLicenses db = Err TypeError).
    { unfold getDuplicateLicenses.
      now rewrite (groupedBySoftware_inherited _ Hany). }
    split; [|split].
    + rewrite Herr. split; [intros _; exact Hex|reflexivity].
    + rewrite Herr. cbn [is_ok]. split; [discriminate|].
      intros Hall. destruct Hex as [l [Hin Hl]]. rewrite (Hall l Hin) in Hl.
      discriminate.
    + unfold get_duplicates. rewrite Herr.
      split; [intros _; exact Hex|reflexivity].
  - assert (Hall : forall l, In l (licenses db) -> inheritedName l = false).
    { intros l Hin. apply (existsb_false_forall _ _ _ Hany).
      now apply In_getAllLicenses. }
    assert (Hno : ~ exists l, In l (licenses db) /\ inheritedName l = true).
    { intros [l [Hin Hl]]. rewrite (Hall l Hin) in Hl. discriminate. }
    pose proof (getDuplicateLicenses_safe db Hany) as Hok.
    split; [|split].
    + rewrite Hok. split; [discriminate|intros H; contradiction].
    + rewrite Hok. cbn [is_ok]. split; [intros _; exact Hall|reflexivity].
    + unfold get_duplicates. rewrite Hok.
      split; [discriminate|intros H; contradiction].
Qed.

Lemma getDuplicateLicenses_type_error_witness :
  getDuplicateLicenses
    (sampleStore [sampleLicense "a" "Zoom" 2; sampleLicense "b" "__PROTO__" 1]) =
    Err TypeError.
Proof.
  apply (proj1 (getDuplicateLicenses_type_error _)).
  exists (sampleLicense "b" "__PROTO__" 1). split; [right; now left|reflexivity].
Defined.

Lemma In_entriesOrder (k : string) (keys : list string) :
  In k (entriesOrder keys) <-> In k keys.
Proof.
  unfold entriesOrder. rewrite in_app_iff, In_orderBy, !filter_In.
  destruct (isIndex k); cbn [negb]; intuition congruence.
Qed.

Lemma length_membersOf (k : string) (ls : list License.t) :
  List.length (membersOf k ls) = count_occ string_dec (map groupKey ls) k.
Proof.
  unfold membersOf. induction ls as [|l ls IH]; [reflexivity|].
  cbn [filter map count_occ].
  destruct (String.eqb_spec (groupKey l) k) as [Heq|Hne];
    destruct (string_dec (groupKey l) k) as [Heq'|Hne']; try contradiction.
  - cbn [List.length]. now rewrite IH.
  - exact IH.
Qed.

Lemma filter_nil_iff (A : Type) (p : A -> bool) (l : list A) :
  filter p l = [] <-> forall x, In x l -> p x = false.
Proof.
  induction l as [|a l IH]; [split; [intros _ x []|reflexivity]|].
  cbn [filter]. destruct (p a) eqn:Ha.
  - split; [discriminate|]. intros H. specialize (H a (or_introl eq_refl)).
    congruence.
  - rewrite IH. split.
    + intros H x [<-|Hx]; [exact Ha|now apply H].
    + intros H x Hx. apply H. now right.
Qed.

(** X25.  When no lower-cased name is inherited, [getDuplicateLicenses]
    returns no group exactly when the names of the licenses are pairwise
    different without regard to case. *)
Theorem getDuplicateLicenses_none_iff_distinct :
  forall (db : Store),
    (forall l, In l (licenses db) -> inheritedName l = false) ->
    (getDuplicateLicenses db = Ok [] <->
       NoDup (map (fun l => toLowerCase (License.softwareName l)) (licenses db))).
Proof.
  intros db Hsafe.
  assert (Hany : existsb inheritedName (getAllLicenses db) = false).
  { destruct (existsb inheritedName (getAllLicenses db)) eqn:H; [|reflexivity].
    apply existsb_exists in H. destruct H as [l [Hin Hl]].
    apply In_getAllLicenses in Hin. rewrite (Hsafe l Hin) in Hl. discriminate. }
  rewrite (getDuplicateLicenses_safe db Hany).
  change (fun l => toLowerCase (License.softwareName l)) with groupKey.
  assert (Hperm : NoDup (map groupKey (getAllLicenses db)) <->
                  NoDup (map groupKey (licenses db))).
  { split; apply Permutation_NoDup, Permutation_map.
    - apply Permutation_orderBy.
    - apply Permutation_sym, Permutation_orderBy. }
  rewrite <- Hperm. clear Hperm. generalize (getAllLicenses db) as ls. intros ls.
  rewrite (NoDup_count_occ string_dec). unfold duplicateGroups.
  split.
  - intros H. injection H as H. apply map_eq_nil in H.
    rewrite filter_nil_iff in H. intros k.
    destruct (in_dec string_dec k (map groupKey ls)) as [Hin|Hnin].
    + assert (Hk : In k (entriesOrder (firstSeen (map groupKey ls))))
        by (now apply In_entriesOrder, In_firstSeen).
      specialize (H k Hk). rewrite length_membersOf in H.
      apply Z.leb_gt in H. lia.
    + apply (count_occ_not_In string_dec) in Hnin. lia.
  - intros H. f_equal.
    replace (filter _ _) with (@nil string); [reflexivity|].
    symmetry. apply filter_nil_iff. intros k _.
    rewrite length_membersOf. apply Z.leb_gt. specialize (H k). lia.
Qed.

Lemma getDuplicateLicenses_none_iff_distinct_witness :
  getDuplicateLicenses
    (sampleStore [sampleLicense "a" "Zoom" 2; sampleLicense "b" "Slack" 1]) = Ok [].
Proof.
  apply (proj2 (getDuplicateLicenses_none_iff_distinct
                  (sampleStore [sampleLicense "a" "Zoom" 2;
                                sampleLicense "b" "Slack" 1])
                  ltac:(intros l [<-|[<-|[]]]; reflexivity))).
  repeat constructor; simpl; intuition discriminate.
Defined.

(** ** [POST /api/licenses]: what the schema asks for *)

Lemma parseFields_required (field : string -> option json)
    (licenseData : InsertLicense.t) (key : string) :
  parseFields field = Ok licenseData ->
  In key requiredLicenseKeys ->
  exists s, field key = Some (JString s).
Proof.
  unfold parseFields, zString, zOptionalString. intros Hparse.
  destruct (field "softwareName") as [[| | |s1|?|?]|] eqn:H1;
    cbn [bind] in Hparse; try discriminate.
  destruct (field "vendorId") as [[| | |s2|?|?]|] eqn:H2;
    cbn [bind] in Hparse; try discriminate.
  destruct (field "teamId") as [[| | |s3|?|?]|] eqn:H3;
    cbn [bind] in Hparse; try discriminate.
  destruct (field "licenseType") as [[| | |s4|?|?]|] eqn:H4;
    cbn [bind] in Hparse; try discriminate.
  destruct (field "totalSeats") as [[| | |s5|?|?]|] eqn:H5;
    cbn [bind] in Hparse; try discriminate.
  destruct (field "cost") as [[| | |s6|?|?]|] eqn:H6;
    cbn [bind] in Hparse; try discriminate.
  destruct (field "billingFrequency") as [[| | |s7|?|?]|] eqn:H7;
    cbn [bind] in Hparse; try discriminate.
  destruct (field "purchaseDate") as [[| | |s8|?|?]|] eqn:H8;
    cbn [bind] in Hparse; try discriminate.
  destruct (field "expiryDate") as [[| | |?|?|?]|];
    cbn [bind] in Hparse; try discriminate;
    (destruct (field "contactPerson") as [[| | |s9|?|?]|] eqn:H9;
       cbn [bind] in Hparse; try discriminate);
    clear Hparse;
    intros [<-|[<-|[<-|[<-|[<-|[<-|[<-|[<-|[<-|[]]]]]]]]]];
    eexists; eassumption.
Qed.

Lemma parseFields_error (field : string -> option json) (e : error) :
  parseFields field = Err e -> e = ZodError.
Proof.
  unfold parseFields, zString, zOptionalString.
  repeat match goal with
         | |- context [match field ?k with _ => _ end] =>
             destruct (field k) as [[| | |?|?|?]|]; cbn [bind]
         end;
    try discriminate; intros H; now injection H as <-.
Qed.

Section PostLicenseSchema.
Variable date_in : string -> option Z.
Variable prepareValue : json -> string.

(** X26.  A creation payload in which one of the nine required keys is
    missing or is not a JSON string is answered with 400 and changes
    nothing.  The [vendorId] is among them although the route replaces it,
    and so are [totalSeats] and [cost], which a payload has to give as
    strings, not as numbers. *)
Theorem post_license_required_keys :
  forall (uuidV uuidL : string) (now : Z) (body : json) (db : Store) (key : string),
    In key requiredLicenseKeys ->
    (forall s, member key body <> Some (JString s)) ->
    insertLicenseSchema body = Err ZodError
    /\ post_license date_in prepareValue uuidV uuidL now body db =
         (Message 400 "Invalid license data", db).
Proof.
  intros uuidV uuidL now body db key Hkey Hmissing.
  assert (Herr : insertLicenseSchema body = Err ZodError).
  { destruct (insertLicenseSchema body) as [licenseData|e] eqn:Hparse.
    - exfalso. rewrite insertLicenseSchema_fields in Hparse.
      destruct (parseFields_required _ _ key Hparse Hkey) as [s Hs].
      exact (Hmissing s Hs).
    - f_equal. rewrite insertLicenseSchema_fields in Hparse.
      exact (parseFields_error _ _ Hparse). }
  split; [exact Herr|]. unfold post_license. now rewrite Herr.
Qed.

(** X27.  The schema does not ask that a cost is a number: when the cost
    of a payload is a string in which [parseFloat] finds no number and the
    request is answered with 201, the license is stored with the cost
    "NaN". *)
Theorem post_license_cost_not_a_number :
  forall (uuidV uuidL : string) (now : Z) (body : json) (db db' : Store)
         (license : License.t) (text : string),
    post_license date_in prepareValue uuidV uuidL now body db =
      (Json 201 license, db') ->
    member "cost" body = Some (JString text) ->
    parseFloat text = nan ->
    License.cost license = "NaN"
    /\ getLicense uuidL db' = Some license.
Proof.
  intros uuidV uuidL now body db db' license text Hpost Hcost Hnan.
  destruct (post_license_created _ _ _ _ _ _ _ _ _ Hpost)
    as [licenseData [vendor [db1 [Hparse Hcreate]]]].
  rewrite insertLicenseSchema_fields in Hparse.
  destruct (parseFields_cost _ _ Hparse) as [text' [Htext' Hvalue]].
  rewrite Hcost in Htext'. injection Htext' as <-.
  destruct (createLicense_row _ _ _ _ _ _ _ Hcreate) as [_ [_ [[n [Hn Hrow]] _]]].
  split.
  - cbn [InsertLicense.withVendorId InsertLicense.cost] in Hn.
    rewrite Hvalue, Hnan in Hn.
    change (Number_toString nan) with "NaN" in Hn.
    change (numeric_in "NaN") with (Ok NumNaN) in Hn.
    injection Hn as <-. exact Hrow.
  - destruct (createLicense_inserted _ _ _ _ _ _ _ Hcreate)
      as [Hid [_ [_ [Hdb' Hc]]]].
    assert (Hids : NoDup (map License.id (licenses db1 ++ [license]))).
    { subst db'. unfold consistent in Hc. rewrite !andb_true_iff in Hc.
      destruct Hc as [[_ Hli] _]. now apply uniqueb_NoDup. }
    rewrite map_app in Hids. cbn [map] in Hids. rewrite Hid in Hids.
    apply NoDup_snoc_absent in Hids.
    subst db'. unfold getLicense. cbn [licenses].
    rewrite find_snoc, (find_id_absent _ _ Hids), Hid.
    now rewrite String.eqb_refl.
Qed.
End PostLicenseSchema.

Lemma post_license_required_keys_witness :
  post_license isoDate_in plainValue "v9" "l9" 100
    (JObject [("softwareName", JString "Zoom"); ("cost", JNumber (ofZ 20))])
    (sampleStore []) =
    (Message 400 "Invalid license data", sampleStore []).
Proof.
  apply (proj2 (post_license_required_keys isoDate_in plainValue "v9" "l9" 100
                  (JObject [("softwareName", JString "Zoom");
                            ("cost", JNumber (ofZ 20))])
                  (sampleStore []) "cost"
                  ltac:(simpl; tauto) ltac:(intros s; discriminate))).
Defined.

Lemma post_license_cost_not_a_number_witness :
  License.cost
    (License.mk "l9" "Zoom" "v1" "t1" "subscription" 10 (Some 0)
       "NaN" "monthly" (isoDay 2024 1 1) None "Ada" None
       (Some "active") (Some 100) (Some 100)) = "NaN".
Proof.
  refine (proj1 (post_license_cost_not_a_number isoDate_in plainValue "v9" "l9" 100
           (licenseBody "free" []) (sampleStore [])
           (mkStore (teams (sampleStore [])) (vendors (sampleStore []))
              [License.mk "l9" "Zoom" "v1" "t1" "subscription" 10 (Some 0)
                 "NaN" "monthly" (isoDay 2024 1 1) None "Ada" None
                 (Some "active") (Some 100) (Some 100)])
           (License.mk "l9" "Zoom" "v1" "t1" "subscription" 10 (Some 0)
              "NaN" "monthly" (isoDay 2024 1 1) None "Ada" None
              (Some "active") (Some 100) (Some 100)) "free" _ _ _));
    vm_compute; reflexivity.
Defined.

(** ** Vendors by id; updates and the store's constraints *)

Lemma find_vendor_by_id (vs : list Vendor.t) (v : Vendor.t) :
  NoDup (map Vendor.id vs) -> In v vs ->
  find (fun w => String.eqb (Vendor.id w) (Vendor.id v)) vs = Some v.
Proof.
  induction vs as [|a vs IH]; intros Hnd Hin; [contradiction|].
  cbn [map] in Hnd. inversion Hnd as [|? ? Ha Hnd']; subst.
  cbn [find]. destruct Hin as [->|Hin].
  - now rewrite String.eqb_refl.
  - destruct (String.eqb_spec (Vendor.id a) (Vendor.id v)) as [Heq|_].
    + exfalso. apply Ha. rewrite Heq. now apply in_map.
    + now apply IH.
Qed.

(** X28.  In a store that satisfies its constraints, the vendor that
    [getOrCreateVendor] returns has the name asked for and is the vendor
    [getVendor] finds under its id afterwards; the store still satisfies
    its constraints, and every vendor it had is still found under its
    id. *)
Theorem getOrCreateVendor_then_getVendor :
  forall (uuid name : string) (now : Z) (db db' : Store) (vendor : Vendor.t),
    consistent db = true ->
    getOrCreateVendor uuid now name db = Ok (vendor, db') ->
    Vendor.name vendor = name
    /\ getVendor (Vendor.id vendor) db' = Some vendor
    /\ consistent db' = true
    /\ (forall v, In v (vendors db) -> getVendor (Vendor.id v) db' = Some v).
Proof.
  intros uuid name now db db' vendor Hc Hget.
  destruct (getOrCreateVendor_effect _ _ _ _ _ _ Hget)
    as [Hname [Hin [_ [_ Hvendors]]]].
  assert (Hc' : consistent db' = true).
  { unfold getOrCreateVendor in Hget.
    destruct (vendorsNamed name db); [|now injection Hget as _ <-].
    unfold createVendor, commit in Hget.
    match type of Hget with context [if consistent ?d then _ else _] =>
      destruct (consistent d) eqn:Hd end; [|discriminate].
    now injection Hget as _ <-. }
  assert (Hids : NoDup (map Vendor.id (vendors db'))).
  { unfold consistent in Hc'. rewrite !andb_true_iff in Hc'.
    destruct Hc' as [[[[_ Hvi] _] _] _]. now apply uniqueb_NoDup. }
  split; [exact Hname|]. split; [now apply find_vendor_by_id|].
  split; [exact Hc'|].
  intros v Hv. apply find_vendor_by_id; [exact Hids|].
  destruct Hvendors as [Hsame|Hadded].
  - now rewrite Hsame.
  - rewrite Hadded. apply in_or_app. now left.
Qed.

Lemma getOrCreateVendor_then_getVendor_witness :
  getVendor "v9" (mkStore (teams (sampleStore []))
                    (vendors (sampleStore []) ++
                     [Vendor.mk "v9" "Globex" None None (Some 5)]) []) =
    Some (Vendor.mk "v9" "Globex" None None (Some 5)).
Proof.
  apply (proj1 (proj2 (getOrCreateVendor_then_getVendor "v9" "Globex" 5
                         (sampleStore []) _ _ eq_refl eq_refl))).
Defined.

Lemma updateLicense_error (now : Z) (id : string) (license : Patch.t)
    (db : Store) (e : error) :
  updateLicense now id license db = Err e -> e = StoreError.
Proof.
  unfold updateLicense.
  destruct (bindPatch license) as [cost|e'] eqn:Hcost; cbn [bind].
  - destruct (map (assign license cost now)
                  (filter (fun row => String.eqb (License.id row) id) (licenses db)));
      [discriminate|].
    unfold commit.
    match goal with |- context [if consistent ?d then _ else _] =>
      destruct (consistent d) end; [discriminate|].
    intros H. now injection H as <-.
  - intros H. injection H as <-. exact (bindPatch_error _ _ Hcost).
Qed.



(** X30.  An update that would move an existing license to a team or to a
    vendor the store does not have is rejected: [updateLicense] fails with
    the store's error, the route answers 500, and the license is as it
    was. *)
Theorem updateLicense_rejects_unknown_reference :
  forall (now : Z) (id : string) (license : Patch.t) (db : Store) (row : License.t),
    getLicense id db = Some row ->
    (exists t, Patch.teamId license = Some t /\ ~ In t (map Team.id (teams db)))
    \/ (exists v, Patch.vendorId license = Some v /\
                  ~ In v (map Vendor.id (vendors db))) ->
    updateLicense now id license db = Err StoreError
    /\ put_license now id license db =
         (Message 500 "Failed to update license", db).
Proof.
  intros now id license db row Hrow Hbad.
  assert (Herr : updateLicense now id license db = Err StoreError).
  { destruct (updateLicense now id license db) as [[r db']|e] eqn:Hupdate;
      [|f_equal; exact (updateLicense_error _ _ _ _ _ Hupdate)].
    exfalso. unfold updateLicense in Hupdate.
    destruct (bindPatch license) as [cost|e]; [|discriminate].
    cbn [bind] in Hupdate.
    unfold getLicense in Hrow. apply find_some in Hrow.
    destruct Hrow as [Hin Hhit].
    assert (Hsel : In row (filter (fun r0 => String.eqb (License.id r0) id)
                                  (licenses db)))
      by (apply filter_In; now split).
    destruct (filter (fun r0 => String.eqb (License.id r0) id) (licenses db))
      as [|first rest] eqn:Hfilter; [contradiction|].
    cbn [map] in Hupdate. unfold commit in Hupdate.
    match type of Hupdate with context [if consistent ?d then _ else _] =>
      destruct (consistent d) eqn:Hd end; [|discriminate].
    unfold consistent in Hd. cbn [teams vendors licenses] in Hd.
    rewrite !andb_true_iff in Hd. destruct Hd as [_ Hok].
    rewrite forallb_forall in Hok.
    specialize (Hok (assign license cost now first)
                    ltac:(apply in_or_app; right; now left)).
    unfold license_ok in Hok.
    cbn [teams vendors assign License.teamId License.vendorId] in Hok.
    rewrite !andb_true_iff, !existsb_eqb_In in Hok.
    destruct Hok as [[[Hv Ht] _] _].
    destruct Hbad as [[t [Hpt Hnt]]|[v [Hpv Hnv]]].
    - rewrite Hpt in Ht. cbn [supplied] in Ht. contradiction.
    - rewrite Hpv in Hv. cbn [supplied] in Hv. contradiction. }
  split; [exact Herr|]. unfold put_license. now rewrite Herr.
Qed.

Lemma updateLicense_rejects_unknown_reference_witness :
  updateLicense 50 "a"
    (Patch.mk None None None (Some "t7") None None None None None None None None
              None None None None) searchExample = Err StoreError.
Proof.
  refine (proj1 (updateLicense_rejects_unknown_reference 50 "a" _ searchExample
                   (sampleLicense "a" "Zoom" 3) eq_refl _)).
  left. exists "t7". split; [reflexivity|].
  simpl. intros [H|[]]. discriminate.
Defined.
